(** * GitHop: ingestion and scoring pipeline

    A shallow embedding of the backend services of GitHop
    (the sync service with its score calculator, the enrichment worker and
    the listing endpoint) together with the properties stated about them.

    Conventions of the embedding.
    - A JavaScript integer-valued number is a [Z]; a nullable or optional
      field is an [option].
    - The activity score is a binary64 computation around [Math.log10]. It
      is embedded as such in [Binary64], for every [Math.log10] a runtime
      may provide. [Score] holds the same formula over the real numbers
      [R], its value in exact arithmetic, which the binary64 result
      approximates.
    - [Date.now()] is an explicit argument [now] (milliseconds since the
      epoch); a timestamp string is the [Z] that [new Date(s).getTime()]
      yields for it.
    - The relational store is explicit state; a transaction either commits
      its working copy or rolls back to the tables it started from. *)

From Stdlib Require Import ZArith QArith List Reals Lra Lia Zfloor Bool Floats.
From Bignums Require BigZ.BigZ.
From stdpp Require Import base option list gmap strings sorting.

(** ** Upstream snapshot ([GitHubRepo] of the models file) *)

Module GitHub.

Record Owner := {
  login : string;
  avatarUrl : string;
  __typename : string
}.

Record LanguageEdge := {
  edge_size : Z;          (* [size] *)
  node_name : string      (* [node.name] *)
}.

Record Languages := {
  edges : list LanguageEdge;
  totalSize : Z
}.

Record LicenseInfo := {
  licenseInfo_name : string;
  licenseInfo_key : string
}.

Record ReleaseNode := {
  tagName : string;
  publishedAt : option Z    (* [None] is JSON null *)
}.

Record Releases := {
  releases_totalCount : Z;
  nodes : list ReleaseNode
}.

Record DefaultBranchRef := {
  defaultBranchRef_name : string;
  history_totalCount : option Z   (* [target?.history?.totalCount] *)
}.

Record GitHubRepo := {
  databaseId : Z;
  name : string;
  nameWithOwner : string;
  owner : Owner;
  description : option string;
  url : string;
  homepageUrl : option string;
  stargazerCount : Z;
  forkCount : Z;
  watchers : option Z;            (* [watchers?.totalCount] *)
  issues : option Z;              (* [issues?.totalCount] *)
  diskUsage : option Z;
  primaryLanguage : option string;
  repositoryTopics : option (list string);
  languages : option Languages;
  licenseInfo : option LicenseInfo;
  createdAt : Z;
  updatedAt : Z;
  pushedAt : option Z;
  isFork : bool;
  isArchived : bool;
  isDisabled : bool;
  forkingAllowed : bool;
  isTemplate : bool;
  visibility : string;
  hasIssuesEnabled : bool;
  hasProjectsEnabled : bool;
  hasDownloads : bool;
  hasWikiEnabled : bool;
  hasPages : bool;
  hasDiscussionsEnabled : bool;
  defaultBranchRef : option DefaultBranchRef;
  releases : option Releases
}.

(** [x || 0] on an optional count: [undefined], [null] and [0] all give 0. *)
Definition orZero (x : option Z) : Z :=
  match x with Some v => v | None => 0%Z end.

(** [repo.releases?.nodes?.[0]] *)
Definition latestRelease (repo : GitHubRepo) : option ReleaseNode :=
  match releases repo with
  | Some r => head (nodes r)
  | None => None
  end.

(** [new Date(s).getTime()]; [new Date(null)] is the epoch. *)
Definition getTime (s : option Z) : Z :=
  match s with Some t => t | None => 0%Z end.

Definition MS_PER_DAY : Z := 1000 * 60 * 60 * 24.

(** [Math.floor((Date.now() - t) / (1000 * 60 * 60 * 24))] *)
Definition daysSince (now t : Z) : Z := ((now - t) / MS_PER_DAY)%Z.

(** [daysSinceCommit] as [calculateAndSaveStats] computes it:
    [repo.pushedAt ? Math.floor((Date.now() - new Date(repo.pushedAt).getTime()) / day) : null] *)
Definition daysSinceCommit (now : Z) (repo : GitHubRepo) : option Z :=
  match pushedAt repo with
  | Some t => Some (daysSince now t)
  | None => None
  end.

(** [daysSinceRelease] of [calculateAndSaveStats]: null when there is no
    release or its [publishedAt] is null. *)
Definition daysSinceRelease (now : Z) (repo : GitHubRepo) : option Z :=
  match latestRelease repo with
  | Some rel =>
      match publishedAt rel with
      | Some t => Some (daysSince now t)
      | None => None
      end
  | None => None
  end.

End GitHub.

(** ** Score calculator *)

Module Score.

Import GitHub.

Local Open Scope Z_scope.

(** [calculateSimpleHealthScore]. Every intermediate value is an integer, on
    which [Math.round] is the identity. *)
Definition calculateSimpleHealthScore
    (now : Z) (repo : GitHubRepo) (daysSinceCommit : option Z) : Z :=
  let score := 50 in
  let score :=
    match daysSinceCommit with
    | Some d =>
        if d <=? 7 then score + 30
        else if d <=? 30 then score + 20
        else if d <=? 90 then score + 10
        else if d >? 365 then score - 20
        else score
    | None => score
    end in
  let score :=
    match latestRelease repo with
    | Some rel =>
        let releaseAge := daysSince now (getTime (publishedAt rel)) in
        if releaseAge <=? 90 then score + 10 else score
    | None => score
    end in
  let score :=
    if hasIssuesEnabled repo && (orZero (issues repo) >? 0)
    then score + 5 else score in
  let score := if hasDiscussionsEnabled repo then score + 5 else score in
  let score := if isArchived repo then 0 else score in
  let score := if isDisabled repo then 0 else score in
  Z.max 0 (Z.min 100 score).

(** The health score as the specification words it. *)
Definition health_recency (days : option Z) : Z :=
  match days with
  | None => 0
  | Some d =>
      if d <=? 7 then 30
      else if d <=? 30 then 20
      else if d <=? 90 then 10
      else if d <=? 365 then 0
      else -20
  end.

Definition clamp (lo hi x : Z) : Z :=
  if x <? lo then lo else if hi <? x then hi else x.

Definition health_spec
    (days releaseAge : option Z) (issuesEnabled : bool) (openIssues : Z)
    (discussionsEnabled archived disabled : bool) : Z :=
  if archived || disabled then 0
  else
    clamp 0 100
      (50
       + health_recency days
       + match releaseAge with
         | Some age => if age <=? 90 then 10 else 0
         | None => 0
         end
       + (if issuesEnabled && (0 <? openIssues) then 5 else 0)
       + (if discussionsEnabled then 5 else 0)).

(** Age in days of the latest release, when there is one. *)
Definition releaseAge (now : Z) (repo : GitHubRepo) : option Z :=
  match latestRelease repo with
  | Some rel => Some (daysSince now (getTime (publishedAt rel)))
  | None => None
  end.

(** *** Activity score, in exact arithmetic

    The score with every operation carried out over the real numbers: the
    value the formula has as mathematics. *)

Local Open Scope R_scope.

Definition log10 (x : R) : R := ln x / ln 10.

(** [Math.round]: nearest integer, ties towards plus infinity. *)
Definition Math_round (x : R) : R := IZR (Zfloor (x + / 2)).

(** The value of [score] when the [return] statement is reached. *)
Definition activityAccumulated (repo : GitHubRepo) (daysSinceCommit : option Z) : R :=
  let score := 0 in
  let score := score + log10 (IZR (stargazerCount repo + 1)) * 100 in
  let score := score + log10 (IZR (forkCount repo + 1)) * 50 in
  let score :=
    match daysSinceCommit with
    | Some d =>
        if (d <=? 7)%Z then score + 200
        else if (d <=? 30)%Z then score + 100
        else if (d <=? 90)%Z then score + 50
        else if (d >? 365)%Z then score * (5 / 10)
        else score
    | None => score
    end in
  let score := score + IZR (Z.min (orZero (issues repo)) 100) * (5 / 10) in
  score.

(** [calculateSimpleActivityScore] *)
Definition calculateSimpleActivityScore
    (repo : GitHubRepo) (daysSinceCommit : option Z) : R :=
  Math_round (activityAccumulated repo daysSinceCommit * 100) / 100.

(** The activity score as the specification words it. *)
Definition recency_bonus (d : Z) : R :=
  if (d <=? 7)%Z then 200
  else if (d <=? 30)%Z then 100
  else if (d <=? 90)%Z then 50
  else 0.

Definition round2 (x : R) : R := IZR (Zfloor (x * 100 + / 2)) / 100.

Definition activity_spec (stars forks openIssues : Z) (days : option Z) : R :=
  let popularity :=
    100 * log10 (IZR (stars + 1)) + 50 * log10 (IZR (forks + 1)) in
  let issueTerm := (5 / 10) * IZR (Z.min openIssues 100) in
  round2
    match days with
    | None => popularity + issueTerm
    | Some d =>
        if (d <=? 365)%Z then popularity + recency_bonus d + issueTerm
        else popularity / 2 + issueTerm
    end.

(** The inputs of the activity score on which no recency term acts: a null
    day count, or one in the range 91..365. *)
Definition noRecencyTerm (days : option Z) : Prop :=
  match days with
  | None => True
  | Some d => (90 < d <= 365)%Z
  end.

End Score.

(** ** Sample inputs *)

Module Sample.

Import GitHub.

Local Open Scope string_scope.
Local Open Scope list_scope.
Local Open Scope Z_scope.

(** The scenario repository of the specification: 1000 stars, 200 forks,
    10 open issues, pushed three days before [scenario_now], no release,
    issues enabled, discussions disabled, neither archived nor disabled. *)
Definition scenario_now : Z := 1760000000000.

Definition scenario_repo : GitHubRepo := {|
  databaseId := 10270250;
  name := "react";
  nameWithOwner := "facebook/react";
  owner := {| login := "facebook"; avatarUrl := "https://avatars/u/69631";
              __typename := "Organization" |};
  description := Some "The library for web and native user interfaces.";
  url := "https://github.com/facebook/react";
  homepageUrl := Some "https://react.dev";
  stargazerCount := 1000;
  forkCount := 200;
  watchers := Some 60;
  issues := Some 10%Z;
  diskUsage := Some 1024%Z;
  primaryLanguage := Some "JavaScript";
  repositoryTopics := Some ["react"; "ui"];
  languages := Some {| edges := [ {| edge_size := 3000; node_name := "JavaScript" |};
                                  {| edge_size := 1000; node_name := "TypeScript" |} ];
                       totalSize := 4000 |};
  licenseInfo := Some {| licenseInfo_name := "MIT License"; licenseInfo_key := "mit" |};
  createdAt := 1369000000000;
  updatedAt := 1759990000000;
  pushedAt := Some (scenario_now - 3 * MS_PER_DAY - 3600000)%Z;
  isFork := false;
  isArchived := false;
  isDisabled := false;
  forkingAllowed := true;
  isTemplate := false;
  visibility := "PUBLIC";
  hasIssuesEnabled := true;
  hasProjectsEnabled := true;
  hasDownloads := false;
  hasWikiEnabled := true;
  hasPages := true;
  hasDiscussionsEnabled := false;
  defaultBranchRef := Some {| defaultBranchRef_name := "main";
                              history_totalCount := Some 16000%Z |};
  releases := Some {| releases_totalCount := 0; nodes := [] |}
|}.

(** A repository without stars or forks but with ten open issues. *)
Definition quiet_repo : GitHubRepo := {|
  databaseId := 42;
  name := "notes";
  nameWithOwner := "alice/notes";
  owner := {| login := "alice"; avatarUrl := "https://avatars/u/7";
              __typename := "User" |};
  description := None;
  url := "https://github.com/alice/notes";
  homepageUrl := None;
  stargazerCount := 0;
  forkCount := 0;
  watchers := Some 0%Z;
  issues := Some 10%Z;
  diskUsage := Some 12%Z;
  primaryLanguage := None;
  repositoryTopics := Some [];
  languages := Some {| edges := []; totalSize := 0 |};
  licenseInfo := None;
  createdAt := 1500000000000;
  updatedAt := 1700000000000;
  pushedAt := Some 1700000000000%Z;
  isFork := false;
  isArchived := false;
  isDisabled := false;
  forkingAllowed := true;
  isTemplate := false;
  visibility := "PUBLIC";
  hasIssuesEnabled := true;
  hasProjectsEnabled := false;
  hasDownloads := true;
  hasWikiEnabled := false;
  hasPages := false;
  hasDiscussionsEnabled := false;
  defaultBranchRef := None;
  releases := None
|}.

End Sample.

(** ** Score calculator: the activity score as the code computes it *)

(** A JavaScript number is an IEEE 754 binary64 value. [float] is that
    format, and its [+], [*] and [/] round to nearest, ties to even, as the
    operators of JavaScript do. *)

Module Binary64.

Import GitHub.

Local Open Scope Z_scope.

(** The number an integer of the upstream JSON denotes: the nearest
    binary64 value (the integer itself below 2^53). *)
Definition ofZ (z : Z) : float :=
  SF2Prim (binary_normalize prec emax z 0 false).

(** The real number a binary64 value stands for (0 for a value that is
    not finite). *)
Definition toR (x : float) : R :=
  match Prim2SF x with
  | S754_finite s m e =>
      if 0 <=? e then IZR (cond_Zopp s (Z.pos m) * 2 ^ e)
      else (IZR (cond_Zopp s (Z.pos m)) / IZR (2 ^ (- e)))%R
  | _ => 0%R
  end.

(** [Math.round]: a value that is not finite, or is integral, is returned
    as it is; any other value gives the nearest integer, ties towards plus
    infinity, and a zero result keeps the sign of the argument. *)
Definition Math_round (x : float) : float :=
  match Prim2SF x with
  | S754_finite s m e =>
      if 0 <=? e then x
      else
        let n := (2 * cond_Zopp s (Z.pos m) + 2 ^ (- e)) / 2 ^ (1 - e) in
        if n =? 0 then (if s then (- 0)%float else 0%float) else ofZ n
  | _ => x
  end.

Section Runtime.

(** [Math.log10] of the runtime. The language leaves the rounding of its
    result to the implementation; what is proved below holds for each. *)
Variable log10 : float -> float.

Local Open Scope float_scope.

(** [calculateSimpleActivityScore] *)
Definition calculateSimpleActivityScore
    (repo : GitHubRepo) (daysSinceCommit : option Z) : float :=
  let score := 0 in
  let score := score + log10 (ofZ (stargazerCount repo) + 1) * 100 in
  let score := score + log10 (ofZ (forkCount repo) + 1) * 50 in
  let score :=
    match daysSinceCommit with
    | Some d =>
        if (d <=? 7)%Z then score + 200
        else if (d <=? 30)%Z then score + 100
        else if (d <=? 90)%Z then score + 50
        else if (d >? 365)%Z then score * 0.5
        else score
    | None => score
    end in
  let score := score + ofZ (Z.min (orZero (issues repo)) 100) * 0.5 in
  Math_round (score * 100) / 100.

(** The activity score as the specification words it, every operation in
    binary64 and the terms added from left to right to a sum that starts
    at 0. *)
Definition popularity (stars forks : Z) : float :=
  0 + 100 * log10 (ofZ stars + 1) + 50 * log10 (ofZ forks + 1).

Definition issueTerm (openIssues : Z) : float :=
  0.5 * ofZ (Z.min openIssues 100).

(** The bonus of a day count up to 365; [None] where no bonus is set. *)
Definition recency_bonus (d : Z) : option float :=
  if (d <=? 7)%Z then Some 200
  else if (d <=? 30)%Z then Some 100
  else if (d <=? 90)%Z then Some 50
  else None.

Definition round2 (x : float) : float := Math_round (x * 100) / 100.

Definition activity_spec (stars forks openIssues : Z) (days : option Z) : float :=
  round2
    match days with
    | None => popularity stars forks + issueTerm openIssues
    | Some d =>
        if (d <=? 365)%Z then
          match recency_bonus d with
          | Some bonus => popularity stars forks + bonus + issueTerm openIssues
          | None => popularity stars forks + issueTerm openIssues
          end
        else popularity stars forks * 0.5 + issueTerm openIssues
    end.

End Runtime.

End Binary64.

(** ** A sample runtime *)

Module SampleRuntime.

Import GitHub.

Local Open Scope string_scope.
Local Open Scope list_scope.

(** [Math.log10] at the arguments the samples reach: at each, the binary64
    value nearest to the logarithm, which is what common runtimes return
    there. The other arguments are not used. *)
Definition log10 (x : float) : float :=
  if (x =? 1)%float then 0%float
  else if (x =? 201)%float then 0x1.26cf20df72d57p+1%float
  else if (x =? 1001)%float then 0x1.800e394e49eefp+1%float
  else if (x =? 12123)%float then 0x1.0559de32d2623p+2%float
  else if (x =? 205043)%float then 0x1.53f54482a58dcp+2%float
  else nan.

(** A repository with 205042 stars and 12122 forks, no open issue and no
    push date. *)
Definition popular_repo : GitHubRepo := {|
  databaseId := 2325298;
  name := "linux";
  nameWithOwner := "torvalds/linux";
  owner := {| login := "torvalds"; avatarUrl := "https://avatars/u/1024025";
              __typename := "User" |};
  description := Some "Linux kernel source tree";
  url := "https://github.com/torvalds/linux";
  homepageUrl := None;
  stargazerCount := 205042;
  forkCount := 12122;
  watchers := Some 8000%Z;
  issues := Some 0%Z;
  diskUsage := Some 5000000%Z;
  primaryLanguage := Some "C";
  repositoryTopics := Some [];
  languages := None;
  licenseInfo := None;
  createdAt := 1315000000000;
  updatedAt := 1759990000000;
  pushedAt := None;
  isFork := false;
  isArchived := false;
  isDisabled := false;
  forkingAllowed := true;
  isTemplate := false;
  visibility := "PUBLIC";
  hasIssuesEnabled := false;
  hasProjectsEnabled := false;
  hasDownloads := true;
  hasWikiEnabled := false;
  hasPages := false;
  hasDiscussionsEnabled := false;
  defaultBranchRef := None;
  releases := None
|}.

End SampleRuntime.

(** ** The relational store (init.sql)

    Each table is modelled with the columns the services read or write.
    [repositories] is a list of rows in insertion order, with the sequence
    behind its [SERIAL] primary key. The other tables are finite maps keyed
    by their [UNIQUE] constraint; their surrogate [id] columns, which no
    query reads, are left out. *)

Module Store.

Local Open Scope string_scope.
Local Open Scope list_scope.
Local Open Scope Z_scope.

Record RepoRow := {
  id : Z;
  github_id : Z;
  name : string;
  full_name : string;
  owner_login : string;
  owner_avatar_url : string;
  owner_type : string;
  description : option string;
  html_url : string;
  homepage_url : option string;
  stars_count : Z;
  forks_count : Z;
  watchers_count : Z;
  open_issues_count : Z;
  size_kb : Z;
  language : option string;
  topics : list string;
  license_name : option string;
  license_key : option string;
  created_at : Z;
  updated_at : Z;
  pushed_at : option Z;
  is_fork : bool;
  is_archived : bool;
  is_disabled : bool;
  allow_forking : bool;
  is_template : bool;
  visibility : string;
  has_issues : bool;
  has_projects : bool;
  has_downloads : bool;
  has_wiki : bool;
  has_pages : bool;
  has_discussions : bool;
  default_branch : string;
  subscribers_count : Z;
  network_count : Z;
  last_fetched : Z
}.

(** [repository_languages], keyed by [(repository_id, language_name)] *)
Record LanguageRow := {
  bytes_count : Z;
  percentage : Q
}.

(** [repository_stats], keyed by [repository_id]. The columns no statement
    of the services writes (monthly counts, growth, averages) are left out. *)
Record StatsRow := {
  commits_last_year : Z;
  days_since_last_commit : option Z;
  days_since_last_release : option Z;
  latest_release_tag : option string;
  latest_release_date : option Z;
  total_releases : Z;
  activity_score : R;
  health_score : Z;
  contributors_data_type : string;
  calculated_at : Z
}.

(** [repository_contributors], keyed by [(repository_id, github_id)] *)
Record ContributorRow := {
  c_login : string;
  c_avatar_url : option string;
  c_html_url : option string;
  c_contributions : Z;
  c_type : option string;
  c_fetched_at : Z
}.

(** [repository_commit_activity], keyed by [(repository_id, week_timestamp)] *)
Record ActivityRow := {
  week_date : Z;
  total_commits : Z;
  a_fetched_at : Z
}.

Record DB := {
  repositories : list RepoRow;
  repositories_id_seq : Z;
  repository_languages : gmap (Z * string) LanguageRow;
  repository_stats : gmap Z StatsRow;
  repository_contributors : gmap (Z * Z) ContributorRow;
  repository_commit_activity : gmap (Z * Z) ActivityRow
}.

Definition empty : DB := {|
  repositories := [];
  repositories_id_seq := 1;
  repository_languages := ∅;
  repository_stats := ∅;
  repository_contributors := ∅;
  repository_commit_activity := ∅
|}.

Inductive DbError :=
  | UniqueViolation (constraint : string)
  | CheckViolation (constraint : string)
  | NotNullViolation (column : string).

(** Setters for one table at a time. *)
Definition set_repositories (rows : list RepoRow) (seq : Z) (db : DB) : DB := {|
  repositories := rows;
  repositories_id_seq := seq;
  repository_languages := repository_languages db;
  repository_stats := repository_stats db;
  repository_contributors := repository_contributors db;
  repository_commit_activity := repository_commit_activity db
|}.

Definition set_languages (m : gmap (Z * string) LanguageRow) (db : DB) : DB := {|
  repositories := repositories db;
  repositories_id_seq := repositories_id_seq db;
  repository_languages := m;
  repository_stats := repository_stats db;
  repository_contributors := repository_contributors db;
  repository_commit_activity := repository_commit_activity db
|}.

Definition set_stats (m : gmap Z StatsRow) (db : DB) : DB := {|
  repositories := repositories db;
  repositories_id_seq := repositories_id_seq db;
  repository_languages := repository_languages db;
  repository_stats := m;
  repository_contributors := repository_contributors db;
  repository_commit_activity := repository_commit_activity db
|}.

Definition set_contributors (m : gmap (Z * Z) ContributorRow) (db : DB) : DB := {|
  repositories := repositories db;
  repositories_id_seq := repositories_id_seq db;
  repository_languages := repository_languages db;
  repository_stats := repository_stats db;
  repository_contributors := m;
  repository_commit_activity := repository_commit_activity db
|}.

Definition set_commit_activity (m : gmap (Z * Z) ActivityRow) (db : DB) : DB := {|
  repositories := repositories db;
  repositories_id_seq := repositories_id_seq db;
  repository_languages := repository_languages db;
  repository_stats := repository_stats db;
  repository_contributors := repository_contributors db;
  repository_commit_activity := m
|}.

(** [ROLLBACK]: every table returns to its state at [BEGIN]; a sequence
    keeps the values it handed out. *)
Definition rollback (atBegin working : DB) : DB :=
  set_repositories (repositories atBegin) (repositories_id_seq working) atBegin.

(** [DELETE FROM t WHERE repository_id = $1] on a table whose key starts
    with the repository id. *)
Definition deleteWhereRepository {K V} `{Countable K}
    (repoId : Z) (m : gmap (Z * K) V) : gmap (Z * K) V :=
  filter (λ kv, kv.1.1 ≠ repoId) m.

End Store.

(** ** Sync service: persistence of one page of snapshots

    One clock reading [now] stands for the [Date.now()] calls and for the
    transaction's [NOW()] of one call. *)

Module Sync.

Import GitHub.

Local Open Scope string_scope.
Local Open Scope list_scope.
Local Open Scope Z_scope.

(** Outcome of an [async] function that returns nothing. *)
Inductive Completion :=
  | Resolved
  | Rejected (e : Store.DbError).

(** [repo.defaultBranchRef?.name || 'main'] *)
Definition defaultBranchName (repo : GitHubRepo) : string :=
  match defaultBranchRef repo with
  | Some b => if String.eqb (defaultBranchRef_name b) "" then "main"
              else defaultBranchRef_name b
  | None => "main"
  end.

(** The row of the [VALUES] list of [batchSaveRepositories], which the
    conflict clause calls [EXCLUDED]; [newId] is the sequence value drawn
    for the [id] column. *)
Definition excluded (now newId : Z) (repo : GitHubRepo) : Store.RepoRow := {|
  Store.id := newId;
  Store.github_id := databaseId repo;
  Store.name := name repo;
  Store.full_name := nameWithOwner repo;
  Store.owner_login := login (owner repo);
  Store.owner_avatar_url := avatarUrl (owner repo);
  Store.owner_type := __typename (owner repo);
  Store.description := description repo;
  Store.html_url := url repo;
  Store.homepage_url := homepageUrl repo;
  Store.stars_count := stargazerCount repo;
  Store.forks_count := forkCount repo;
  Store.watchers_count := orZero (watchers repo);
  Store.open_issues_count := orZero (issues repo);
  Store.size_kb := orZero (diskUsage repo);
  Store.language := primaryLanguage repo;
  Store.topics := default [] (repositoryTopics repo);
  Store.license_name := licenseInfo_name <$> licenseInfo repo;
  Store.license_key := licenseInfo_key <$> licenseInfo repo;
  Store.created_at := createdAt repo;
  Store.updated_at := updatedAt repo;
  Store.pushed_at := pushedAt repo;
  Store.is_fork := isFork repo;
  Store.is_archived := isArchived repo;
  Store.is_disabled := isDisabled repo;
  Store.allow_forking := forkingAllowed repo;
  Store.is_template := isTemplate repo;
  Store.visibility := visibility repo;
  Store.has_issues := hasIssuesEnabled repo;
  Store.has_projects := hasProjectsEnabled repo;
  Store.has_downloads := true;
  Store.has_wiki := hasWikiEnabled repo;
  Store.has_pages := false;
  Store.has_discussions := hasDiscussionsEnabled repo;
  Store.default_branch := defaultBranchName repo;
  Store.subscribers_count := orZero (watchers repo);
  Store.network_count := forkCount repo;
  Store.last_fetched := now
|}.

(** [ON CONFLICT (github_id) DO UPDATE SET ...]: the columns of the [SET]
    list come from [EXCLUDED], [last_fetched] from [NOW()], every other
    column from the existing row. *)
Definition doUpdateSet (now : Z) (ex existing : Store.RepoRow) : Store.RepoRow := {|
  Store.id := Store.id existing;
  Store.github_id := Store.github_id existing;
  Store.name := Store.name ex;
  Store.full_name := Store.full_name existing;
  Store.owner_login := Store.owner_login existing;
  Store.owner_avatar_url := Store.owner_avatar_url existing;
  Store.owner_type := Store.owner_type existing;
  Store.description := Store.description ex;
  Store.html_url := Store.html_url existing;
  Store.homepage_url := Store.homepage_url existing;
  Store.stars_count := Store.stars_count ex;
  Store.forks_count := Store.forks_count ex;
  Store.watchers_count := Store.watchers_count ex;
  Store.open_issues_count := Store.open_issues_count ex;
  Store.size_kb := Store.size_kb ex;
  Store.language := Store.language ex;
  Store.topics := Store.topics ex;
  Store.license_name := Store.license_name existing;
  Store.license_key := Store.license_key existing;
  Store.created_at := Store.created_at existing;
  Store.updated_at := Store.updated_at ex;
  Store.pushed_at := Store.pushed_at ex;
  Store.is_fork := Store.is_fork existing;
  Store.is_archived := Store.is_archived ex;
  Store.is_disabled := Store.is_disabled ex;
  Store.allow_forking := Store.allow_forking existing;
  Store.is_template := Store.is_template existing;
  Store.visibility := Store.visibility existing;
  Store.has_issues := Store.has_issues ex;
  Store.has_projects := Store.has_projects existing;
  Store.has_downloads := Store.has_downloads existing;
  Store.has_wiki := Store.has_wiki ex;
  Store.has_pages := Store.has_pages ex;
  Store.has_discussions := Store.has_discussions ex;
  Store.default_branch := Store.default_branch existing;
  Store.subscribers_count := Store.subscribers_count existing;
  Store.network_count := Store.network_count existing;
  Store.last_fetched := now
|}.

(** The [CHECK] constraints [positive_stars] and [positive_forks]. *)
Definition checkConstraints (row : Store.RepoRow) : option Store.DbError :=
  if Store.stars_count row <? 0 then Some (Store.CheckViolation "positive_stars")
  else if Store.forks_count row <? 0 then Some (Store.CheckViolation "positive_forks")
  else None.

(** The row that conflicts on the arbiter index [github_id], if any. *)
Definition conflicting (githubId : Z) (rows : list Store.RepoRow) : option Store.RepoRow :=
  List.find (λ r, Store.github_id r =? githubId) rows.

(** The update of the conflicting row; [github_id] is [UNIQUE], so at most
    one row of a table matches. *)
Definition updateConflicting (now : Z) (ex : Store.RepoRow) (rows : list Store.RepoRow)
    : list Store.RepoRow :=
  map (λ r, if Store.github_id r =? Store.github_id ex then doUpdateSet now ex r else r)
      rows.

(** The [INSERT ... ON CONFLICT ... RETURNING id] statement for one
    snapshot. The sequence value is drawn before the conflict is detected;
    the [CHECK] constraints are tested on the proposed row; a new row must
    not repeat a [full_name] ([UNIQUE], not the arbiter). *)
Definition upsertRepository (now : Z) (repo : GitHubRepo) (db : Store.DB)
    : (Store.DbError + Z) * Store.DB :=
  let rows := Store.repositories db in
  let newId := Store.repositories_id_seq db in
  let ex := excluded now newId repo in
  match checkConstraints ex with
  | Some e => (inl e, Store.set_repositories rows (newId + 1) db)
  | None =>
      match conflicting (Store.github_id ex) rows with
      | Some existing =>
          (inr (Store.id existing),
           Store.set_repositories (updateConflicting now ex rows) (newId + 1) db)
      | None =>
          if existsb (λ r, String.eqb (Store.full_name r) (Store.full_name ex)) rows
          then (inl (Store.UniqueViolation "repositories_full_name_key"),
                Store.set_repositories rows (newId + 1) db)
          else (inr newId, Store.set_repositories (rows ++ [ex]) (newId + 1) db)
      end
  end.

(** [(lang.size / totalSize) * 100], or 0 when [totalSize] is not positive;
    the quotient is kept exact. *)
Definition languagePercentage (l : Languages) (e : LanguageEdge) : Q :=
  if 0 <? totalSize l
  then (inject_Z (edge_size e) / inject_Z (totalSize l) * 100)%Q
  else 0%Q.

Definition insertLanguage (repoId : Z) (l : Languages)
    (m : gmap (Z * string) Store.LanguageRow) (e : LanguageEdge)
    : gmap (Z * string) Store.LanguageRow :=
  <[(repoId, node_name e) :=
      {| Store.bytes_count := edge_size e;
         Store.percentage := languagePercentage l e |}]> m.

(** The language block of the loop body: only when the snapshot carries a
    non-empty edge list are the repository's rows deleted and re-inserted. *)
Definition saveLanguages (repoId : Z) (repo : GitHubRepo)
    (m : gmap (Z * string) Store.LanguageRow) : gmap (Z * string) Store.LanguageRow :=
  match languages repo with
  | Some l =>
      match edges l with
      | [] => m
      | _ :: _ =>
          fold_left (insertLanguage repoId l) (edges l)
            (Store.deleteWhereRepository repoId m)
      end
  | None => m
  end.

(** The [for] loop of [batchSaveRepositories] inside the transaction; it
    stops at the first statement that fails. *)
Fixpoint saveEach (now : Z) (repos : list GitHubRepo) (db : Store.DB)
    : Completion * Store.DB :=
  match repos with
  | [] => (Resolved, db)
  | repo :: rest =>
      match upsertRepository now repo db with
      | (inl e, db') => (Rejected e, db')
      | (inr repoId, db') =>
          saveEach now rest
            (Store.set_languages
               (saveLanguages repoId repo (Store.repository_languages db')) db')
      end
  end.

(** [batchSaveRepositories]: [BEGIN], the loop, then [COMMIT]; on an error
    [ROLLBACK] and rethrow. *)
Definition batchSaveRepositories (now : Z) (repos : list GitHubRepo) (db : Store.DB)
    : Completion * Store.DB :=
  match saveEach now repos db with
  | (Resolved, db') => (Resolved, db')
  | (Rejected e, db') => (Rejected e, Store.rollback db db')
  end.

(** The row written by the [INSERT ... ON CONFLICT (repository_id) DO UPDATE]
    of [calculateAndSaveStats]: the listed columns come from the snapshot;
    [contributors_data_type] is not listed, so a new row takes the column
    default and an existing row keeps its value. *)
Definition statsRow (now : Z) (repo : GitHubRepo) (existing : option Store.StatsRow)
    : Store.StatsRow := {|
  Store.commits_last_year := orZero (defaultBranchRef repo ≫= history_totalCount);
  Store.days_since_last_commit := daysSinceCommit now repo;
  Store.days_since_last_release := daysSinceRelease now repo;
  Store.latest_release_tag := tagName <$> latestRelease repo;
  Store.latest_release_date := latestRelease repo ≫= publishedAt;
  Store.total_releases := orZero (releases_totalCount <$> releases repo);
  Store.activity_score :=
    Score.calculateSimpleActivityScore repo (daysSinceCommit now repo);
  Store.health_score :=
    Score.calculateSimpleHealthScore now repo (daysSinceCommit now repo);
  Store.contributors_data_type :=
    match existing with
    | Some old => Store.contributors_data_type old
    | None => "all_time"
    end;
  Store.calculated_at := now
|}.

(** The loop of [calculateAndSaveStats]: a snapshot without a stored
    repository is skipped. *)
Fixpoint statsEach (now : Z) (repos : list GitHubRepo) (rows : list Store.RepoRow)
    (stats : gmap Z Store.StatsRow) : gmap Z Store.StatsRow :=
  match repos with
  | [] => stats
  | repo :: rest =>
      match conflicting (databaseId repo) rows with
      | None => statsEach now rest rows stats
      | Some r =>
          statsEach now rest rows
            (<[Store.id r := statsRow now repo (stats !! Store.id r)]> stats)
      end
  end.

(** [calculateAndSaveStats]; none of its statements can violate a constraint
    of the modelled schema, so it always commits. *)
Definition calculateAndSaveStats (now : Z) (repos : list GitHubRepo) (db : Store.DB)
    : Completion * Store.DB :=
  (Resolved,
   Store.set_stats
     (statsEach now repos (Store.repositories db) (Store.repository_stats db)) db).

(** One pass of the loop body of [fetchTopReposWithCursor] over a fetched
    page: the repositories are saved, then their stats; an exception of the
    first call skips the second. An empty page skips both. *)
Definition persistPage (now : Z) (repos : list GitHubRepo) (db : Store.DB)
    : Completion * Store.DB :=
  match repos with
  | [] => (Resolved, db)
  | _ :: _ =>
      match batchSaveRepositories now repos db with
      | (Resolved, db1) => calculateAndSaveStats now repos db1
      | (Rejected e, db1) => (Rejected e, db1)
      end
  end.

(** The states of the store that the services produce from the empty
    schema: [batchSaveRepositories] holds the only statements that write
    [repositories]; every other statement leaves that table alone. *)
Inductive Reachable : Store.DB -> Prop :=
  | reachable_empty : Reachable Store.empty
  | reachable_batch (now : Z) (repos : list GitHubRepo) (db : Store.DB) :
      Reachable db -> Reachable (batchSaveRepositories now repos db).2
  | reachable_other (db db' : Store.DB) :
      Reachable db ->
      Store.repositories db' = Store.repositories db ->
      Reachable db'.

(** *** Notions used to state the effect of a resync *)

(** The last snapshot of a page that carries a given upstream id. *)
Definition lastSnapshot (repos : list GitHubRepo) (githubId : Z) : option GitHubRepo :=
  last (List.filter (λ repo, databaseId repo =? githubId) repos).

(** The columns of a stored row that the conflict clause takes from the
    snapshot. *)
Definition takesFromSnapshot (now : Z) (repo : GitHubRepo) (r : Store.RepoRow) : Prop :=
  Store.name r = name repo
  /\ Store.description r = description repo
  /\ Store.stars_count r = stargazerCount repo
  /\ Store.forks_count r = forkCount repo
  /\ Store.watchers_count r = orZero (watchers repo)
  /\ Store.open_issues_count r = orZero (issues repo)
  /\ Store.size_kb r = orZero (diskUsage repo)
  /\ Store.language r = primaryLanguage repo
  /\ Store.topics r = default [] (repositoryTopics repo)
  /\ Store.updated_at r = updatedAt repo
  /\ Store.pushed_at r = pushedAt repo
  /\ Store.is_archived r = isArchived repo
  /\ Store.is_disabled r = isDisabled repo
  /\ Store.has_issues r = hasIssuesEnabled repo
  /\ Store.has_wiki r = hasWikiEnabled repo
  /\ Store.has_pages r = false
  /\ Store.has_discussions r = hasDiscussionsEnabled repo
  /\ Store.last_fetched r = now.

(** The columns of a stored row that a resync leaves as they were. *)
Definition keepsFromExisting (old r : Store.RepoRow) : Prop :=
  Store.id r = Store.id old
  /\ Store.github_id r = Store.github_id old
  /\ Store.full_name r = Store.full_name old
  /\ Store.owner_login r = Store.owner_login old
  /\ Store.owner_avatar_url r = Store.owner_avatar_url old
  /\ Store.owner_type r = Store.owner_type old
  /\ Store.html_url r = Store.html_url old
  /\ Store.homepage_url r = Store.homepage_url old
  /\ Store.license_name r = Store.license_name old
  /\ Store.license_key r = Store.license_key old
  /\ Store.created_at r = Store.created_at old
  /\ Store.is_fork r = Store.is_fork old
  /\ Store.allow_forking r = Store.allow_forking old
  /\ Store.is_template r = Store.is_template old
  /\ Store.visibility r = Store.visibility old
  /\ Store.has_projects r = Store.has_projects old
  /\ Store.has_downloads r = Store.has_downloads old
  /\ Store.default_branch r = Store.default_branch old
  /\ Store.subscribers_count r = Store.subscribers_count old
  /\ Store.network_count r = Store.network_count old.

(** A row with its [last_fetched] column set to [t]. *)
Definition stamped (t : Z) (r : Store.RepoRow) : Store.RepoRow :=
  doUpdateSet t r r.

(** The conflict update of a row by a snapshot, whatever id was drawn. *)
Definition resyncWith (now : Z) (repo : GitHubRepo) (r : Store.RepoRow) : Store.RepoRow :=
  doUpdateSet now (excluded now 0 repo) r.

(** The effect of a whole page on a row that was already stored. *)
Definition resynced (now : Z) (repos : list GitHubRepo) (r : Store.RepoRow)
    : Store.RepoRow :=
  match lastSnapshot repos (Store.github_id r) with
  | Some repo => resyncWith now repo r
  | None => r
  end.

(** The conflict update applied to the rows that carry the snapshot's id. *)
Definition touch (now : Z) (repo : GitHubRepo) (r : Store.RepoRow) : Store.RepoRow :=
  if Store.github_id r =? databaseId repo then resyncWith now repo r else r.

(** A row whose snapshot columns already agree with the last snapshot of
    the page for its id. *)
Definition Settled (now : Z) (repos : list GitHubRepo) (r : Store.RepoRow) : Prop :=
  ∃ repo, lastSnapshot repos (Store.github_id r) = Some repo
          ∧ resyncWith now repo r = r.

(** The language block of the loop body, with the repository id looked up
    in a given state of [repositories]. *)
Definition languageStep (rows : list Store.RepoRow)
    (m : gmap (Z * string) Store.LanguageRow) (repo : GitHubRepo)
    : gmap (Z * string) Store.LanguageRow :=
  match conflicting (databaseId repo) rows with
  | Some r => saveLanguages (Store.id r) repo m
  | None => m
  end.

(** What the language block of a snapshot writes at a key of the language
    table: nothing ([None]), or the entry, possibly absent, that replaces
    whatever was stored there. *)
Definition languageWrite (rows : list Store.RepoRow) (repo : GitHubRepo)
    (k : Z * string) : option (option Store.LanguageRow) :=
  match conflicting (databaseId repo) rows with
  | Some r =>
      match languages repo with
      | Some l =>
          match edges l with
          | [] => None
          | _ :: _ =>
              if decide (k.1 = Store.id r)
              then Some (fold_left (insertLanguage (Store.id r) l) (edges l) ∅ !! k)
              else None
          end
      | None => None
      end
  | None => None
  end.

Definition languageAt (rows : list Store.RepoRow) (k : Z * string)
    (o : option Store.LanguageRow) (repo : GitHubRepo) : option Store.LanguageRow :=
  match languageWrite rows repo k with
  | Some c => c
  | None => o
  end.

(** One iteration of the loop of [calculateAndSaveStats]. *)
Definition statsStep (now : Z) (rows : list Store.RepoRow)
    (stats : gmap Z Store.StatsRow) (repo : GitHubRepo) : gmap Z Store.StatsRow :=
  match conflicting (databaseId repo) rows with
  | None => stats
  | Some r => <[Store.id r := statsRow now repo (stats !! Store.id r)]> stats
  end.

(** Its effect on the stats row of one repository. *)
Definition statsAt (now : Z) (rows : list Store.RepoRow) (k : Z)
    (o : option Store.StatsRow) (repo : GitHubRepo) : option Store.StatsRow :=
  match conflicting (databaseId repo) rows with
  | None => o
  | Some r => if decide (Store.id r = k) then Some (statsRow now repo o) else o
  end.

(** The two flags that [batchSaveRepositories] writes as constants. *)
Definition constantFlags (r : Store.RepoRow) : Prop :=
  Store.has_downloads r = true /\ Store.has_pages r = false.

End Sync.

(** ** Enrichment worker *)

Module Worker.

Local Open Scope string_scope.
Local Open Scope list_scope.
Local Open Scope Z_scope.

(** *** Upstream data *)

(** An element of the contributor array handed to [saveContributorsToDB]
    (typed [any[]]): the fields the function reads, each possibly absent. *)
Record Contributor := {
  id : option Z;
  databaseId : option Z;
  login : option string;
  avatar_url : option string;
  avatarUrl : option string;
  html_url : option string;
  htmlUrl : option string;
  contributions : Z;
  type : option string
}.

(** [node.author?.user] of a commit of the history query *)
Record User := {
  user_databaseId : option Z;
  user_login : string;
  user_avatarUrl : string;
  user_htmlUrl : string
}.

Record PageInfo := {
  endCursor : option string;
  hasNextPage : bool
}.

Record History := {
  history_nodes : list (option User);
  pageInfo : PageInfo
}.

(** The variables of one history request; the page size [first: 100] is
    fixed in the query text. *)
Record HistoryRequest := {
  request_fullName : string;
  first : Z;
  after : option string
}.

(** What [graphqlClient.request] does: it throws an error (whose message
    may be absent), or yields data whose
    [repository?.defaultBranchRef?.target?.history] may be missing. *)
Inductive GraphQLResult :=
  | GraphQLError (message : option string)
  | GraphQLData (history : option History).

(** What [response.json()] yields on the contributors endpoint: an array
    (of contributors, or of anything else, read through the same fields), an
    object with an optional [message], or a parse error. *)
Inductive ContributorsJson :=
  | JsonArray (items : list (option Contributor))
  | JsonObject (message : option string)
  | JsonUnparseable.

(** An element of the commit-activity array. *)
Record Week := {
  week : Z;
  total : Z
}.

(** What [response.json()] yields on the commit-activity endpoint. *)
Inductive ActivityJson :=
  | WeeksArray (weeks : list Week)
  | NotAnArray
  | WeeksUnparseable.

Record Response (B : Type) := {
  status : Z;
  statusText : string;
  body : B
}.

Arguments status {B} _.
Arguments statusText {B} _.
Arguments body {B} _.

(** [response.ok] *)
Definition ok {B} (r : Response B) : bool :=
  (200 <=? status r) && (status r <=? 299).

(** What [fetch] does: it throws (network error) or yields a response. *)
Inductive FetchResult (B : Type) :=
  | FetchError (message : string)
  | FetchResponse (r : Response B).

Arguments FetchError {B} _.
Arguments FetchResponse {B} _.

(** The upstream API as the worker sees it during one call. *)
Record Upstream := {
  contributorsEndpoint : string -> FetchResult ContributorsJson;
  commitActivityEndpoint : string -> FetchResult ActivityJson;
  historyQuery : HistoryRequest -> GraphQLResult
}.

(** *** JavaScript helpers *)

(** [s.includes(sub)] *)
Fixpoint includes (sub s : string) : bool :=
  String.prefix sub s
  || match s with
     | EmptyString => false
     | String _ rest => includes sub rest
     end.

(** [a || b] on optional numbers and strings: [undefined], [null], [0] and
    the empty string are falsy. *)
Definition orElseZ (a b : option Z) : option Z :=
  match a with
  | Some v => if v =? 0 then b else a
  | None => b
  end.

Definition orElseString (a b : option string) : option string :=
  match a with
  | Some s => if String.eqb s "" then b else a
  | None => b
  end.

Definition truthyString (a : option string) : bool :=
  match a with
  | Some s => negb (String.eqb s "")
  | None => false
  end.

Definition truthyZ (a : option Z) : bool :=
  match a with
  | Some v => negb (v =? 0)
  | None => false
  end.

(** *** Errors and outcomes *)

Inductive Error :=
  | NetworkError (message : string)
  | HttpError (status : Z) (statusText : string)
  | JsonError
  | TypeError
  | UpstreamError (message : option string)
  | DatabaseError (e : Store.DbError).

(** Which strategy supplied a saved contributor list. *)
Inductive Strategy := Primary | Fallback.

(** The argument [dataType: 'all_time' | 'recent']. *)
Inductive DataType := all_time | recent.

Definition dataTypeString (d : DataType) : string :=
  match d with
  | all_time => "all_time"
  | recent => "recent"
  end.

(** How a call of [fetchAndSaveContributors] ends. The function returns
    nothing; the outcome records the path taken. *)
Inductive Outcome :=
  | Saved (via : Strategy)          (* the transaction committed *)
  | FallbackSkipped                 (* 404 / MISSING during the fallback *)
  | FallbackEmpty                   (* the fallback tallied no author *)
  | FallbackFailed (e : Error)      (* fallback error, logged and dropped *)
  | Threw (e : Error).              (* the promise is rejected *)

(** *** saveContributorsToDB *)

(** The parameter list of the [INSERT] for one contributor; [None] when the
    [github_id] parameter is null, which the [NOT NULL] column rejects. *)
Definition contributorKey (c : Contributor) : option Z :=
  orElseZ (id c) (databaseId c).

Definition contributorRow (now : Z) (fallbackType : option string) (c : Contributor)
    : Store.ContributorRow := {|
  Store.c_login := default "" (login c);
  Store.c_avatar_url := orElseString (avatar_url c) (avatarUrl c);
  Store.c_html_url := orElseString (html_url c) (htmlUrl c);
  Store.c_contributions := contributions c;
  Store.c_type := orElseString (type c) fallbackType;
  Store.c_fetched_at := now
|}.

(** [ON CONFLICT (repository_id, github_id) DO UPDATE SET contributions,
    fetched_at] *)
Definition contributorConflictUpdate (now : Z) (new old : Store.ContributorRow)
    : Store.ContributorRow := {|
  Store.c_login := Store.c_login old;
  Store.c_avatar_url := Store.c_avatar_url old;
  Store.c_html_url := Store.c_html_url old;
  Store.c_contributions := Store.c_contributions new;
  Store.c_type := Store.c_type old;
  Store.c_fetched_at := now
|}.

Definition insertContributor (now repoId : Z) (fallbackType : option string)
    (c : Contributor) (m : gmap (Z * Z) Store.ContributorRow)
    : Store.DbError + gmap (Z * Z) Store.ContributorRow :=
  match contributorKey c with
  | None => inl (Store.NotNullViolation "github_id")
  | Some g =>
      let new := contributorRow now fallbackType c in
      match m !! (repoId, g) with
      | Some old => inr (<[(repoId, g) := contributorConflictUpdate now new old]> m)
      | None => inr (<[(repoId, g) := new]> m)
      end
  end.

(** The insert loop; null elements and elements without a login are
    skipped. *)
Fixpoint insertContributors (now repoId : Z) (fallbackType : option string)
    (cs : list (option Contributor)) (m : gmap (Z * Z) Store.ContributorRow)
    : Store.DbError + gmap (Z * Z) Store.ContributorRow :=
  match cs with
  | [] => inr m
  | None :: rest => insertContributors now repoId fallbackType rest m
  | Some c :: rest =>
      if truthyString (login c) then
        match insertContributor now repoId fallbackType c m with
        | inl e => inl e
        | inr m' => insertContributors now repoId fallbackType rest m'
        end
      else insertContributors now repoId fallbackType rest m
  end.

(** [UPDATE repository_stats SET contributors_data_type = $1 WHERE
    repository_id = $2] *)
Definition setDataType (dataType : DataType) (old : Store.StatsRow) : Store.StatsRow := {|
  Store.commits_last_year := Store.commits_last_year old;
  Store.days_since_last_commit := Store.days_since_last_commit old;
  Store.days_since_last_release := Store.days_since_last_release old;
  Store.latest_release_tag := Store.latest_release_tag old;
  Store.latest_release_date := Store.latest_release_date old;
  Store.total_releases := Store.total_releases old;
  Store.activity_score := Store.activity_score old;
  Store.health_score := Store.health_score old;
  Store.contributors_data_type := dataTypeString dataType;
  Store.calculated_at := Store.calculated_at old
|}.

(** [saveContributorsToDB]: delete, insert, flag, commit; on an error the
    transaction is rolled back and the error rethrown. *)
Definition saveContributorsToDB (now repoId : Z) (contributors : list (option Contributor))
    (fallbackType : option string) (dataType : DataType) (db : Store.DB)
    : (Store.DbError + unit) * Store.DB :=
  let deleted := Store.deleteWhereRepository repoId (Store.repository_contributors db) in
  match insertContributors now repoId fallbackType contributors deleted with
  | inl e => (inl e, db)
  | inr inserted =>
      (inr tt,
       Store.set_stats (alter (setDataType dataType) repoId (Store.repository_stats db))
         (Store.set_contributors inserted db))
  end.

(** *** The fallback: recent contributors from the commit history *)

(** A value of [contributorsMap]. *)
Record Tally := {
  tally_id : Z;
  tally_login : string;
  tally_avatar_url : string;
  tally_html_url : string;
  tally_contributions : Z
}.

Definition bump (t : Tally) : Tally := {|
  tally_id := tally_id t;
  tally_login := tally_login t;
  tally_avatar_url := tally_avatar_url t;
  tally_html_url := tally_html_url t;
  tally_contributions := tally_contributions t + 1
|}.

(** [contributorsMap] in insertion order, keyed by login. The body of the
    inner loop for one commit node. *)
Fixpoint tallyUser (u : User) (g : Z) (m : list Tally) : list Tally :=
  match m with
  | [] =>
      [ {| tally_id := g;
           tally_login := user_login u;
           tally_avatar_url := user_avatarUrl u;
           tally_html_url := user_htmlUrl u;
           tally_contributions := 1 |} ]
  | t :: rest =>
      if String.eqb (tally_login t) (user_login u) then bump t :: rest
      else t :: tallyUser u g rest
  end.

Definition tallyNode (m : list Tally) (node : option User) : list Tally :=
  match node with
  | Some u =>
      match user_databaseId u with
      | Some g => if g =? 0 then m else tallyUser u g m
      | None => m
      end
  | None => m
  end.

Definition maxPages : nat := 5.

(** How the paging loop ends. *)
Inductive Paging :=
  | PagingDone (m : list Tally)
  | PagingSkipped
  | PagingThrew (e : Error).

(** The loop [for (i = 0; i < maxPages && hasNextPage; i++)], entered with
    [pagesLeft] iterations to go; the second component lists the requests
    sent, in order. *)
Fixpoint pageThrough (up : Upstream) (fullName : string) (pagesLeft : nat)
    (cursor : option string) (hasNext : bool) (m : list Tally)
    : Paging * list HistoryRequest :=
  match pagesLeft with
  | O => (PagingDone m, [])
  | S pagesLeft' =>
      if hasNext then
        let req := {| request_fullName := fullName; first := 100; after := cursor |} in
        match historyQuery up req with
        | GraphQLError msg =>
            if match msg with
               | Some s => includes "404" s || includes "MISSING" s
               | None => false
               end
            then (PagingSkipped, [req])
            else (PagingThrew (UpstreamError msg), [req])
        | GraphQLData None => (PagingDone m, [req])
        | GraphQLData (Some h) =>
            let m' := fold_left tallyNode (history_nodes h) m in
            let (res, reqs) :=
              pageThrough up fullName pagesLeft' (endCursor (pageInfo h))
                (hasNextPage (pageInfo h)) m' in
            (res, req :: reqs)
        end
      else (PagingDone m, [])
  end.

(** [sort((a, b) => b.contributions - a.contributions)]: a stable sort,
    larger counts first. [insertByContributions] puts an element in front of
    the sorted elements that followed it in the array, so it goes before
    those of equal count. *)
Fixpoint insertByContributions (t : Tally) (sorted : list Tally) : list Tally :=
  match sorted with
  | [] => [t]
  | s :: rest =>
      if tally_contributions s <=? tally_contributions t
      then t :: s :: rest
      else s :: insertByContributions t rest
  end.

Definition sortByContributions (m : list Tally) : list Tally :=
  foldr insertByContributions [] m.

(** [.slice(0, 30)] of the sorted values *)
Definition topContributors (m : list Tally) : list Tally :=
  take 30 (sortByContributions m).

(** A tally entry as an element of the array given to
    [saveContributorsToDB]. *)
Definition tallyContributor (t : Tally) : option Contributor :=
  Some {| id := Some (tally_id t);
          databaseId := None;
          login := Some (tally_login t);
          avatar_url := Some (tally_avatar_url t);
          avatarUrl := None;
          html_url := Some (tally_html_url t);
          htmlUrl := None;
          contributions := tally_contributions t;
          type := None |}.

(** A finished call: outcome, store, and the history requests sent. *)
Record Run := {
  outcome : Outcome;
  store : Store.DB;
  requests : list HistoryRequest
}.

(** [fetchAndSaveRecentContributorsGraphQL], together with the [try/catch]
    of its call site, which logs and drops an exception. *)
Definition fetchAndSaveRecentContributorsGraphQL (up : Upstream) (now repoId : Z)
    (fullName : string) (db : Store.DB) : Run :=
  let (paging, reqs) := pageThrough up fullName maxPages None true [] in
  match paging with
  | PagingSkipped => {| outcome := FallbackSkipped; store := db; requests := reqs |}
  | PagingThrew e => {| outcome := FallbackFailed e; store := db; requests := reqs |}
  | PagingDone [] => {| outcome := FallbackEmpty; store := db; requests := reqs |}
  | PagingDone (t :: m) =>
      let sortedContributors := topContributors (t :: m) in
      match saveContributorsToDB now repoId (map tallyContributor sortedContributors)
              (Some "User") recent db with
      | (inr _, db') => {| outcome := Saved Fallback; store := db'; requests := reqs |}
      | (inl e, db') =>
          {| outcome := FallbackFailed (DatabaseError e); store := db'; requests := reqs |}
      end
  end.

(** The test that selects the fallback: status 403 and a message that
    contains the marker. *)
Definition listTooLarge (r : Response ContributorsJson) : bool :=
  (status r =? 403)
  && match body r with
     | JsonObject (Some message) => includes "list is too large" message
     | _ => false
     end.

(** [fetchAndSaveContributors] *)
Definition fetchAndSaveContributors (up : Upstream) (now repoId : Z)
    (fullName : string) (db : Store.DB) : Run :=
  match contributorsEndpoint up fullName with
  | FetchError message =>
      {| outcome := Threw (NetworkError message); store := db; requests := [] |}
  | FetchResponse response =>
      if ok response then
        match body response with
        | JsonArray contributors =>
            match saveContributorsToDB now repoId contributors None all_time db with
            | (inr _, db') => {| outcome := Saved Primary; store := db'; requests := [] |}
            | (inl e, db') =>
                {| outcome := Threw (DatabaseError e); store := db'; requests := [] |}
            end
        | JsonUnparseable =>
            {| outcome := Threw JsonError; store := db; requests := [] |}
        | JsonObject _ =>
            (* not iterable: the insert loop throws inside the transaction,
               which is rolled back *)
            {| outcome := Threw TypeError; store := db; requests := [] |}
        end
      else if status response =? 403 then
        match body response with
        | JsonUnparseable =>
            {| outcome := Threw JsonError; store := db; requests := [] |}
        | _ =>
            if listTooLarge response
            then fetchAndSaveRecentContributorsGraphQL up now repoId fullName db
            else {| outcome := Threw (HttpError (status response) (statusText response));
                    store := db; requests := [] |}
        end
      else
        {| outcome := Threw (HttpError (status response) (statusText response));
           store := db; requests := [] |}
  end.

(** *** fetchAndSaveCommitActivity *)

(** The inserted row; [week_date] is [new Date(week.week * 1000)]. *)
Definition activityRow (now : Z) (w : Week) : Store.ActivityRow := {|
  Store.week_date := week w * 1000;
  Store.total_commits := total w;
  Store.a_fetched_at := now
|}.

(** [INSERT ... ON CONFLICT (repository_id, week_timestamp) DO UPDATE SET
    total_commits, fetched_at] *)
Definition insertWeek (now repoId : Z) (m : gmap (Z * Z) Store.ActivityRow) (w : Week)
    : gmap (Z * Z) Store.ActivityRow :=
  match m !! (repoId, week w) with
  | Some old =>
      <[(repoId, week w) := {| Store.week_date := Store.week_date old;
                               Store.total_commits := total w;
                               Store.a_fetched_at := now |}]> m
  | None => <[(repoId, week w) := activityRow now w]> m
  end.

Inductive ActivityOutcome :=
  | ActivitySaved
  | ActivityPending          (* the branch for status 202 *)
  | ActivityNoData           (* not an array, or an empty one *)
  | ActivityThrew (e : Error).

Definition fetchAndSaveCommitActivity (up : Upstream) (now repoId : Z)
    (fullName : string) (db : Store.DB) : ActivityOutcome * Store.DB :=
  match commitActivityEndpoint up fullName with
  | FetchError message => (ActivityThrew (NetworkError message), db)
  | FetchResponse response =>
      if negb (ok response) then
        if status response =? 202 then (ActivityPending, db)
        else (ActivityThrew (HttpError (status response) (statusText response)), db)
      else
        match body response with
        | WeeksUnparseable => (ActivityThrew JsonError, db)
        | WeeksArray (w :: ws) =>
            (ActivitySaved,
             Store.set_commit_activity
               (fold_left (insertWeek now repoId) (w :: ws)
                  (Store.deleteWhereRepository repoId
                     (Store.repository_commit_activity db)))
               db)
        | _ => (ActivityNoData, db)
        end
  end.

(** *** Sequences of contributor refreshes *)

(** One call of [fetchAndSaveContributors]: what the upstream answers
    during it, the clock, and the repository. *)
Record Refresh := {
  refresh_upstream : Upstream;
  refresh_now : Z;
  refresh_repoId : Z;
  refresh_fullName : string
}.

(** The calls in order; the log pairs each repository with the outcome of
    its call, latest first. *)
Fixpoint refreshAll (ops : list Refresh) (db : Store.DB) (log : list (Z * Outcome))
    : Store.DB * list (Z * Outcome) :=
  match ops with
  | [] => (db, log)
  | op :: rest =>
      let run := fetchAndSaveContributors (refresh_upstream op) (refresh_now op)
                   (refresh_repoId op) (refresh_fullName op) db in
      refreshAll rest (store run) ((refresh_repoId op, outcome run) :: log)
  end.

(** The strategy of the most recent call for [repoId] that saved a list. *)
Fixpoint lastSaved (repoId : Z) (log : list (Z * Outcome)) : option Strategy :=
  match log with
  | [] => None
  | (r, Saved via) :: rest => if r =? repoId then Some via else lastSaved repoId rest
  | _ :: rest => lastSaved repoId rest
  end.

(** The strategy of the most recent successful fetch for [repoId]: a call
    that saved a list, or a call whose fallback read the history to its end
    and found no commit to attribute, so that it had nothing to save. *)
Fixpoint lastSuccessful (repoId : Z) (log : list (Z * Outcome)) : option Strategy :=
  match log with
  | [] => None
  | (r, o) :: rest =>
      if r =? repoId then
        match o with
        | Saved via => Some via
        | FallbackEmpty => Some Fallback
        | _ => lastSuccessful repoId rest
        end
      else lastSuccessful repoId rest
  end.

(** *** Notions used to state the properties of the worker *)

(** The data type each strategy passes to [saveContributorsToDB]. *)
Definition strategyDataType (via : Strategy) : DataType :=
  match via with
  | Primary => all_time
  | Fallback => recent
  end.

(** The fetched members of a contributor array: the elements the insert
    loop does not skip. *)
Definition members (cs : list (option Contributor)) : list Contributor :=
  List.filter (λ c, truthyString (login c)) (omap (λ c, c) cs).

(** The commit nodes the paging loop reads, page after page. *)
Fixpoint fetchedNodes (up : Upstream) (fullName : string) (pagesLeft : nat)
    (cursor : option string) (hasNext : bool) : list (option User) :=
  match pagesLeft with
  | O => []
  | S pagesLeft' =>
      if hasNext then
        match historyQuery up {| request_fullName := fullName; first := 100;
                                 after := cursor |} with
        | GraphQLData (Some h) =>
            history_nodes h
            ++ fetchedNodes up fullName pagesLeft' (endCursor (pageInfo h))
                 (hasNextPage (pageInfo h))
        | _ => []
        end
      else []
  end.

(** The commits attributed to a login: nodes with a user of that login and
    a database id that is neither null nor 0. *)
Definition attributedTo (l : string) (node : option User) : bool :=
  match node with
  | Some u => truthyZ (user_databaseId u) && String.eqb (user_login u) l
  | None => false
  end.

Definition commitsBy (l : string) (nodes : list (option User)) : Z :=
  Z.of_nat (length (List.filter (attributedTo l) nodes)).

(** The array a successful call saved, by strategy. *)
Definition fetchedContributors (up : Upstream) (fullName : string) (via : Strategy)
    : list (option Contributor) :=
  match via with
  | Primary =>
      match contributorsEndpoint up fullName with
      | FetchResponse r =>
          match body r with
          | JsonArray items => items
          | _ => []
          end
      | FetchError _ => []
      end
  | Fallback =>
      match (pageThrough up fullName maxPages None true []).1 with
      | PagingDone m => map tallyContributor (topContributors m)
      | _ => []
      end
  end.

(** The count the accumulator holds for a login (0 when absent). *)
Definition tallyOf (l : string) (m : list Tally) : Z :=
  match List.find (λ t, String.eqb (tally_login t) l) m with
  | Some t => tally_contributions t
  | None => 0
  end.

(** Larger counts first. *)
Definition byContributions (a b : Tally) : Prop :=
  tally_contributions b <= tally_contributions a.

(** The accumulator's logins are distinct and its ids are truthy. *)
Definition tallyWellFormed (m : list Tally) : Prop :=
  NoDup (tally_login <$> m) ∧ Forall (λ t, tally_id t ≠ 0) m.

(** The week array a successful commit-activity call saved. *)
Definition fetchedWeeks (up : Upstream) (fullName : string) : list Week :=
  match commitActivityEndpoint up fullName with
  | FetchResponse r =>
      match body r with
      | WeeksArray ws => ws
      | _ => []
      end
  | FetchError _ => []
  end.

(** The fallback type each strategy passes to [saveContributorsToDB]. *)
Definition strategyFallbackType (via : Strategy) : option string :=
  match via with
  | Primary => None
  | Fallback => Some "User"
  end.

(** The data type the log calls for: [recent] exactly when the latest saved
    list of the repository came from the fallback. *)
Definition loggedDataType (repoId : Z) (log : list (Z * Outcome)) : DataType :=
  match lastSaved repoId log with
  | Some Fallback => recent
  | _ => all_time
  end.

End Worker.

(** ** Listing endpoint: GET /api/repos/top *)

Module Api.

Local Open Scope list_scope.
Local Open Scope Z_scope.

(** The sort key of a row. *)
Definition key (r : Store.RepoRow) : Z * Z := (Store.stars_count r, Store.id r).

(** The row comparison [(a, b) < (c, d)] of SQL: lexicographic. *)
Definition keyLt (k1 k2 : Z * Z) : Prop :=
  k1.1 < k2.1 ∨ (k1.1 = k2.1 ∧ k1.2 < k2.2).

#[global] Instance keyLt_dec : RelDecision keyLt.
Proof. intros k1 k2. unfold keyLt. apply _. Defined.

(** [ORDER BY r.stars_count DESC, r.id DESC]: [r1] is listed no later than
    [r2]. *)
Definition precedes (r1 r2 : Store.RepoRow) : Prop :=
  Store.stars_count r2 < Store.stars_count r1
  ∨ (Store.stars_count r2 = Store.stars_count r1 ∧ Store.id r2 <= Store.id r1).

#[global] Instance precedes_dec : RelDecision precedes.
Proof. intros r1 r2. unfold precedes. apply _. Defined.

(** [WHERE (r.stars_count, r.id) < ($1, $2)] *)
Definition belowCursor (cursor : Z * Z) (r : Store.RepoRow) : Prop :=
  keyLt (key r) cursor.

#[global] Instance belowCursor_dec cursor r : Decision (belowCursor cursor r).
Proof. unfold belowCursor. apply _. Defined.

(** A result row: the repository with the columns of its stats row, if any
    ([LEFT JOIN repository_stats]). *)
Definition Listed : Type := Store.RepoRow * option Store.StatsRow.

Inductive TopResponse :=
  | TopOk (data : list Listed) (nextCursor : option (Z * Z)) (hasMore : bool)
  | TopFailed.         (* status 500 *)

(** [Math.min(parseInt(req.query.limit) || 30, 300)]; the parameter is
    [None] when absent or not a number. *)
Definition effectiveLimit (limitParam : option Z) : Z :=
  Z.min (match limitParam with
         | Some 0 | None => 30
         | Some n => n
         end) 300.

(** The rows the [WHERE] clause keeps; the clause is added only when both
    cursor parameters are present. *)
Definition matching (db : Store.DB) (lastStars lastId : option Z) : list Store.RepoRow :=
  match lastStars, lastId with
  | Some s, Some i => filter (belowCursor (s, i)) (Store.repositories db)
  | _, _ => Store.repositories db
  end.

(** The rows the query selects, in order, before [LIMIT]. *)
Definition selected (db : Store.DB) (lastStars lastId : option Z) : list Store.RepoRow :=
  merge_sort precedes (matching db lastStars lastId).

(** The handler. A negative [LIMIT] makes the query fail. *)
Definition topRepos (db : Store.DB) (limitParam lastStars lastId : option Z)
    : TopResponse :=
  let limit := effectiveLimit limitParam in
  if limit <? 0 then TopFailed
  else
    let rows := take (Z.to_nat limit) (selected db lastStars lastId) in
    let hasMore := Z.of_nat (length rows) =? limit in
    TopOk
      (map (λ r, (r, Store.repository_stats db !! Store.id r)) rows)
      (if hasMore then key <$> last rows else None)
      hasMore.

End Api.

(** ** Sample stores and upstream answers *)

Module SampleStore.

Import GitHub.

Local Open Scope string_scope.
Local Open Scope list_scope.
Local Open Scope Z_scope.

(** The scenario repository as a later fetch reports it: renamed homepage,
    another licence, forking disabled, more stars. *)
Definition changed_repo : GitHubRepo := {|
  databaseId := databaseId Sample.scenario_repo;
  name := name Sample.scenario_repo;
  nameWithOwner := nameWithOwner Sample.scenario_repo;
  owner := owner Sample.scenario_repo;
  description := description Sample.scenario_repo;
  url := url Sample.scenario_repo;
  homepageUrl := Some "https://react.example.org";
  stargazerCount := 1200;
  forkCount := forkCount Sample.scenario_repo;
  watchers := watchers Sample.scenario_repo;
  issues := issues Sample.scenario_repo;
  diskUsage := diskUsage Sample.scenario_repo;
  primaryLanguage := primaryLanguage Sample.scenario_repo;
  repositoryTopics := repositoryTopics Sample.scenario_repo;
  languages := languages Sample.scenario_repo;
  licenseInfo := Some {| licenseInfo_name := "Apache License 2.0";
                         licenseInfo_key := "apache-2.0" |};
  createdAt := createdAt Sample.scenario_repo;
  updatedAt := updatedAt Sample.scenario_repo;
  pushedAt := pushedAt Sample.scenario_repo;
  isFork := false;
  isArchived := false;
  isDisabled := false;
  forkingAllowed := false;
  isTemplate := false;
  visibility := visibility Sample.scenario_repo;
  hasIssuesEnabled := true;
  hasProjectsEnabled := true;
  hasDownloads := false;
  hasWikiEnabled := true;
  hasPages := true;
  hasDiscussionsEnabled := false;
  defaultBranchRef := defaultBranchRef Sample.scenario_repo;
  releases := releases Sample.scenario_repo
|}.

Definition page : list GitHubRepo := [Sample.scenario_repo; Sample.quiet_repo].

(** The store after the page was saved once into the empty schema. *)
Definition saved : Store.DB :=
  (Sync.batchSaveRepositories Sample.scenario_now page Store.empty).2.

(** The store after the page was persisted once (rows and stats). *)
Definition synced : Store.DB :=
  (Sync.persistPage Sample.scenario_now page Store.empty).2.

End SampleStore.

Module SampleUpstream.

Import Worker.

Local Open Scope string_scope.
Local Open Scope list_scope.
Local Open Scope Z_scope.

Definition alice : User := {|
  user_databaseId := Some 7;
  user_login := "alice";
  user_avatarUrl := "https://avatars/u/7";
  user_htmlUrl := "https://github.com/alice"
|}.

Definition bob : User := {|
  user_databaseId := Some 11;
  user_login := "bob";
  user_avatarUrl := "https://avatars/u/11";
  user_htmlUrl := "https://github.com/bob"
|}.

(** Two pages of history: three commits by alice, two by bob, one without
    a user. *)
Definition firstPage : History := {|
  history_nodes := [Some alice; Some bob; None; Some alice];
  pageInfo := {| endCursor := Some "cursor-1"; hasNextPage := true |}
|}.

Definition secondPage : History := {|
  history_nodes := [Some bob; Some alice];
  pageInfo := {| endCursor := Some "cursor-2"; hasNextPage := false |}
|}.

(** A page whose commits have no user. *)
Definition anonymousPage : History := {|
  history_nodes := [None; None];
  pageInfo := {| endCursor := Some "cursor-1"; hasNextPage := false |}
|}.

Definition tooLarge : Response ContributorsJson := {|
  status := 403;
  statusText := "Forbidden";
  body := JsonObject
            (Some "The history or contributor list is too large to list contributors for this repository via the API.")
|}.

(** The same status with another message. *)
Definition rateLimited : Response ContributorsJson := {|
  status := 403;
  statusText := "Forbidden";
  body := JsonObject (Some "API rate limit exceeded for user ID 1.")
|}.

Definition carol : Contributor := {|
  id := Some 21;
  databaseId := None;
  login := Some "carol";
  avatar_url := Some "https://avatars/u/21";
  avatarUrl := None;
  html_url := Some "https://github.com/carol";
  htmlUrl := None;
  contributions := 40;
  type := Some "User"
|}.

Definition dependabot : Contributor := {|
  id := Some 22;
  databaseId := None;
  login := Some "dependabot[bot]";
  avatar_url := Some "https://avatars/u/22";
  avatarUrl := None;
  html_url := Some "https://github.com/apps/dependabot";
  htmlUrl := None;
  contributions := 15;
  type := Some "Bot"
|}.

Definition weeks : Response ActivityJson := {|
  status := 200;
  statusText := "OK";
  body := WeeksArray [ {| week := 1758412800; total := 12 |};
                       {| week := 1759017600; total := 3 |} ]
|}.

(** A repository the contributors endpoint serves. *)
Definition small : Upstream := {|
  contributorsEndpoint := λ _,
    FetchResponse {| status := 200; statusText := "OK";
                     body := JsonArray [Some carol; Some dependabot] |};
  commitActivityEndpoint := λ _, FetchResponse weeks;
  historyQuery := λ _, GraphQLData None
|}.

(** A repository too large for the contributors endpoint. *)
Definition large : Upstream := {|
  contributorsEndpoint := λ _, FetchResponse tooLarge;
  commitActivityEndpoint := λ _, FetchResponse weeks;
  historyQuery := λ q,
    match after q with
    | None => GraphQLData (Some firstPage)
    | Some _ => GraphQLData (Some secondPage)
    end
|}.

(** Too large, and no commit of the history has a user. *)
Definition largeAnonymous : Upstream := {|
  contributorsEndpoint := λ _, FetchResponse tooLarge;
  commitActivityEndpoint := λ _, FetchResponse weeks;
  historyQuery := λ _, GraphQLData (Some anonymousPage)
|}.

(** Status 403 for another reason. *)
Definition limited : Upstream := {|
  contributorsEndpoint := λ _, FetchResponse rateLimited;
  commitActivityEndpoint := λ _, FetchResponse weeks;
  historyQuery := λ q,
    match after q with
    | None => GraphQLData (Some firstPage)
    | Some _ => GraphQLData (Some secondPage)
    end
|}.

(** A stats row as [calculateAndSaveStats] first inserts it. *)
Definition freshStats : Store.StatsRow := {|
  Store.commits_last_year := 16000;
  Store.days_since_last_commit := Some 3;
  Store.days_since_last_release := None;
  Store.latest_release_tag := None;
  Store.latest_release_date := None;
  Store.total_releases := 0;
  Store.activity_score := 0%R;
  Store.health_score := 85;
  Store.contributors_data_type := "all_time";
  Store.calculated_at := Sample.scenario_now
|}.

(** The saved page with a stats row for the first repository and an old
    contributor of it. *)
Definition enriched : Store.DB :=
  Store.set_contributors
    {[ (1, 99) := {| Store.c_login := "old-timer";
                     Store.c_avatar_url := None;
                     Store.c_html_url := None;
                     Store.c_contributions := 500;
                     Store.c_type := Some "User";
                     Store.c_fetched_at := 0 |} ]}
    (Store.set_stats {[ 1 := freshStats ]} SampleStore.saved).

Definition refreshLarge : Refresh := {|
  refresh_upstream := large;
  refresh_now := Sample.scenario_now + 60000;
  refresh_repoId := 1;
  refresh_fullName := "facebook/react"
|}.

Definition refreshSmall : Refresh := {|
  refresh_upstream := small;
  refresh_now := Sample.scenario_now + 120000;
  refresh_repoId := 1;
  refresh_fullName := "facebook/react"
|}.

(** A later call for the same repository, by then too large, whose history
    has no commit with a user. *)
Definition refreshAnonymous : Refresh := {|
  refresh_upstream := largeAnonymous;
  refresh_now := Sample.scenario_now + 180000;
  refresh_repoId := 1;
  refresh_fullName := "facebook/react"
|}.

End SampleUpstream.

Module SampleListing.

Local Open Scope string_scope.
Local Open Scope list_scope.
Local Open Scope Z_scope.

(** A stored row with the given id and star count; the other columns are
    those of the scenario repository. *)
Definition row (i stars : Z) : Store.RepoRow :=
  Sync.doUpdateSet 0
    (Sync.excluded 0 i
       {| GitHub.databaseId := 1000 + i;
          GitHub.name := GitHub.name Sample.scenario_repo;
          GitHub.nameWithOwner := GitHub.nameWithOwner Sample.scenario_repo;
          GitHub.owner := GitHub.owner Sample.scenario_repo;
          GitHub.description := None;
          GitHub.url := GitHub.url Sample.scenario_repo;
          GitHub.homepageUrl := None;
          GitHub.stargazerCount := stars;
          GitHub.forkCount := 0;
          GitHub.watchers := None;
          GitHub.issues := None;
          GitHub.diskUsage := None;
          GitHub.primaryLanguage := None;
          GitHub.repositoryTopics := None;
          GitHub.languages := None;
          GitHub.licenseInfo := None;
          GitHub.createdAt := 0;
          GitHub.updatedAt := 0;
          GitHub.pushedAt := None;
          GitHub.isFork := false;
          GitHub.isArchived := false;
          GitHub.isDisabled := false;
          GitHub.forkingAllowed := true;
          GitHub.isTemplate := false;
          GitHub.visibility := "PUBLIC";
          GitHub.hasIssuesEnabled := true;
          GitHub.hasProjectsEnabled := true;
          GitHub.hasDownloads := true;
          GitHub.hasWikiEnabled := true;
          GitHub.hasPages := false;
          GitHub.hasDiscussionsEnabled := false;
          GitHub.defaultBranchRef := None;
          GitHub.releases := None |})
    (Sync.excluded 0 i Sample.scenario_repo).

(** Five repositories, four of them tied on 500 stars. *)
Definition tied : Store.DB :=
  Store.set_repositories
    [row 1 500; row 2 900; row 3 500; row 4 500; row 5 500] 6 Store.empty.

(** The rows of a response. *)
Definition dataOf (response : Api.TopResponse) : list Api.Listed :=
  match response with
  | Api.TopOk data _ _ => data
  | Api.TopFailed => []
  end.

(** The first page of two, and the page its cursor (500, 5) leads to. *)
Definition firstPage : Api.TopResponse := Api.topRepos tied (Some 2) None None.

Definition secondPage : Api.TopResponse :=
  Api.topRepos tied (Some 2) (Some 500) (Some 5).

End SampleListing.
(** ** The constraints of the [repositories] table (init.sql) *)

Module Schema.

Local Open Scope list_scope.
Local Open Scope Z_scope.

(** [id SERIAL PRIMARY KEY] *)
Definition primaryKey (db : Store.DB) : Prop :=
  NoDup (Store.id <$> Store.repositories db).

(** [github_id BIGINT UNIQUE] *)
Definition uniqueGithubId (db : Store.DB) : Prop :=
  NoDup (Store.github_id <$> Store.repositories db).

(** [full_name VARCHAR(500) UNIQUE] *)
Definition uniqueFullName (db : Store.DB) : Prop :=
  NoDup (Store.full_name <$> Store.repositories db).

(** [CONSTRAINT positive_stars], [CONSTRAINT positive_forks] *)
Definition positiveCounts (db : Store.DB) : Prop :=
  Forall (λ r, 0 <= Store.stars_count r ∧ 0 <= Store.forks_count r)
         (Store.repositories db).

(** The sequence behind [id] is ahead of every id it handed out. *)
Definition sequenceAhead (db : Store.DB) : Prop :=
  Forall (λ r, Store.id r < Store.repositories_id_seq db) (Store.repositories db).

Definition satisfied (db : Store.DB) : Prop :=
  primaryKey db ∧ uniqueGithubId db ∧ uniqueFullName db
  ∧ positiveCounts db ∧ sequenceAhead db.

(** The values of an [INTEGER] column. A statement that writes another
    number to such a column, or compares one with it through a parameter,
    fails. *)
Definition fitsInteger (z : Z) : bool :=
  (-2147483648 <=? z) && (z <=? 2147483647).

(** [id SERIAL]: the ids are [INTEGER]s. *)
Definition integerIds (db : Store.DB) : Prop :=
  Forall (λ r, fitsInteger (Store.id r) = true) (Store.repositories db).

End Schema.

(** ** Notions about what the sync service persists *)

Module Persisted.

Import GitHub.

Local Open Scope string_scope.
Local Open Scope list_scope.
Local Open Scope Z_scope.

(** The last snapshot of a page that carries a given upstream id decides
    what is stored; so does the last edge of a language list that carries a
    given language name. *)
Definition lastEdge (name : string) (es : list LanguageEdge) : option LanguageEdge :=
  last (List.filter (λ e, String.eqb (node_name e) name) es).

(** The row the insert of [batchSaveRepositories] writes for an edge. *)
Definition languageRow (l : Languages) (e : LanguageEdge) : Store.LanguageRow := {|
  Store.bytes_count := edge_size e;
  Store.percentage := Sync.languagePercentage l e
|}.

(** An edge the language table can hold: its name fits [VARCHAR(100)],
    its size the [INTEGER] column [bytes_count], and its share, which is
    computed when the total size is positive, the [DECIMAL(5,2)] column
    [percentage]. *)
Definition storableEdge (l : Languages) (e : LanguageEdge) : Prop :=
  (String.length (node_name e) <= 100)%nat
  ∧ Schema.fitsInteger (edge_size e) = true
  ∧ (0 < totalSize l -> 0 <= edge_size e <= totalSize l).

(** Every stats row of [db] is still there in [db'] with the same
    [contributors_data_type], and a stats row that [db'] has in addition
    carries the column default. *)
Definition KeepsDiscriminators (db db' : Store.DB) : Prop :=
  ∀ k,
    match Store.repository_stats db !! k with
    | Some old =>
        ∃ new, Store.repository_stats db' !! k = Some new
               ∧ Store.contributors_data_type new = Store.contributors_data_type old
    | None =>
        ∀ new, Store.repository_stats db' !! k = Some new ->
               Store.contributors_data_type new = "all_time"
    end.

End Persisted.

(** ** Sync service: the crawl of the search results

    [fetchTopReposWithCursor] loops until enough snapshots are fetched; a
    rate-limit or gateway error makes it wait and ask again, for as long as
    the upstream keeps failing. The upstream is a script: the answers the
    search endpoint gives to the successive requests, each with the clock
    reading of the iteration that receives it. The loop consumes one
    exchange per iteration; when the script ends before the loop does, the
    run is reported as still running. *)

Module Crawl.

Import GitHub.

Local Open Scope string_scope.
Local Open Scope list_scope.
Local Open Scope Z_scope.

Definition GITHUB_REQUEST_DELAY_MS : Z := 1000.

Definition batchSize : Z := 20.

(** The variables of the search query. *)
Record SearchRequest := {
  limit : Z;
  cursor : option string
}.

(** [data.search] of an answer. A node is [None] when it is null or has no
    [databaseId]; a node whose [databaseId] is 0 is as falsy. *)
Record Search := {
  search_nodes : list (option GitHubRepo);
  endCursor : option string;
  hasNextPage : bool
}.

(** What [graphqlClient.request] does for the search query: it throws an
    error, whose message may be absent, or yields data. *)
Inductive SearchResult :=
  | SearchThrew (message : option string)
  | SearchData (search : Search).

Record Exchange := {
  clock : Z;
  answer : SearchRequest -> SearchResult
}.

(** The value [fetchBatchWithCursor] resolves to. *)
Record Batch := {
  repos : list GitHubRepo;
  nextCursor : option string;
  hasNext : bool
}.

(** [repo?.databaseId] as the filter of [fetchBatchWithCursor] reads it *)
Definition withDatabaseId (node : option GitHubRepo) : option GitHubRepo :=
  match node with
  | Some repo => if databaseId repo =? 0 then None else Some repo
  | None => None
  end.

(** [fetchBatchWithCursor]; [inl] is the exception it lets through. *)
Definition fetchBatchWithCursor (x : Exchange) (limit : Z) (cursor : option string)
    : option string + Batch :=
  match answer x {| limit := limit; cursor := cursor |} with
  | SearchThrew message => inl message
  | SearchData s =>
      inr {| repos := omap withDatabaseId (search_nodes s);
             nextCursor := endCursor s;
             hasNext := hasNextPage s |}
  end.

(** [error.message?.includes(sub)] *)
Definition messageIncludes (sub : string) (message : option string) : bool :=
  match message with
  | Some s => Worker.includes sub s
  | None => false
  end.

Definition rateLimited (message : option string) : bool :=
  messageIncludes "rate limit" message.

Definition temporaryError (message : option string) : bool :=
  messageIncludes "502" message
  || messageIncludes "504" message
  || messageIncludes "Bad Gateway" message
  || messageIncludes "Premature close" message.

(** The wait, in milliseconds, before the loop asks again after an error;
    [None] when the error is rethrown. *)
Definition retryDelay (message : option string) : option Z :=
  if rateLimited message then Some 60000
  else if temporaryError message then Some 10000
  else None.

(** The double quote character. *)
Definition quote : string :=
  String (Ascii.Ascii false true false false false true false false) EmptyString.

(** The message of the error the database driver raises for a constraint
    violation, in PostgreSQL's wording. *)
Definition databaseMessage (e : Store.DbError) : string :=
  match e with
  | Store.UniqueViolation c =>
      "duplicate key value violates unique constraint " ++ quote ++ c ++ quote
  | Store.CheckViolation c =>
      "new row for relation " ++ quote ++ "repositories" ++ quote
      ++ " violates check constraint " ++ quote ++ c ++ quote
  | Store.NotNullViolation c =>
      "null value in column " ++ quote ++ c ++ quote
      ++ " violates not-null constraint"
  end.

(** What the loop does, in order. *)
Inductive Event :=
  | Request (r : SearchRequest)
  | Sleep (ms : Z).

Inductive SyncError :=
  | SearchFailed (message : option string)
  | SaveFailed (e : Store.DbError).

Definition errorMessage (e : SyncError) : option string :=
  match e with
  | SearchFailed message => message
  | SaveFailed e => Some (databaseMessage e)
  end.

Inductive Ending :=
  | Finished                 (* the loop was left; the promise resolves *)
  | Threw (e : SyncError)    (* the promise is rejected *)
  | StillRunning.            (* the script ended before the loop did *)

Record Run := {
  ending : Ending;
  store : Store.DB;
  fetchedTotal : Z;
  events : list Event
}.

Definition after (done : list Event) (run : Run) : Run := {|
  ending := ending run;
  store := store run;
  fetchedTotal := fetchedTotal run;
  events := done ++ events run
|}.

(** The [while] loop of [fetchTopReposWithCursor], entered with the values
    of its variables [cursor] and [fetchedTotal]. *)
Fixpoint fetchLoop (totalLimit : Z) (script : list Exchange)
    (cursor : option string) (fetchedTotal : Z) (db : Store.DB) : Run :=
  if fetchedTotal <? totalLimit then
    match script with
    | [] => {| ending := StillRunning; store := db;
               fetchedTotal := fetchedTotal; events := [] |}
    | x :: rest =>
        let remaining := Z.min batchSize (totalLimit - fetchedTotal) in
        let req := {| limit := remaining; cursor := cursor |} in
        let caught (e : SyncError) (db' : Store.DB) : Run :=
          match retryDelay (errorMessage e) with
          | Some ms =>
              after [Request req; Sleep ms]
                (fetchLoop totalLimit rest cursor fetchedTotal db')
          | None =>
              {| ending := Threw e; store := db';
                 fetchedTotal := fetchedTotal; events := [Request req] |}
          end in
        match fetchBatchWithCursor x remaining cursor with
        | inl message => caught (SearchFailed message) db
        | inr batch =>
            match Sync.persistPage (clock x) (repos batch) db with
            | (Sync.Rejected e, db1) => caught (SaveFailed e) db1
            | (Sync.Resolved, db1) =>
                let fetchedTotal' := fetchedTotal + Z.of_nat (length (repos batch)) in
                if negb (hasNext batch) || (Z.of_nat (length (repos batch)) <? remaining)
                then {| ending := Finished; store := db1;
                        fetchedTotal := fetchedTotal'; events := [Request req] |}
                else
                  after [Request req; Sleep GITHUB_REQUEST_DELAY_MS]
                    (fetchLoop totalLimit rest (nextCursor batch) fetchedTotal' db1)
            end
        end
    end
  else {| ending := Finished; store := db;
          fetchedTotal := fetchedTotal; events := [] |}.

Definition fetchTopReposWithCursor (totalLimit : Z) (script : list Exchange)
    (db : Store.DB) : Run :=
  fetchLoop totalLimit script None 0 db.

Definition syncQuick (script : list Exchange) (db : Store.DB) : Run :=
  fetchTopReposWithCursor 300 script db.

Definition syncComprehensive (script : list Exchange) (db : Store.DB) : Run :=
  fetchTopReposWithCursor 1000 script db.

(** *** Notions used to state the properties of the crawl *)

(** What one iteration of the loop does with the exchange it receives:
    it ends the run, or goes on with new values of the loop variables. *)
Inductive Next :=
  | Stop (run : Run)
  | Continue (done : list Event) (cursor : option string) (fetchedTotal : Z)
      (db : Store.DB).

Definition iteration (totalLimit : Z) (x : Exchange) (cursor : option string)
    (fetchedTotal : Z) (db : Store.DB) : Next :=
  let remaining := Z.min batchSize (totalLimit - fetchedTotal) in
  let req := {| limit := remaining; cursor := cursor |} in
  let caught (e : SyncError) (db' : Store.DB) : Next :=
    match retryDelay (errorMessage e) with
    | Some ms => Continue [Request req; Sleep ms] cursor fetchedTotal db'
    | None =>
        Stop {| ending := Threw e; store := db';
                fetchedTotal := fetchedTotal; events := [Request req] |}
    end in
  match fetchBatchWithCursor x remaining cursor with
  | inl message => caught (SearchFailed message) db
  | inr batch =>
      match Sync.persistPage (clock x) (repos batch) db with
      | (Sync.Rejected e, db1) => caught (SaveFailed e) db1
      | (Sync.Resolved, db1) =>
          let fetchedTotal' := fetchedTotal + Z.of_nat (length (repos batch)) in
          if negb (hasNext batch) || (Z.of_nat (length (repos batch)) <? remaining)
          then Stop {| ending := Finished; store := db1;
                       fetchedTotal := fetchedTotal'; events := [Request req] |}
          else Continue [Request req; Sleep GITHUB_REQUEST_DELAY_MS]
                 (nextCursor batch) fetchedTotal' db1
      end
  end.

Definition requestsOf (es : list Event) : list SearchRequest :=
  omap (λ e, match e with Request r => Some r | Sleep _ => None end) es.

(** Every request but the last is followed by a wait of at least
    [minimum] milliseconds. *)
Fixpoint paced (minimum : Z) (es : list Event) : bool :=
  match es with
  | [] => true
  | [Request _] => true
  | Request _ :: Sleep ms :: rest => (minimum <=? ms) && paced minimum rest
  | _ => false
  end.

(** An exchange whose answer never carries more nodes than were asked
    for ([first: $limit]). *)
Definition honoursLimit (x : Exchange) : Prop :=
  ∀ req, 0 <= limit req ->
         match answer x req with
         | SearchData s => Z.of_nat (length (search_nodes s)) <= limit req
         | SearchThrew _ => True
         end.

(** An exchange that fails with an error the loop retries, whatever is
    asked. *)
Definition transient (x : Exchange) : Prop :=
  ∀ req, ∃ message, answer x req = SearchThrew message
                    ∧ is_Some (retryDelay message).

(** The rows a page finds stored are still stored after it, with their
    columns outside the conflict clause untouched. *)
Definition KeepsRows (db db' : Store.DB) : Prop :=
  ∀ old, Sync.conflicting (Store.github_id old) (Store.repositories db) = Some old ->
  ∃ r, Sync.conflicting (Store.github_id old) (Store.repositories db') = Some r
       ∧ Sync.keepsFromExisting old r.

End Crawl.
(** ** Enrichment worker: the jobs over all repositories *)

Module Jobs.

Import Worker.

Local Open Scope string_scope.
Local Open Scope list_scope.
Local Open Scope Z_scope.

(** The rows of [SELECT id, full_name FROM repositories WHERE id = $1], or
    of [SELECT id, full_name FROM repositories LIMIT 300] when
    [repositoryId] is falsy (absent or 0). Without an [ORDER BY] the rows
    come in the order of the table scan, here the order of the list. *)
Definition targets (repositoryId : option Z) (db : Store.DB) : list Store.RepoRow :=
  match repositoryId with
  | Some i =>
      if i =? 0 then take 300 (Store.repositories db)
      else filter (λ r, Store.id r = i) (Store.repositories db)
  | None => take 300 (Store.repositories db)
  end.

(** The call of [fetchAndSaveContributors] for one row; [clock] gives the
    reading of [NOW()] during the call for a repository. *)
Definition contributorsCall (up : Upstream) (clock : Z -> Z) (r : Store.RepoRow)
    : Refresh := {|
  refresh_upstream := up;
  refresh_now := clock (Store.id r);
  refresh_repoId := Store.id r;
  refresh_fullName := Store.full_name r
|}.

(** [updateContributors]: one call per row, in order; an exception of a
    call is logged and the loop goes on. The result pairs the store with
    the outcomes, latest first. *)
Definition updateContributors (up : Upstream) (clock : Z -> Z)
    (repositoryId : option Z) (db : Store.DB) : Store.DB * list (Z * Outcome) :=
  refreshAll (contributorsCall up clock <$> targets repositoryId db) db [].

(** The loop of [updateCommitActivity]. *)
Fixpoint activityAll (up : Upstream) (clock : Z -> Z) (rows : list Store.RepoRow)
    (db : Store.DB) (log : list (Z * ActivityOutcome))
    : Store.DB * list (Z * ActivityOutcome) :=
  match rows with
  | [] => (db, log)
  | r :: rest =>
      let (o, db') :=
        fetchAndSaveCommitActivity up (clock (Store.id r)) (Store.id r)
          (Store.full_name r) db in
      activityAll up clock rest db' ((Store.id r, o) :: log)
  end.

Definition updateCommitActivity (up : Upstream) (clock : Z -> Z)
    (repositoryId : option Z) (db : Store.DB)
    : Store.DB * list (Z * ActivityOutcome) :=
  activityAll up clock (targets repositoryId db) db [].

(** [runAllJobs]: the contributors job, then the commit-activity job. *)
Definition runAllJobs (up : Upstream) (clock clock' : Z -> Z) (db : Store.DB)
    : Store.DB * list (Z * Outcome) * list (Z * ActivityOutcome) :=
  let (db1, contributorsLog) := updateContributors up clock None db in
  let (db2, activityLog) := updateCommitActivity up clock' None db1 in
  (db2, contributorsLog, activityLog).

(** *** Notions used to state the properties of the jobs *)

(** Two stats rows that differ at most in [contributors_data_type]. *)
Definition sameButDataType (a b : option Store.StatsRow) : Prop :=
  a = b ∨ ∃ dataType, a = setDataType dataType <$> b.

(** The first and the last member of a contributor array with a given
    upstream id. *)
Definition firstWithId (g : Z) (cs : list Contributor) : option Contributor :=
  List.find (λ c, bool_decide (contributorKey c = Some g)) cs.

Definition lastWithId (g : Z) (cs : list Contributor) : option Contributor :=
  last (List.filter (λ c, bool_decide (contributorKey c = Some g)) cs).

(** The row an id ends with: the profile of the first element that
    carried it, the count of the last. *)
Definition mergedRow (now : Z) (fallbackType : option string) (first last : Contributor)
    : Store.ContributorRow :=
  contributorConflictUpdate now (contributorRow now fallbackType last)
    (contributorRow now fallbackType first).

End Jobs.
(** ** The other endpoints of the API *)

Module Endpoints.

Local Open Scope string_scope.
Local Open Scope list_scope.
Local Open Scope Z_scope.

(** How a handler answers: [res.json(a)], or a status with an error
    object. *)
Inductive Reply (A : Type) :=
  | Ok (a : A)
  | BadRequest       (* status 400 *)
  | NotFound         (* status 404 *)
  | Failed.          (* status 500 *)

Arguments Ok {A} _.
Arguments BadRequest {A}.
Arguments NotFound {A}.
Arguments Failed {A}.

(** The rows of a table keyed by [(repository_id, k)] that belong to one
    repository, in the order of the scan. *)
Definition rowsOf {K V} `{Countable K} (repoId : Z) (m : gmap (Z * K) V)
    : list (K * V) :=
  omap (λ kv, if decide (kv.1.1 = repoId) then Some (kv.1.2, kv.2) else None)
       (map_to_list m).

(** *** GET /api/repos/:id/contributors *)

(** [SELECT login, avatar_url, html_url, contributions] *)
Record ContributorItem := {
  item_login : string;
  item_avatar_url : option string;
  item_html_url : option string;
  item_contributions : Z
}.

Definition contributorItem (row : Store.ContributorRow) : ContributorItem := {|
  item_login := Store.c_login row;
  item_avatar_url := Store.c_avatar_url row;
  item_html_url := Store.c_html_url row;
  item_contributions := Store.c_contributions row
|}.

(** [ORDER BY contributions DESC]: [a] is listed no later than [b]. *)
Definition moreContributions (a b : Z * Store.ContributorRow) : Prop :=
  Store.c_contributions b.2 <= Store.c_contributions a.2.

#[global] Instance moreContributions_dec : RelDecision moreContributions.
Proof. intros a b. unfold moreContributions. apply _. Defined.

(** The rows the query selects, before the projection. *)
Definition topContributorRows (db : Store.DB) (repoId : Z)
    : list (Z * Store.ContributorRow) :=
  take 30 (merge_sort moreContributions
             (rowsOf repoId (Store.repository_contributors db))).

(** The handler; [idParam] is [None] when [parseInt(req.params.id)] is not
    a number. The parameter is compared with the [INTEGER] column
    [repository_id]: the query rejects what is not a number, and a number
    outside the range of the column. *)
Definition getContributors (db : Store.DB) (idParam : option Z)
    : Reply (list ContributorItem) :=
  match idParam with
  | None => Failed
  | Some repoId =>
      if Schema.fitsInteger repoId
      then Ok (contributorItem ∘ snd <$> topContributorRows db repoId)
      else Failed
  end.

(** *** GET /api/repos/:id/commit-activity *)

(** [SELECT week_date, total_commits] *)
Record WeekItem := {
  item_week_date : Z;
  item_total_commits : Z
}.

Definition weekItem (row : Store.ActivityRow) : WeekItem := {|
  item_week_date := Store.week_date row;
  item_total_commits := Store.total_commits row
|}.

(** [ORDER BY week_date ASC] *)
Definition earlierWeek (a b : Z * Store.ActivityRow) : Prop :=
  Store.week_date a.2 <= Store.week_date b.2.

#[global] Instance earlierWeek_dec : RelDecision earlierWeek.
Proof. intros a b. unfold earlierWeek. apply _. Defined.

Definition activityRows (db : Store.DB) (repoId : Z) : list (Z * Store.ActivityRow) :=
  merge_sort earlierWeek (rowsOf repoId (Store.repository_commit_activity db)).

Definition getCommitActivity (db : Store.DB) (idParam : option Z)
    : Reply (list WeekItem) :=
  match idParam with
  | None => Failed
  | Some repoId =>
      if Schema.fitsInteger repoId
      then Ok (weekItem ∘ snd <$> activityRows db repoId)
      else Failed
  end.

(** A week as the upstream reports it: it starts at a UTC midnight
    between the years 1970 and 9999, and its total fits the [INTEGER]
    column [total_commits]. Weeks that start at different midnights have
    different values of [week_date], in the same order. *)
Definition wellFormedWeek (w : Worker.Week) : Prop :=
  Worker.week w `mod` 86400 = 0
  ∧ 0 <= Worker.week w < 253402300800
  ∧ Schema.fitsInteger (Worker.total w) = true.

(** *** GET /api/repos/:id/details *)

(** [SELECT language_name, bytes_count, percentage] *)
Record LanguageItem := {
  item_language_name : string;
  item_bytes_count : Z;
  item_percentage : Q
}.

Definition languageItem (kv : string * Store.LanguageRow) : LanguageItem := {|
  item_language_name := kv.1;
  item_bytes_count := Store.bytes_count kv.2;
  item_percentage := Store.percentage kv.2
|}.

(** [ORDER BY percentage DESC] *)
Definition largerShare (a b : string * Store.LanguageRow) : Prop :=
  Qle_bool (Store.percentage b.2) (Store.percentage a.2) = true.

#[global] Instance largerShare_dec : RelDecision largerShare.
Proof. intros a b. unfold largerShare. apply _. Defined.

(** The repository with the columns of its stats row, if any, and its
    languages. *)
Record Details := {
  details_repository : Api.Listed;
  details_languages : list LanguageItem
}.

(** The handler; the id is compared with the [INTEGER] column [id], as in
    [getContributors]. *)
Definition getDetails (db : Store.DB) (idParam : option Z) : Reply Details :=
  match idParam with
  | None => Failed
  | Some repoId =>
      if Schema.fitsInteger repoId then
        match List.find (λ r, Store.id r =? repoId) (Store.repositories db) with
        | None => NotFound
        | Some r =>
            Ok {| details_repository := (r, Store.repository_stats db !! Store.id r);
                  details_languages :=
                    languageItem
                      <$> merge_sort largerShare
                            (rowsOf repoId (Store.repository_languages db)) |}
        end
      else Failed
  end.

(** *** GET /api/repos/search *)

(** [fullNameParam] is [req.query.full_name]; an absent or empty parameter
    is falsy. [LIMIT 1] keeps the first matching row. *)
Definition search (db : Store.DB) (fullNameParam : option string) : Reply Api.Listed :=
  if Worker.truthyString fullNameParam then
    match List.find (λ r, String.eqb (Store.full_name r) (default "" fullNameParam))
            (Store.repositories db) with
    | None => NotFound
    | Some r => Ok (r, Store.repository_stats db !! Store.id r)
    end
  else BadRequest.

(** *** GET /api/stats *)

Record Totals := {
  totalRepositories : Z;
  totalStars : Z
}.

(** The row count and [SUM(stars_count)]; the sum over no row is null, which
    [parseInt(...) || 0] turns into 0. *)
Definition getStats (db : Store.DB) : Totals := {|
  totalRepositories := Z.of_nat (length (Store.repositories db));
  totalStars := foldr Z.add 0 (Store.stars_count <$> Store.repositories db)
|}.

(** *** GET /api/repos/top: the cursor as the handler reads it *)

(** A cursor parameter of the query string,
    [req.query.x ? parseInt(req.query.x) : null]: absent or empty, a text
    [parseInt] reads a number from, or another text, which gives [NaN]. *)
Inductive CursorParam :=
  | Absent
  | Number (n : Z)
  | NotANumber.

Definition number (p : CursorParam) : option Z :=
  match p with
  | Number n => Some n
  | _ => None
  end.

(** The handler in front of its query. The [WHERE] clause is added when
    neither cursor is null; its parameters are compared with the [INTEGER]
    columns [stars_count] and [id], so that [NaN], or a number outside the
    range of the columns, makes the query fail. *)
Definition getTop (db : Store.DB) (limitParam : option Z)
    (lastStars lastId : CursorParam) : Api.TopResponse :=
  match lastStars, lastId with
  | Absent, _ | _, Absent => Api.topRepos db limitParam None None
  | Number s, Number i =>
      if Schema.fitsInteger s && Schema.fitsInteger i
      then Api.topRepos db limitParam (Some s) (Some i)
      else Api.TopFailed
  | _, _ => Api.TopFailed
  end.

(** The requests the handler answers with status 500. *)
Definition rejected (limitParam : option Z) (lastStars lastId : CursorParam) : Prop :=
  (∃ n, limitParam = Some n ∧ n < 0)
  ∨ (lastStars ≠ Absent ∧ lastId ≠ Absent
     ∧ ¬ ∃ s i, lastStars = Number s ∧ lastId = Number i
                ∧ Schema.fitsInteger s = true ∧ Schema.fitsInteger i = true).

(** *** A client that follows the cursors of GET /api/repos/top *)

(** A result row of the listing. *)
Definition listed (db : Store.DB) (r : Store.RepoRow) : Api.Listed :=
  (r, Store.repository_stats db !! Store.id r).

(** The pages fetched one after the other, each with the cursor the
    previous answer returned, until an answer has no cursor; [None] when a
    request fails or [fuel] requests were not enough. *)
Fixpoint followCursors (fuel : nat) (db : Store.DB) (limitParam : option Z)
    (lastStars lastId : option Z) : option (list Api.Listed) :=
  match fuel with
  | O => None
  | S fuel' =>
      match Api.topRepos db limitParam lastStars lastId with
      | Api.TopFailed => None
      | Api.TopOk data None _ => Some data
      | Api.TopOk data (Some (s, i)) _ =>
          (data ++.) <$> followCursors fuel' db limitParam (Some s) (Some i)
      end
  end.

End Endpoints.
(** ** The pages of the frontend: activity labels *)

Module Pages.

Local Open Scope string_scope.
Local Open Scope Z_scope.

(** The object both [getActivityLevel] functions return. *)
Record Level := {
  label : string;
  color : string
}.

Definition unknown : Level := {| label := "Unknown"; color := "text-gray-400" |}.

(** The chain of tests on a day count that both functions share. *)
Definition byDays (days : Z) : Level :=
  if days <=? 7 then {| label := "Very Active"; color := "text-green-400" |}
  else if days <=? 30 then {| label := "Active"; color := "text-blue-400" |}
  else if days <=? 90 then {| label := "Moderate"; color := "text-yellow-400" |}
  else if days <=? 365 then {| label := "Low Activity"; color := "text-orange-400" |}
  else {| label := "Inactive"; color := "text-red-400" |}.

Module RepositoryDetail.

(** [getActivityLevel] of the detail page: unknown when [days] is null or
    undefined. *)
Definition getActivityLevel (days : option Z) : Level :=
  match days with
  | None => unknown
  | Some d => byDays d
  end.

End RepositoryDetail.

Module RepositoryList.

(** [getActivityLevel] of the list page: unknown when [days] is falsy,
    that is null, undefined or 0. *)
Definition getActivityLevel (days : option Z) : Level :=
  match days with
  | None => unknown
  | Some d => if d =? 0 then unknown else byDays d
  end.

End RepositoryList.

(** The term the health score adds for the day count that a label
    stands for. *)
Definition labelTerm (l : Level) : Z :=
  if String.eqb (label l) "Very Active" then 30
  else if String.eqb (label l) "Active" then 20
  else if String.eqb (label l) "Moderate" then 10
  else if String.eqb (label l) "Inactive" then -20
  else 0.

End Pages.
(** ** Sample search answers *)

Module SampleCrawl.

Import GitHub Crawl.

Local Open Scope string_scope.
Local Open Scope list_scope.
Local Open Scope Z_scope.

(** A snapshot under another upstream id. *)
Definition renumbered (i : Z) (repo : GitHubRepo) : GitHubRepo := {|
  databaseId := i;
  name := name repo;
  nameWithOwner := nameWithOwner repo;
  owner := owner repo;
  description := description repo;
  url := url repo;
  homepageUrl := homepageUrl repo;
  stargazerCount := stargazerCount repo;
  forkCount := forkCount repo;
  watchers := watchers repo;
  issues := issues repo;
  diskUsage := diskUsage repo;
  primaryLanguage := primaryLanguage repo;
  repositoryTopics := repositoryTopics repo;
  languages := languages repo;
  licenseInfo := licenseInfo repo;
  createdAt := createdAt repo;
  updatedAt := updatedAt repo;
  pushedAt := pushedAt repo;
  isFork := isFork repo;
  isArchived := isArchived repo;
  isDisabled := isDisabled repo;
  forkingAllowed := forkingAllowed repo;
  isTemplate := isTemplate repo;
  visibility := visibility repo;
  hasIssuesEnabled := hasIssuesEnabled repo;
  hasProjectsEnabled := hasProjectsEnabled repo;
  hasDownloads := hasDownloads repo;
  hasWikiEnabled := hasWikiEnabled repo;
  hasPages := hasPages repo;
  hasDiscussionsEnabled := hasDiscussionsEnabled repo;
  defaultBranchRef := defaultBranchRef repo;
  releases := releases repo
|}.

(** A page on which two upstream ids claim the same full name. *)
Definition clashing : list GitHubRepo :=
  [Sample.scenario_repo; renumbered 7 Sample.scenario_repo].

(** The search results: the two sample repositories around a null node. *)
Definition results : list (option GitHubRepo) :=
  [Some Sample.scenario_repo; None; Some Sample.quiet_repo].

(** An exchange that serves the first [limit] results and announces more. *)
Definition serving : Exchange := {|
  clock := Sample.scenario_now;
  answer := λ req,
    SearchData {| search_nodes := take (Z.to_nat (limit req)) results;
                  endCursor := Some "Y3Vyc29yOjM=";
                  hasNextPage := true |}
|}.

(** An exchange that fails on the rate limit. *)
Definition throttled : Exchange := {|
  clock := Sample.scenario_now - 60000;
  answer := λ _, SearchThrew (Some "API rate limit exceeded for user ID 1.")
|}.

(** An exchange that serves the clashing page. *)
Definition servingClash : Exchange := {|
  clock := Sample.scenario_now;
  answer := λ _,
    SearchData {| search_nodes := Some <$> clashing;
                  endCursor := Some "Y3Vyc29yOjI=";
                  hasNextPage := true |}
|}.

End SampleCrawl.

(** ** Sample answers for the worker jobs *)

Module SampleJobs.

Import Worker.

Local Open Scope string_scope.
Local Open Scope list_scope.
Local Open Scope Z_scope.

(** The account of alice under the login it had before a rename. *)
Definition aliceBefore : User := {|
  user_databaseId := Some 7;
  user_login := "alice-old";
  user_avatarUrl := "https://avatars/u/7";
  user_htmlUrl := "https://github.com/alice-old"
|}.

(** A history with two commits of alice under her login, one under the
    old login, and one of bob. *)
Definition renamedPage : History := {|
  history_nodes := [Some SampleUpstream.alice; Some aliceBefore;
                    Some SampleUpstream.alice; Some SampleUpstream.bob];
  pageInfo := {| endCursor := Some "cursor-1"; hasNextPage := false |}
|}.

Definition renamed : Upstream := {|
  contributorsEndpoint := λ _, FetchResponse SampleUpstream.tooLarge;
  commitActivityEndpoint := λ _, FetchResponse SampleUpstream.weeks;
  historyQuery := λ _, GraphQLData (Some renamedPage)
|}.

(** An element with a login and no id. *)
Definition ghost : Contributor := {|
  id := None;
  databaseId := None;
  login := Some "ghost";
  avatar_url := None;
  avatarUrl := None;
  html_url := None;
  htmlUrl := None;
  contributions := 3;
  type := Some "User"
|}.

Definition listWithGhost : Response ContributorsJson := {|
  status := 200;
  statusText := "OK";
  body := JsonArray [Some SampleUpstream.carol; Some ghost]
|}.

Definition haunted : Upstream := {|
  contributorsEndpoint := λ _, FetchResponse listWithGhost;
  commitActivityEndpoint := λ _, FetchResponse SampleUpstream.weeks;
  historyQuery := λ _, GraphQLData None
|}.

(** An upstream that serves the first repository and fails for the
    others. *)
Definition partial : Upstream := {|
  contributorsEndpoint := λ fullName,
    if String.eqb fullName "facebook/react"
    then contributorsEndpoint SampleUpstream.small fullName
    else FetchError "socket hang up";
  commitActivityEndpoint := λ _, FetchResponse SampleUpstream.weeks;
  historyQuery := λ _, GraphQLData None
|}.

Definition clock (repoId : Z) : Z := Sample.scenario_now + 1000 * repoId.

End SampleJobs.

(** * Properties *)

(** ** Score calculator *)

Section ScoreProperties.

Import GitHub Score.

Local Open Scope Z_scope.

Ltac case_Z_tests :=
  repeat match goal with
         | |- context [(?a >? ?b)%Z] => rewrite (Z.gtb_ltb a b)
         | |- context [(?a <=? ?b)%Z] => destruct (Z.leb_spec a b)
         | |- context [(?a <? ?b)%Z] => destruct (Z.ltb_spec a b)
         end.

(** C1. The computed health score is the specification's: 50, plus
    30/20/10 for days <= 7/30/90, minus 20 for days > 365, nothing for
    90 < days <= 365 or null days, plus 10 for a latest release at most 90
    days old, plus 5 for enabled issues with an open issue, plus 5 for
    enabled discussions, clamped to [0,100], and 0 whenever the repository
    is archived or disabled. *)
Theorem health_score_matches_spec (now : Z) (repo : GitHubRepo) (days : option Z) :
  calculateSimpleHealthScore now repo days
  = health_spec days (releaseAge now repo) (hasIssuesEnabled repo)
      (orZero (issues repo)) (hasDiscussionsEnabled repo)
      (isArchived repo) (isDisabled repo)
  /\ 0 <= calculateSimpleHealthScore now repo days <= 100
  /\ (isArchived repo = true \/ isDisabled repo = true ->
      calculateSimpleHealthScore now repo days = 0).
Proof.
  unfold calculateSimpleHealthScore, health_spec, health_recency, releaseAge, clamp.
  destruct (latestRelease repo) as [rel|], days as [d|];
    destruct (isArchived repo), (isDisabled repo),
      (hasIssuesEnabled repo), (hasDiscussionsEnabled repo); cbn [orb andb];
    case_Z_tests; cbn [andb]; repeat split; intros; try lia;
    try (intuition discriminate).
Qed.

Local Open Scope R_scope.

Lemma Math_round_eq (z : Z) (x : R) :
  IZR z - / 2 <= x < IZR z + / 2 -> Math_round x = IZR z.
Proof.
  intros Hx. unfold Math_round. f_equal. apply Zfloor_eq. lra.
Qed.

Lemma round2_Math_round (x : R) : round2 x = Math_round (x * 100) / 100.
Proof. reflexivity. Qed.

Lemma ln_10_pos : 0 < ln 10.
Proof. rewrite <- ln_1. apply ln_increasing; lra. Qed.

Lemma log10_1 : log10 1 = 0.
Proof. unfold log10. rewrite ln_1. unfold Rdiv. apply Rmult_0_l. Qed.

(** *** The activity score in binary64 *)

Lemma float_mul_comm (x y : float) : (x * y)%float = (y * x)%float.
Proof.
  apply Prim2SF_inj. rewrite !mul_spec. unfold SF64mul, SFmul.
  destruct (Prim2SF x) as [sx|sx| |sx mx ex], (Prim2SF y) as [sy|sy| |sy my ey];
    try reflexivity; rewrite ?(xorb_comm sx sy); try reflexivity.
  by rewrite Pos.mul_comm, Z.add_comm.
Qed.

(** C2, amended. Whatever [Math.log10] the runtime provides, the computed
    activity score is the formula 100 log10(stars+1) + 50 log10(forks+1)
    + recency bonus + 0.5 min(open issues, 100) evaluated in binary64, the
    terms added from left to right to a sum that starts at 0: the bonus is
    200, 100 or 50 for days <= 7, 30 or 90, nothing is added for
    90 < days <= 365 or null days, for days > 365 the score accumulated
    before the issue term is halved, and the result is
    [Math.round(score * 100) / 100]. *)
Theorem activity_score_in_binary64
    (log10 : float -> float) (repo : GitHubRepo) (days : option Z) :
  Binary64.calculateSimpleActivityScore log10 repo days
  = Binary64.activity_spec log10 (stargazerCount repo) (forkCount repo)
      (orZero (issues repo)) days.
Proof.
  unfold Binary64.calculateSimpleActivityScore, Binary64.activity_spec,
    Binary64.round2, Binary64.popularity, Binary64.issueTerm.
  rewrite (float_mul_comm 100), (float_mul_comm 50), (float_mul_comm 0.5).
  destruct days as [d|]; [|reflexivity].
  unfold Binary64.recency_bonus. case_Z_tests; try lia; reflexivity.
Qed.

(** *** The scenario of the specification *)

Lemma scenario_days :
  daysSinceCommit Sample.scenario_now Sample.scenario_repo = Some 3%Z.
Proof. reflexivity. Qed.

Lemma scenario_popularity :
  log10 (IZR (1000 + 1)) * 100 + log10 (IZR (200 + 1)) * 50
  = 50 * (ln 201402201 / ln 10).
Proof.
  unfold log10.
  replace 201402201 with (1001 * 1001 * 201)
    by (rewrite <- !mult_IZR; reflexivity).
  rewrite !ln_mult by lra.
  change (1000 + 1)%Z with 1001%Z. change (200 + 1)%Z with 201%Z.
  pose proof ln_10_pos. field. lra.
Qed.

Lemma ln_pow_lt (a b : Z) (n m : nat) :
  (0 < a)%Z -> (0 < b)%Z ->
  (a ^ Z.of_nat n < b ^ Z.of_nat m)%Z ->
  INR n * ln (IZR a) < INR m * ln (IZR b).
Proof.
  intros Ha Hb Hlt.
  rewrite <- !ln_pow by (apply IZR_lt; assumption).
  apply ln_increasing.
  - apply pow_lt. apply IZR_lt. assumption.
  - rewrite !pow_IZR. apply IZR_lt. assumption.
Qed.

Lemma scenario_log_bounds :
  847 / 102 < ln 201402201 / ln 10 < 1420 / 171.
Proof.
  pose proof ln_10_pos as H10.
  assert (Hup : INR 171 * ln 201402201 < INR 1420 * ln 10).
  { apply ln_pow_lt; [lia | lia | vm_compute; reflexivity]. }
  assert (Hlo : INR 847 * ln 10 < INR 102 * ln 201402201).
  { apply ln_pow_lt; [lia | lia | vm_compute; reflexivity]. }
  rewrite !INR_IZR_INZ in Hup, Hlo.
  change (Z.of_nat 171) with 171%Z in Hup.
  change (Z.of_nat 1420) with 1420%Z in Hup.
  change (Z.of_nat 847) with 847%Z in Hlo.
  change (Z.of_nat 102) with 102%Z in Hlo.
  set (t := ln 201402201 / ln 10).
  assert (E : ln 201402201 = t * ln 10) by (unfold t; field; lra).
  rewrite E in Hup, Hlo.
  split; (apply Rmult_lt_reg_r with (ln 10); [lra|]); lra.
Qed.

Lemma scenario_activity_value :
  calculateSimpleActivityScore Sample.scenario_repo (Some 3%Z) = 620.2.
Proof.
  unfold calculateSimpleActivityScore.
  rewrite (Math_round_eq 62020).
  - lra.
  - unfold activityAccumulated. cbn [Sample.scenario_repo stargazerCount forkCount issues orZero].
    cbn [Z.leb Z.compare Pos.compare Pos.compare_cont].
    rewrite Rplus_0_l, scenario_popularity.
    replace (IZR (10 `min` 100)) with 10 by reflexivity.
    pose proof scenario_log_bounds. lra.
Qed.

Lemma scenario_health_value :
  calculateSimpleHealthScore Sample.scenario_now Sample.scenario_repo (Some 3%Z)
  = 85%Z.
Proof. reflexivity. Qed.

(** C3, as stated, fails on both counts: on the scenario input the health
    score is not 80 (the enabled issues with ten open issues add 5), and
    the activity score is not within a cent of 505.07. *)
Lemma scenario_scores_counterexample :
  calculateSimpleHealthScore Sample.scenario_now Sample.scenario_repo
    (daysSinceCommit Sample.scenario_now Sample.scenario_repo) <> 80%Z
  /\ ~ Rabs (calculateSimpleActivityScore Sample.scenario_repo
               (daysSinceCommit Sample.scenario_now Sample.scenario_repo) - 505.07)
        <= 0.01.
Proof.
  rewrite scenario_days, scenario_health_value, scenario_activity_value.
  split; [discriminate|].
  rewrite Rabs_pos_eq by lra. lra.
Qed.

(** C3, amended. On the scenario input (1000 stars, 200 forks, 10 open
    issues, pushed 3 days ago, not archived, not disabled, no release,
    issues enabled, discussions disabled) the activity score is
    100 log10(1001) + 50 log10(201) + 200 + 5 rounded to two decimals, which
    is 620.20, and the health score is 50 + 30 + 5 = 85. *)
Theorem scenario_scores :
  calculateSimpleActivityScore Sample.scenario_repo
    (daysSinceCommit Sample.scenario_now Sample.scenario_repo)
  = round2 (100 * log10 1001 + 50 * log10 201 + 200 + 5)
  /\ calculateSimpleActivityScore Sample.scenario_repo
       (daysSinceCommit Sample.scenario_now Sample.scenario_repo)
     = 620.2
  /\ calculateSimpleHealthScore Sample.scenario_now Sample.scenario_repo
       (daysSinceCommit Sample.scenario_now Sample.scenario_repo)
     = (50 + 30 + 5)%Z.
Proof.
  rewrite scenario_days. split; [|split].
  - unfold calculateSimpleActivityScore. rewrite round2_Math_round.
    do 3 f_equal. unfold activityAccumulated.
    cbn [Sample.scenario_repo stargazerCount forkCount issues orZero].
    cbn [Z.leb Z.compare Pos.compare Pos.compare_cont].
    replace (IZR (10 `min` 100)) with 10 by reflexivity.
    change (1000 + 1)%Z with 1001%Z. change (200 + 1)%Z with 201%Z.
    lra.
  - apply scenario_activity_value.
  - apply scenario_health_value.
Qed.

(** *** Where binary64 and exact arithmetic part *)

Lemma pow_lt_by_computation (a n b m : Z) :
  BigZ.BigZ.ltb (BigZ.BigZ.pow (BigZ.BigZ.of_Z a) (BigZ.BigZ.of_Z n))
                (BigZ.BigZ.pow (BigZ.BigZ.of_Z b) (BigZ.BigZ.of_Z m)) = true ->
  (a ^ n < b ^ m)%Z.
Proof.
  rewrite BigZ.BigZ.spec_ltb, !BigZ.BigZ.spec_pow, !BigZ.BigZ.spec_of_Z.
  apply Z.ltb_lt.
Qed.

Lemma ln_pow_lt_Z (a b n m : Z) :
  (0 < a)%Z -> (0 < b)%Z -> (0 <= n)%Z -> (0 <= m)%Z ->
  (a ^ n < b ^ m)%Z ->
  IZR n * ln (IZR a) < IZR m * ln (IZR b).
Proof.
  intros Ha Hb Hn Hm Hlt.
  pose proof (ln_pow_lt a b (Z.to_nat n) (Z.to_nat m) Ha Hb) as H.
  rewrite !INR_IZR_INZ, !Z2Nat.id in H by assumption. by apply H.
Qed.

Lemma popular_popularity :
  100 * log10 (IZR (205042 + 1)) + 50 * log10 (IZR (12122 + 1))
  = 50 * (ln 509682825905427 / ln 10).
Proof.
  unfold log10.
  replace 509682825905427 with (205043 * 205043 * 12123)
    by (rewrite <- !mult_IZR; reflexivity).
  rewrite !ln_mult by lra.
  change (205042 + 1)%Z with 205043%Z. change (12122 + 1)%Z with 12123%Z.
  pose proof ln_10_pos. field. lra.
Qed.

(** 14.7071 < log10 (205043^2 * 12123) < 14.7073; the upper bound is
    missed by less than 10^-15. *)
Lemma popular_log_bounds :
  147071 / 10000 < ln 509682825905427 / ln 10 < 147073 / 10000.
Proof.
  pose proof ln_10_pos as H10.
  assert (Hup : 10000 * ln 509682825905427 < 147073 * ln 10).
  { apply ln_pow_lt_Z; [lia | lia | lia | lia |].
    apply pow_lt_by_computation. vm_compute. reflexivity. }
  assert (Hlo : 147071 * ln 10 < 10000 * ln 509682825905427).
  { apply ln_pow_lt_Z; [lia | lia | lia | lia |].
    apply pow_lt_by_computation. vm_compute. reflexivity. }
  set (t := ln 509682825905427 / ln 10).
  assert (E : ln 509682825905427 = t * ln 10) by (unfold t; field; lra).
  rewrite E in Hup, Hlo.
  split; (apply Rmult_lt_reg_r with (ln 10); [lra|]); lra.
Qed.

Lemma popular_exact_value :
  activity_spec (stargazerCount SampleRuntime.popular_repo)
    (forkCount SampleRuntime.popular_repo)
    (orZero (issues SampleRuntime.popular_repo)) None
  = 735.36.
Proof.
  unfold activity_spec. rewrite round2_Math_round.
  cbn [SampleRuntime.popular_repo stargazerCount forkCount issues orZero].
  rewrite popular_popularity.
  replace (IZR (0 `min` 100)) with 0 by reflexivity.
  rewrite (Math_round_eq 73536); [lra|].
  pose proof popular_log_bounds. lra.
Qed.

Lemma popular_binary64_value :
  Binary64.calculateSimpleActivityScore SampleRuntime.log10
    SampleRuntime.popular_repo None
  = 0x1.6faf5c28f5c29p+9%float.
Proof. vm_compute. reflexivity. Qed.

(** C2, as stated, fails. For a repository with 205042 stars, 12122 forks,
    no open issue and a null day count, the formula is worth
    735.36499999999997..., which rounds to 735.36. In binary64 the two
    terms add up to the value nearest to 735.365, whose product with 100
    is 73536.5, and the code returns the binary64 value of 735.37. *)
Lemma activity_rounding_counterexample :
  Rabs (Binary64.toR
          (Binary64.calculateSimpleActivityScore SampleRuntime.log10
             SampleRuntime.popular_repo None) - 735.37) < / 1000000000000
  /\ activity_spec (stargazerCount SampleRuntime.popular_repo)
       (forkCount SampleRuntime.popular_repo)
       (orZero (issues SampleRuntime.popular_repo)) None
     = 735.36.
Proof.
  split; [|exact popular_exact_value].
  rewrite popular_binary64_value. unfold Binary64.toR.
  change (Prim2SF 0x1.6faf5c28f5c29p+9%float)
    with (S754_finite false 6468382925741097 (-43)).
  cbn [Z.leb Z.compare].
  change (cond_Zopp false 6468382925741097) with 6468382925741097%Z.
  change (2 ^ (- -43))%Z with 8796093022208%Z.
  apply Rabs_def1; lra.
Qed.

(** *** Halving of stale repositories *)

Lemma quiet_accumulated (d : Z) :
  (90 < d)%Z -> activityAccumulated Sample.quiet_repo (Some d) = 5.
Proof.
  intros Hd. unfold activityAccumulated.
  cbn [Sample.quiet_repo stargazerCount forkCount issues orZero].
  change (0 + 1)%Z with 1%Z. rewrite log10_1.
  replace (IZR (10 `min` 100)) with 10 by reflexivity.
  case_Z_tests; try lia; lra.
Qed.

Lemma quiet_activity_value (d : Z) :
  (90 < d)%Z -> calculateSimpleActivityScore Sample.quiet_repo (Some d) = 5.
Proof.
  intros Hd. unfold calculateSimpleActivityScore.
  rewrite (quiet_accumulated d Hd), (Math_round_eq 500); lra.
Qed.

(** The same values in binary64, for every runtime whose [Math.log10]
    gives 0 at 1, as the language requires. *)
Lemma quiet_binary64_value (log10 : float -> float) (d : Z) :
  log10 1%float = 0%float ->
  (90 < d)%Z ->
  Binary64.calculateSimpleActivityScore log10 Sample.quiet_repo (Some d) = 5%float.
Proof.
  intros Hone Hd. unfold Binary64.calculateSimpleActivityScore.
  cbn [Sample.quiet_repo stargazerCount forkCount issues orZero].
  change (Binary64.ofZ 0 + 1)%float with 1%float. rewrite Hone.
  case_Z_tests; try lia; vm_compute; reflexivity.
Qed.

(** C4, as stated, fails: for a repository without stars and forks but
    with ten open issues, the score at 400 days is 5, which is not half of
    the score at 100 days (also 5): the issue term is added after the
    halving. *)
Lemma stale_half_counterexample :
  calculateSimpleActivityScore Sample.quiet_repo (Some 400%Z)
  <> calculateSimpleActivityScore Sample.quiet_repo (Some 100%Z) / 2.
Proof.
  rewrite !quiet_activity_value by lia. lra.
Qed.

(** C4, amended. For two inputs that differ only in the day count, one
    with days > 365 and one on which no recency term acts (null days or
    90 < days <= 365), the stale score is the rounding of P * 0.5 + I and
    the other score the rounding of P + I, with the same
    P = 100 log10(stars+1) + 50 log10(forks+1) and the same
    I = 0.5 min(open issues, 100), in binary64 for every [Math.log10]: the
    halving acts on the score accumulated before the open-issue term, not
    on the whole score. *)
Theorem stale_score_halves_popularity
    (log10 : float -> float) (repo : GitHubRepo) (stale : Z) (other : option Z) :
  (365 < stale)%Z ->
  noRecencyTerm other ->
  let P := Binary64.popularity log10 (stargazerCount repo) (forkCount repo) in
  let I := Binary64.issueTerm (orZero (issues repo)) in
  Binary64.calculateSimpleActivityScore log10 repo (Some stale)
  = Binary64.round2 (P * 0.5 + I)%float
  /\ Binary64.calculateSimpleActivityScore log10 repo other
     = Binary64.round2 (P + I)%float.
Proof.
  intros Hstale Hother. cbn zeta.
  unfold Binary64.calculateSimpleActivityScore, Binary64.round2,
    Binary64.popularity, Binary64.issueTerm.
  rewrite (float_mul_comm 100), (float_mul_comm 50), (float_mul_comm 0.5).
  destruct other as [d|]; cbn [noRecencyTerm] in Hother;
    case_Z_tests; try lia; split; reflexivity.
Qed.

(** The theorem at the scenario repository, 400 against 100 days, with the
    sample runtime: 212.6 against 420.2. *)
Lemma stale_score_halves_popularity_witness :
  (365 < 400)%Z
  /\ noRecencyTerm (Some 100%Z)
  /\ Binary64.calculateSimpleActivityScore SampleRuntime.log10
       Sample.scenario_repo (Some 400%Z)
     = 0x1.a933333333333p+7%float
  /\ Binary64.calculateSimpleActivityScore SampleRuntime.log10
       Sample.scenario_repo (Some 100%Z)
     = 0x1.a433333333333p+8%float.
Proof.
  assert (Hstale : (365 < 400)%Z) by lia.
  assert (Hother : noRecencyTerm (Some 100%Z)) by (cbn; lia).
  split; [exact Hstale|]. split; [exact Hother|].
  destruct (stale_score_halves_popularity SampleRuntime.log10
              Sample.scenario_repo 400 (Some 100%Z) Hstale Hother) as [-> ->].
  split; vm_compute; reflexivity.
Defined.

End ScoreProperties.

(** ** Sync service *)

Ltac store_simpl :=
  cbn [Store.repositories Store.repositories_id_seq Store.repository_languages
       Store.repository_stats Store.repository_contributors
       Store.repository_commit_activity Store.set_repositories
       Store.set_languages Store.set_stats Store.set_contributors
       Store.set_commit_activity Store.rollback fst snd] in *.

Section SyncProperties.

Import GitHub.

Local Open Scope Z_scope.

(** *** One upsert *)

Import Sync.

Lemma updateConflicting_touch now i repo rows :
  updateConflicting now (excluded now i repo) rows = map (touch now repo) rows.
Proof. reflexivity. Qed.

Lemma github_id_touch now repo r : Store.github_id (touch now repo r) = Store.github_id r.
Proof. unfold touch. destruct (_ =? _); reflexivity. Qed.

Lemma id_touch now repo r : Store.id (touch now repo r) = Store.id r.
Proof. unfold touch. destruct (_ =? _); reflexivity. Qed.

Lemma conflicting_None g rows :
  conflicting g rows = None <-> Forall (λ r, Store.github_id r ≠ g) rows.
Proof.
  unfold conflicting. induction rows as [|r rows IH]; simpl.
  - split; [constructor | reflexivity].
  - destruct (Z.eqb_spec (Store.github_id r) g) as [E|E].
    + split; [discriminate|]. intros H. inversion H; subst. contradiction.
    + rewrite IH. split; [by constructor | by inversion 1].
Qed.

Lemma conflicting_Some g rows r :
  conflicting g rows = Some r -> r ∈ rows /\ Store.github_id r = g.
Proof.
  unfold conflicting. intros H. apply find_some in H as [Hin Hg].
  split; [by apply list_elem_of_In | by apply Z.eqb_eq].
Qed.

Lemma conflicting_app g rows added :
  conflicting g (rows ++ added)
  = match conflicting g rows with
    | Some r => Some r
    | None => conflicting g added
    end.
Proof.
  unfold conflicting. induction rows as [|r rows IH]; simpl; [done|].
  destruct (_ =? _); done.
Qed.

Lemma conflicting_map g (f : Store.RepoRow -> Store.RepoRow) rows :
  (∀ r, Store.github_id (f r) = Store.github_id r) ->
  conflicting g (map f rows) = f <$> conflicting g rows.
Proof.
  intros Hf. unfold conflicting. induction rows as [|r rows IH]; simpl; [done|].
  rewrite Hf. destruct (_ =? _); done.
Qed.

(** The three ways an upsert can end. *)
Lemma upsertRepository_cases now repo db :
  let rows := Store.repositories db in
  let seq := Store.repositories_id_seq db in
  (∃ e, upsertRepository now repo db = (inl e, Store.set_repositories rows (seq + 1) db)
        ∧ (checkConstraints (excluded now seq repo) = Some e
           ∨ conflicting (databaseId repo) rows = None))
  ∨ (∃ existing,
        checkConstraints (excluded now seq repo) = None
        ∧ conflicting (databaseId repo) rows = Some existing
        ∧ upsertRepository now repo db
          = (inr (Store.id existing),
             Store.set_repositories (map (touch now repo) rows) (seq + 1) db))
  ∨ (checkConstraints (excluded now seq repo) = None
     ∧ conflicting (databaseId repo) rows = None
     ∧ upsertRepository now repo db
       = (inr seq,
          Store.set_repositories (rows ++ [excluded now seq repo]) (seq + 1) db)).
Proof.
  cbn zeta. unfold upsertRepository.
  destruct (checkConstraints _) as [e|] eqn:Hc; [left; eauto|].
  change (Store.github_id (excluded now (Store.repositories_id_seq db) repo))
    with (databaseId repo).
  destruct (conflicting _ _) as [existing|] eqn:Hf.
  - right; left. exists existing. by rewrite updateConflicting_touch.
  - destruct (existsb _ _); [left; eauto | right; right; done].
Qed.

Lemma checkConstraints_excluded now now' i j repo :
  checkConstraints (excluded now i repo) = checkConstraints (excluded now' j repo).
Proof. reflexivity. Qed.

(** *** The last snapshot of a page *)

Lemma lastSnapshot_cons x repos g :
  lastSnapshot (x :: repos) g
  = match lastSnapshot repos g with
    | Some a => Some a
    | None => if databaseId x =? g then Some x else None
    end.
Proof.
  unfold lastSnapshot. simpl. destruct (databaseId x =? g).
  - by rewrite last_cons.
  - by destruct (last _).
Qed.

Lemma lastSnapshot_Some repos g a :
  lastSnapshot repos g = Some a -> a ∈ repos /\ databaseId a = g.
Proof.
  unfold lastSnapshot. intros H. apply last_Some_elem_of in H.
  apply list_elem_of_In, filter_In in H as [Hin Hg].
  split; [by apply list_elem_of_In | by apply Z.eqb_eq].
Qed.


Lemma resynced_nil now r : resynced now [] r = r.
Proof. reflexivity. Qed.

Lemma resynced_cons now x repos r :
  resynced now (x :: repos) r = resynced now repos (touch now x r).
Proof.
  unfold resynced. rewrite github_id_touch, lastSnapshot_cons.
  destruct (lastSnapshot repos _) as [a|].
  - unfold touch. destruct (_ =? _); reflexivity.
  - unfold touch. rewrite (Z.eqb_sym (databaseId x)). destruct (_ =? _); reflexivity.
Qed.

Lemma github_id_resynced now repos r :
  Store.github_id (resynced now repos r) = Store.github_id r.
Proof. unfold resynced. destruct (lastSnapshot _ _); reflexivity. Qed.

Lemma id_resynced now repos r : Store.id (resynced now repos r) = Store.id r.
Proof. unfold resynced. destruct (lastSnapshot _ _); reflexivity. Qed.

Lemma resynced_resynced now now' repos r :
  resynced now' repos (resynced now repos r) = resynced now' repos r.
Proof.
  unfold resynced at 1 3. rewrite github_id_resynced. unfold resynced.
  destruct (lastSnapshot _ _); reflexivity.
Qed.

Lemma Settled_cons now x repos r : Settled now repos r -> Settled now (x :: repos) r.
Proof.
  intros (a & Ha & Hfix). exists a. split; [|done].
  by rewrite lastSnapshot_cons, Ha.
Qed.

Lemma Settled_resynced now repos r : Settled now repos r -> resynced now repos r = r.
Proof. intros (a & Ha & Hfix). unfold resynced. by rewrite Ha. Qed.

(** *** The loop of [batchSaveRepositories] *)

(** A successful run updates the stored rows by the last snapshot of their
    id and appends rows that are settled. *)
Lemma saveEach_rows now repos : ∀ db db1,
  saveEach now repos db = (Resolved, db1) ->
  ∃ added,
    Store.repositories db1 = map (resynced now repos) (Store.repositories db) ++ added
    ∧ Forall (Settled now repos) added.
Proof.
  induction repos as [|x repos IH]; intros db db1 Hrun; simpl in Hrun.
  - inversion Hrun; subst. exists []. split; [|constructor].
    rewrite app_nil_r. rewrite <- (map_id (Store.repositories db1)) at 1.
    apply map_ext. intros r. by rewrite resynced_nil.
  - destruct (upsertRepository_cases now x db)
      as [(e & Hu & _) | [(existing & Hc & Hf & Hu) | (Hc & Hf & Hu)]];
      rewrite Hu in Hrun; [discriminate| |].
    + apply IH in Hrun as (added & Hrows & Hadded). store_simpl.
      exists added. split; [|by eapply Forall_impl; [|apply Settled_cons]].
      rewrite Hrows, map_map. f_equal. apply map_ext. intros r.
      by rewrite resynced_cons.
    + apply IH in Hrun as (added & Hrows & Hadded). store_simpl.
      set (ex := excluded now (Store.repositories_id_seq db) x) in *.
      exists (resynced now repos ex :: added). split.
      * rewrite Hrows, map_app, <- app_assoc. simpl. f_equal.
        apply conflicting_None in Hf. apply map_ext_Forall.
        eapply Forall_impl; [exact Hf|]. intros r Hr. cbn beta in Hr.
        rewrite resynced_cons. unfold touch.
        destruct (Z.eqb_spec (Store.github_id r) (databaseId x)); done.
      * constructor; [|by eapply Forall_impl; [|apply Settled_cons]].
        unfold resynced, Settled.
        change (Store.github_id ex) with (databaseId x).
        destruct (lastSnapshot repos (databaseId x)) as [b|] eqn:Hb.
        -- exists b. split; [|reflexivity].
           change (Store.github_id (resyncWith now b ex)) with (databaseId x).
           by rewrite lastSnapshot_cons, Hb.
        -- exists x. split; [|reflexivity].
           change (Store.github_id ex) with (databaseId x).
           by rewrite lastSnapshot_cons, Hb, Z.eqb_refl.
Qed.

Lemma saveEach_fixed now repos db db1 r :
  saveEach now repos db = (Resolved, db1) ->
  r ∈ Store.repositories db1 -> resynced now repos r = r.
Proof.
  intros Hrun Hr. apply saveEach_rows in Hrun as (added & Hrows & Hadded).
  rewrite Hrows in Hr. apply elem_of_app in Hr as [Hr|Hr].
  - apply list_elem_of_fmap in Hr as (r0 & -> & _). apply resynced_resynced.
  - apply Settled_resynced. by eapply Forall_forall in Hadded.
Qed.

Lemma saveEach_conflicting now repos db db1 g r :
  saveEach now repos db = (Resolved, db1) ->
  conflicting g (Store.repositories db) = Some r ->
  conflicting g (Store.repositories db1) = Some (resynced now repos r).
Proof.
  intros Hrun Hr. apply saveEach_rows in Hrun as (added & Hrows & _).
  rewrite Hrows, conflicting_app, conflicting_map, Hr; [done|].
  apply github_id_resynced.
Qed.

Lemma saveEach_frame now repos : ∀ db c db1,
  saveEach now repos db = (c, db1) ->
  Store.repository_stats db1 = Store.repository_stats db
  ∧ Store.repository_contributors db1 = Store.repository_contributors db
  ∧ Store.repository_commit_activity db1 = Store.repository_commit_activity db.
Proof.
  induction repos as [|x repos IH]; intros db c db1 Hrun; simpl in Hrun.
  - by inversion Hrun.
  - destruct (upsertRepository_cases now x db)
      as [(e & Hu & _) | [(existing & Hc & Hf & Hu) | (Hc & Hf & Hu)]];
      rewrite Hu in Hrun.
    + by inversion Hrun.
    + by apply IH in Hrun.
    + by apply IH in Hrun.
Qed.

Lemma saveEach_checks now repos : ∀ db db1,
  saveEach now repos db = (Resolved, db1) ->
  ∀ repo now' i, repo ∈ repos -> checkConstraints (excluded now' i repo) = None.
Proof.
  induction repos as [|x repos IH]; intros db db1 Hrun repo now' i Hin.
  - by apply elem_of_nil in Hin.
  - simpl in Hrun.
    destruct (upsertRepository_cases now x db)
      as [(e & Hu & _) | [(existing & Hc & Hf & Hu) | (Hc & Hf & Hu)]];
      rewrite Hu in Hrun; [discriminate| |];
      (apply elem_of_cons in Hin as [->|Hin]; [exact Hc | by eapply IH]).
Qed.

Lemma saveEach_present now repos : ∀ db db1,
  saveEach now repos db = (Resolved, db1) ->
  ∀ repo, repo ∈ repos ->
  is_Some (conflicting (databaseId repo) (Store.repositories db1)).
Proof.
  induction repos as [|x repos IH]; intros db db1 Hrun repo Hin.
  - by apply elem_of_nil in Hin.
  - simpl in Hrun.
    destruct (upsertRepository_cases now x db)
      as [(e & Hu & _) | [(existing & Hc & Hf & Hu) | (Hc & Hf & Hu)]];
      rewrite Hu in Hrun; [discriminate| |];
      (apply elem_of_cons in Hin as [->|Hin]; [|by eapply IH]).
    + eexists. eapply saveEach_conflicting; [exact Hrun|]. store_simpl.
      rewrite conflicting_map, Hf; [done|]. apply github_id_touch.
    + eexists. eapply saveEach_conflicting; [exact Hrun|]. store_simpl.
      rewrite conflicting_app, Hf. unfold conflicting. simpl.
      by rewrite Z.eqb_refl.
Qed.

(** When every snapshot of the page is already stored, the loop only
    updates. *)
Lemma saveEach_resync now repos : ∀ db,
  (∀ repo, repo ∈ repos ->
     checkConstraints (excluded now 0 repo) = None
     ∧ is_Some (conflicting (databaseId repo) (Store.repositories db))) ->
  ∃ db1, saveEach now repos db = (Resolved, db1)
         ∧ Store.repositories db1 = map (resynced now repos) (Store.repositories db).
Proof.
  induction repos as [|x repos IH]; intros db Hall; simpl.
  - exists db. split; [done|].
    rewrite <- (map_id (Store.repositories db)) at 1.
    apply map_ext. intros r. by rewrite resynced_nil.
  - destruct (Hall x) as [Hcx [rx Hfx]]; [left|].
    destruct (upsertRepository_cases now x db)
      as [(e & Hu & [Hc|Hf]) | [(existing & Hc & Hf & Hu) | (Hc & Hf & Hu)]];
      try congruence.
    { rewrite (checkConstraints_excluded _ now _ 0) in Hc. congruence. }
    rewrite Hu.
    edestruct IH as (db1 & Hrun & Hrows); [|exists db1; split; [exact Hrun|]].
    + intros repo Hin. destruct (Hall repo) as [Hcr [rr Hfr]]; [by right|].
      split; [done|]. store_simpl. rewrite conflicting_map, Hfr; [by eexists|].
      apply github_id_touch.
    + rewrite Hrows. store_simpl. rewrite map_map. apply map_ext. intros r.
      by rewrite resynced_cons.
Qed.

(** The language table after a successful run: the language blocks replayed
    with the repository ids read from the final rows. *)
Lemma saveEach_languages now repos : ∀ db db1,
  saveEach now repos db = (Resolved, db1) ->
  Store.repository_languages db1
  = fold_left (languageStep (Store.repositories db1)) repos
      (Store.repository_languages db).
Proof.
  induction repos as [|x repos IH]; intros db db1 Hrun; simpl in Hrun.
  - by inversion Hrun.
  - simpl.
    assert (Hstep : ∀ rid db',
      (∃ rx, conflicting (databaseId x) (Store.repositories db') = Some rx
             ∧ Store.id rx = rid) ->
      saveEach now repos
        (Store.set_languages
           (saveLanguages rid x (Store.repository_languages db')) db')
      = (Resolved, db1) ->
      Store.repository_languages db1
      = fold_left (languageStep (Store.repositories db1)) repos
          (languageStep (Store.repositories db1)
             (Store.repository_languages db') x)).
    { intros rid db' (rx & Hrx & Hid) Hrest.
      pose proof (IH _ _ Hrest) as Hl. store_simpl. rewrite Hl. f_equal.
      unfold languageStep.
      erewrite (saveEach_conflicting _ _ _ _ _ rx Hrest) by exact Hrx.
      by rewrite id_resynced, Hid. }
    destruct (upsertRepository_cases now x db)
      as [(e & Hu & _) | [(existing & Hc & Hf & Hu) | (Hc & Hf & Hu)]];
      rewrite Hu in Hrun; [discriminate| |].
    + apply Hstep in Hrun; [exact Hrun|].
      exists (touch now x existing). store_simpl.
      rewrite conflicting_map, Hf; [|apply github_id_touch].
      split; [done | apply id_touch].
    + apply Hstep in Hrun; [exact Hrun|].
      eexists. store_simpl. rewrite conflicting_app, Hf. unfold conflicting. simpl.
      rewrite Z.eqb_refl. done.
Qed.

End SyncProperties.

(** *** Steps that overwrite: running a sequence twice *)

Section Absorption.

Context {A S : Type} (act : A -> S -> A).

(** Every step either changes nothing or makes the steps before it
    irrelevant. *)
Hypothesis neutral_or_absorbing :
  ∀ s, (∀ x, act x s = x) ∨ (∀ t x, act (act x t) s = act x s).

Lemma fold_left_last_absorbing (ss : list S) :
  (∀ x, fold_left act ss x = x)
  ∨ (∃ h, (∀ t x, act (act x t) h = act x h) ∧ ∀ x, fold_left act ss x = act x h).
Proof.
  induction ss as [|s ss IH] using rev_ind; [by left|].
  destruct (neutral_or_absorbing s) as [Hn|Ha].
  - destruct IH as [IH|(h & Hh & IH)]; [left|right; exists h; split; [done|]];
      intros x; by rewrite fold_left_app; simpl; rewrite Hn, IH.
  - right. exists s. split; [done|]. intros x. rewrite fold_left_app. simpl.
    destruct IH as [IH|(h & Hh & IH)]; rewrite IH; [done|apply Ha].
Qed.

Lemma fold_left_twice (ss : list S) (x : A) :
  fold_left act ss (fold_left act ss x) = fold_left act ss x.
Proof.
  destruct (fold_left_last_absorbing ss) as [H|(h & Hh & H)].
  - by rewrite !H.
  - rewrite !H. apply Hh.
Qed.

End Absorption.

Section MapAbsorption.

Context {K V S : Type} `{Countable K}.
Context (step : gmap K V -> S -> gmap K V).
Context (at_key : K -> option V -> S -> option V).

Hypothesis step_lookup : ∀ m s k, step m s !! k = at_key k (m !! k) s.

Hypothesis neutral_or_absorbing :
  ∀ k s, (∀ o, at_key k o s = o)
         ∨ (∀ t o, at_key k (at_key k o t) s = at_key k o s).

Lemma fold_left_step_lookup (ss : list S) : ∀ m k,
  fold_left step ss m !! k = fold_left (at_key k) ss (m !! k).
Proof.
  induction ss as [|s ss IH]; intros m k; simpl; [done|].
  by rewrite IH, step_lookup.
Qed.

Lemma fold_left_step_twice (ss : list S) (m : gmap K V) :
  fold_left step ss (fold_left step ss m) = fold_left step ss m.
Proof.
  apply map_eq. intros k. rewrite !fold_left_step_lookup.
  apply fold_left_twice. apply neutral_or_absorbing.
Qed.

End MapAbsorption.

Section SyncTables.

Import GitHub Sync.

Local Open Scope Z_scope.

Lemma deleteWhereRepository_lookup {K V} `{Countable K}
    (repoId : Z) (m : gmap (Z * K) V) (r : Z) (k : K) :
  Store.deleteWhereRepository repoId m !! (r, k)
  = if decide (r = repoId) then None else m !! (r, k).
Proof.
  unfold Store.deleteWhereRepository. rewrite map_lookup_filter.
  destruct (m !! (r, k)) as [v|]; simpl; [|by case_decide].
  case_guard; case_decide; simpl in *; congruence.
Qed.

(** *** Languages *)

Lemma insertLanguage_fold_lookup rid l es : ∀ m r n,
  fold_left (insertLanguage rid l) es m !! (r, n)
  = if decide (r = rid)
    then match fold_left (insertLanguage rid l) es ∅ !! (rid, n) with
         | Some v => Some v
         | None => m !! (r, n)
         end
    else m !! (r, n).
Proof.
  induction es as [|e es IH]; intros m r n; simpl.
  - rewrite lookup_empty. by case_decide.
  - rewrite IH. rewrite (IH (insertLanguage rid l ∅ e) rid n).
    unfold insertLanguage. case_decide as Hr; [subst r|].
    + rewrite decide_True by done.
      destruct (fold_left _ es ∅ !! (rid, n)); [done|].
      destruct (decide (node_name e = n)) as [->|Hn].
      * by rewrite !lookup_insert_eq.
      * rewrite !lookup_insert_ne by congruence. by rewrite lookup_empty.
    + rewrite lookup_insert_ne by congruence. done.
Qed.

Lemma languageStep_lookup rows m repo k :
  languageStep rows m repo !! k = languageAt rows k (m !! k) repo.
Proof.
  unfold languageStep, languageAt, languageWrite, saveLanguages.
  destruct (conflicting _ _) as [r|]; [|done].
  destruct (languages repo) as [l|]; [|done].
  destruct (edges l) as [|e es] eqn:He; [done|]. rewrite <- He. clear He.
  destruct k as [r' n]. rewrite insertLanguage_fold_lookup.
  rewrite deleteWhereRepository_lookup. cbn [fst].
  case_decide; [subst r'|done].
  by destruct (fold_left _ _ ∅ !! _).
Qed.

Lemma languageAt_neutral_or_absorbing rows k repo :
  (∀ o, languageAt rows k o repo = o)
  ∨ (∀ t o, languageAt rows k (languageAt rows k o t) repo = languageAt rows k o repo).
Proof.
  unfold languageAt. destruct (languageWrite rows repo k); [by right|by left].
Qed.

Lemma languageStep_ext rows rows' m repo :
  (∀ g, Store.id <$> conflicting g rows' = Store.id <$> conflicting g rows) ->
  languageStep rows' m repo = languageStep rows m repo.
Proof.
  intros Hids. unfold languageStep. specialize (Hids (databaseId repo)).
  destruct (conflicting _ rows'), (conflicting _ rows); simpl in Hids;
    congruence.
Qed.

(** *** Stats *)

Lemma statsEach_fold now repos rows : ∀ stats,
  statsEach now repos rows stats = fold_left (statsStep now rows) repos stats.
Proof.
  induction repos as [|x repos IH]; intros stats; simpl; [done|].
  unfold statsStep at 2. destruct (conflicting _ _); apply IH.
Qed.

Lemma statsStep_lookup now rows m repo k :
  statsStep now rows m repo !! k = statsAt now rows k (m !! k) repo.
Proof.
  unfold statsStep, statsAt. destruct (conflicting _ _) as [r|]; [|done].
  case_decide as Hk; [subst k; by rewrite lookup_insert_eq|].
  by rewrite lookup_insert_ne.
Qed.

Lemma statsAt_neutral_or_absorbing now rows k repo :
  (∀ o, statsAt now rows k o repo = o)
  ∨ (∀ t o, statsAt now rows k (statsAt now rows k o t) repo
            = statsAt now rows k o repo).
Proof.
  unfold statsAt. destruct (conflicting (databaseId repo) rows) as [r|]; [|by left].
  case_decide; [right|by left]. intros t o.
  destruct (conflicting (databaseId t) rows) as [rt|]; [|done].
  case_decide; [|done]. by destruct o.
Qed.

(** *** The flags written as constants *)

Lemma saveEach_constantFlags now repos : ∀ db db1,
  Forall constantFlags (Store.repositories db) ->
  saveEach now repos db = (Resolved, db1) ->
  Forall constantFlags (Store.repositories db1).
Proof.
  induction repos as [|x repos IH]; intros db db1 Hinv Hrun; simpl in Hrun.
  - by inversion Hrun; subst.
  - destruct (upsertRepository_cases now x db)
      as [(e & Hu & _) | [(existing & _ & Hf & Hu) | (_ & Hf & Hu)]];
      rewrite Hu in Hrun; [discriminate| |].
    + eapply IH; [|exact Hrun]. store_simpl.
      apply Forall_fmap. eapply Forall_impl; [exact Hinv|].
      intros r [Hd Hp]. unfold compose, touch, constantFlags.
      match goal with |- context [if ?b then _ else _] => destruct b end;
        (split; [exact Hd | first [exact Hp | reflexivity]]).
    + eapply IH; [|exact Hrun]. store_simpl.
      apply Forall_app. split; [done|]. by repeat constructor.
Qed.

Lemma batchSaveRepositories_constantFlags now repos db :
  Forall constantFlags (Store.repositories db) ->
  Forall constantFlags (Store.repositories (batchSaveRepositories now repos db).2).
Proof.
  intros Hinv. unfold batchSaveRepositories.
  destruct (saveEach now repos db) as [[|e] db1] eqn:Hrun; store_simpl; [|done].
  by eapply saveEach_constantFlags.
Qed.

Lemma Reachable_constantFlags db :
  Reachable db -> Forall constantFlags (Store.repositories db).
Proof.
  induction 1 as [|now repos db _ IH|db db' _ IH Hrows].
  - constructor.
  - by apply batchSaveRepositories_constantFlags.
  - by rewrite Hrows.
Qed.

Lemma batchSaveRepositories_Resolved now repos db db1 :
  batchSaveRepositories now repos db = (Resolved, db1) ->
  saveEach now repos db = (Resolved, db1).
Proof.
  unfold batchSaveRepositories.
  destruct (saveEach now repos db) as [[|e] db']; [done|discriminate].
Qed.

(** C10. Every snapshot persisted by a sync batch, inserted or resynced,
    is stored with [has_downloads = true] and [has_pages = false], whatever
    the snapshot says; the store is any state the services reach from the
    empty schema. *)
Theorem persisted_flags_constant
    (now : Z) (repos : list GitHubRepo) (db db1 : Store.DB) (repo : GitHubRepo) :
  Reachable db ->
  batchSaveRepositories now repos db = (Resolved, db1) ->
  repo ∈ repos ->
  ∃ r, conflicting (databaseId repo) (Store.repositories db1) = Some r
       ∧ Store.has_downloads r = true
       ∧ Store.has_pages r = false.
Proof.
  intros Hreach Hrun Hin.
  assert (Hflags : Forall constantFlags (Store.repositories db1)).
  { apply (reachable_batch now repos) in Hreach. rewrite Hrun in Hreach.
    by apply Reachable_constantFlags in Hreach. }
  apply batchSaveRepositories_Resolved in Hrun.
  destruct (saveEach_present _ _ _ _ Hrun repo Hin) as [r Hr].
  exists r. split; [done|].
  apply conflicting_Some in Hr as [Hr _].
  by eapply Forall_forall in Hflags.
Qed.

(** The theorem at a resync: the stored scenario repository is persisted
    again from a snapshot that reports no downloads and pages. *)
Lemma persisted_flags_constant_witness :
  Reachable SampleStore.saved
  /\ batchSaveRepositories (Sample.scenario_now + 5000)
       [SampleStore.changed_repo] SampleStore.saved
     = (Resolved,
        (batchSaveRepositories (Sample.scenario_now + 5000)
           [SampleStore.changed_repo] SampleStore.saved).2)
  /\ SampleStore.changed_repo ∈ [SampleStore.changed_repo]
  /\ hasDownloads SampleStore.changed_repo = false
  /\ hasPages SampleStore.changed_repo = true
  /\ ∃ r, conflicting (databaseId SampleStore.changed_repo)
            (Store.repositories
               (batchSaveRepositories (Sample.scenario_now + 5000)
                  [SampleStore.changed_repo] SampleStore.saved).2) = Some r
          ∧ Store.has_downloads r = true
          ∧ Store.has_pages r = false.
Proof.
  assert (Hreach : Reachable SampleStore.saved).
  { apply (reachable_batch Sample.scenario_now SampleStore.page Store.empty).
    constructor. }
  split; [exact Hreach|]. split; [vm_compute; reflexivity|].
  split; [by left|]. split; [reflexivity|]. split; [reflexivity|].
  apply (persisted_flags_constant (Sample.scenario_now + 5000)
           [SampleStore.changed_repo] SampleStore.saved _
           SampleStore.changed_repo Hreach).
  - vm_compute; reflexivity.
  - by left.
Defined.

(** *** Persisting the same page again *)

Lemma fold_left_ext_step {A B} (f g : A -> B -> A) (l : list B) :
  (∀ a b, f a b = g a b) -> ∀ a, fold_left f l a = fold_left g l a.
Proof.
  intros Hfg. induction l as [|b l IH]; intros a; simpl; [done|].
  by rewrite Hfg, IH.
Qed.

Lemma stamped_resynced t now now' repos r :
  stamped t (resynced now' repos r) = stamped t (resynced now repos r).
Proof. unfold resynced. destruct (lastSnapshot _ _); reflexivity. Qed.

Lemma resynced_takes now repos repo old :
  lastSnapshot repos (Store.github_id old) = Some repo ->
  takesFromSnapshot now repo (resynced now repos old).
Proof.
  intros Hlast. unfold resynced. rewrite Hlast.
  unfold takesFromSnapshot. repeat split; reflexivity.
Qed.

Lemma persistPage_cases now repos db db1 :
  persistPage now repos db = (Resolved, db1) ->
  (repos = [] ∧ db1 = db)
  ∨ (repos ≠ []
     ∧ ∃ dbA, saveEach now repos db = (Resolved, dbA)
              ∧ db1 = Store.set_stats
                        (statsEach now repos (Store.repositories dbA)
                           (Store.repository_stats dbA)) dbA).
Proof.
  unfold persistPage. destruct repos as [|x repos].
  { intros Hrun. left. by inversion Hrun. }
  intros Hrun. right. split; [done|].
  destruct (batchSaveRepositories now (x :: repos) db) as [[|e] dbA] eqn:Hb;
    [|discriminate].
  apply batchSaveRepositories_Resolved in Hb. exists dbA. split; [done|].
  unfold calculateAndSaveStats in Hrun. by inversion Hrun.
Qed.

Lemma persistPage_intro now x repos db dbA :
  saveEach now (x :: repos) db = (Resolved, dbA) ->
  persistPage now (x :: repos) db
  = (Resolved,
     Store.set_stats
       (statsEach now (x :: repos) (Store.repositories dbA)
          (Store.repository_stats dbA)) dbA).
Proof.
  intros Hrun. unfold persistPage, batchSaveRepositories. by rewrite Hrun.
Qed.

(** C9, as stated, fails. Persisting a page again is not a no-op: the
    conflict clause sets [last_fetched = NOW()], so after the sample page,
    stored at one time, is saved again five seconds later, its rows are
    not the rows stored before. *)
Lemma resync_counterexample :
  Store.last_fetched <$> Store.repositories SampleStore.saved
  = [Sample.scenario_now; Sample.scenario_now]
  ∧ Store.last_fetched
      <$> Store.repositories
            (batchSaveRepositories (Sample.scenario_now + 5000)
               SampleStore.page SampleStore.saved).2
    = [Sample.scenario_now + 5000; Sample.scenario_now + 5000]
  ∧ Store.repositories
      (batchSaveRepositories (Sample.scenario_now + 5000)
         SampleStore.page SampleStore.saved).2
    ≠ Store.repositories SampleStore.saved.
Proof.
  split; [vm_compute; reflexivity|]. split; [vm_compute; reflexivity|].
  vm_compute. congruence.
Qed.

(** C9, amended. If persisting a page succeeds, persisting the same page
    again succeeds and leaves the same repository rows up to [last_fetched],
    and the same language rows; at the same clock reading the repository
    and stats rows are identical. When a snapshot changes a stored
    repository, the columns of the conflict clause (name, description, the
    four counters, size, language, topics, updated_at, pushed_at,
    is_archived, is_disabled, has_issues, has_wiki, has_pages,
    has_discussions) take the value the statement passes for the last
    snapshot of the page for that repository, and [last_fetched] the time
    of the run. *)
Theorem resync_same_page
    (now now' : Z) (repos : list GitHubRepo) (db db1 : Store.DB) :
  persistPage now repos db = (Resolved, db1) ->
  (∃ db2,
      persistPage now' repos db1 = (Resolved, db2)
      ∧ map (stamped 0) (Store.repositories db2)
        = map (stamped 0) (Store.repositories db1)
      ∧ Store.repository_languages db2 = Store.repository_languages db1
      ∧ (now' = now ->
         Store.repositories db2 = Store.repositories db1
         ∧ Store.repository_stats db2 = Store.repository_stats db1))
  ∧ (∀ repo old,
        conflicting (Store.github_id old) (Store.repositories db) = Some old ->
        lastSnapshot repos (Store.github_id old) = Some repo ->
        ∃ r, conflicting (Store.github_id old) (Store.repositories db1) = Some r
             ∧ takesFromSnapshot now repo r).
Proof.
  intros Hrun.
  apply persistPage_cases in Hrun as [[-> ->]|(Hne & dbA & HrunA & ->)].
  { split; [exists db; by repeat split|]. intros repo old _ Hlast. discriminate Hlast. }
  destruct repos as [|x repos]; [done|]. clear Hne.
  set (page := x :: repos) in *.
  set (db1 := Store.set_stats _ dbA).
  assert (Hrows1 : Store.repositories db1 = Store.repositories dbA) by reflexivity.
  split.
  - (* the second run only updates *)
    destruct (saveEach_resync now' page db1) as (dbB & HrunB & HrowsB).
    { intros repo Hin. split.
      - eapply saveEach_checks; [exact HrunA|exact Hin].
      - rewrite Hrows1. eapply saveEach_present; [exact HrunA|exact Hin]. }
    assert (Hfixed : ∀ r, r ∈ Store.repositories db1 -> resynced now page r = r).
    { intros r Hr. eapply saveEach_fixed; [exact HrunA|]. by rewrite <- Hrows1. }
    exists (Store.set_stats
              (statsEach now' page (Store.repositories dbB)
                 (Store.repository_stats dbB)) dbB).
    split; [by apply persistPage_intro|]. store_simpl.
    split; [|split].
    + rewrite HrowsB, map_map. apply map_ext_Forall, Forall_forall.
      intros r Hr. by rewrite (stamped_resynced 0 now now'), Hfixed.
    + rewrite (saveEach_languages _ _ _ _ HrunB). subst db1. store_simpl.
      rewrite (saveEach_languages _ _ _ _ HrunA).
      rewrite (fold_left_ext_step _ (languageStep (Store.repositories dbA))).
      * apply (fold_left_step_twice _ (languageAt (Store.repositories dbA))).
        -- intros m s k. apply languageStep_lookup.
        -- intros k s. apply languageAt_neutral_or_absorbing.
      * intros m repo. apply languageStep_ext. intros g.
        rewrite HrowsB. store_simpl.
        rewrite conflicting_map by apply github_id_resynced.
        destruct (conflicting g _); simpl; [|done]. by rewrite id_resynced.
    + intros ->.
      assert (HrowsB' : Store.repositories dbB = Store.repositories dbA).
      { rewrite HrowsB, Hrows1.
        rewrite <- (map_id (Store.repositories dbA)) at 2.
        apply map_ext_Forall, Forall_forall. intros r Hr. apply Hfixed.
        by rewrite Hrows1. }
      split; [done|].
      destruct (saveEach_frame _ _ _ _ _ HrunB) as (-> & _ & _).
      subst db1. store_simpl. rewrite HrowsB', !statsEach_fold.
      apply (fold_left_step_twice _ (statsAt now (Store.repositories dbA))).
      * intros m s k. apply statsStep_lookup.
      * intros k s. apply statsAt_neutral_or_absorbing.
  - intros repo old Hold Hlast. exists (resynced now page old).
    split; [|by apply resynced_takes].
    rewrite Hrows1. by eapply saveEach_conflicting.
Qed.

Lemma sample_page_persisted :
  persistPage Sample.scenario_now SampleStore.page Store.empty
  = (Resolved, SampleStore.synced).
Proof.
  unfold SampleStore.synced, SampleStore.page.
  rewrite (persistPage_intro _ _ _ _ SampleStore.saved); [reflexivity|].
  vm_compute. reflexivity.
Qed.

(** The theorem at the sample page, persisted into the empty schema and
    then again five seconds later. *)
Lemma resync_same_page_witness :
  persistPage Sample.scenario_now SampleStore.page Store.empty
  = (Resolved, SampleStore.synced)
  /\ ∃ db2,
       persistPage (Sample.scenario_now + 5000) SampleStore.page SampleStore.synced
       = (Resolved, db2)
       ∧ map (stamped 0) (Store.repositories db2)
         = map (stamped 0) (Store.repositories SampleStore.synced)
       ∧ Store.repository_languages db2
         = Store.repository_languages SampleStore.synced.
Proof.
  split; [exact sample_page_persisted|].
  destruct (resync_same_page Sample.scenario_now (Sample.scenario_now + 5000)
              SampleStore.page Store.empty SampleStore.synced
              sample_page_persisted) as [(db2 & H2 & Hrows & Hlang & _) _].
  exists db2. by repeat split.
Defined.

End SyncTables.

(** ** Enrichment worker *)

Section WorkerProperties.

Import Worker.

Local Open Scope Z_scope.

(** *** The discriminator *)

Lemma saveContributorsToDB_cases now repoId cs fallbackType dataType db :
  (∃ e, saveContributorsToDB now repoId cs fallbackType dataType db = (inl e, db))
  ∨ (∃ inserted,
        insertContributors now repoId fallbackType cs
          (Store.deleteWhereRepository repoId (Store.repository_contributors db))
        = inr inserted
        ∧ saveContributorsToDB now repoId cs fallbackType dataType db
          = (inr tt,
             Store.set_stats
               (alter (setDataType dataType) repoId (Store.repository_stats db))
               (Store.set_contributors inserted db))).
Proof.
  unfold saveContributorsToDB.
  destruct (insertContributors _ _ _ _ _) as [e|inserted]; [left|right]; eauto.
Qed.

(** A call either saves, and then flags the stats row with the data type of
    its strategy, or leaves the store as it was. *)
Lemma fetchAndSaveContributors_effect up now repoId fullName db :
  let run := fetchAndSaveContributors up now repoId fullName db in
  match outcome run with
  | Saved via =>
      ∃ inserted,
        insertContributors now repoId
          (strategyFallbackType via)
          (fetchedContributors up fullName via)
          (Store.deleteWhereRepository repoId (Store.repository_contributors db))
        = inr inserted
        ∧ store run
          = Store.set_stats
              (alter (setDataType (strategyDataType via)) repoId
                 (Store.repository_stats db))
              (Store.set_contributors inserted db)
  | _ => store run = db
  end.
Proof.
  cbn zeta. unfold fetchAndSaveContributors, fetchedContributors.
  destruct (contributorsEndpoint up fullName) as [msg|r]; [done|].
  destruct (ok r).
  - destruct (body r) as [items| |]; [|done|done].
    destruct (saveContributorsToDB_cases now repoId items None all_time db)
      as [(e & ->)|(inserted & Hins & ->)]; [done|].
    cbn. eauto.
  - destruct (status r =? 403); [|done].
    assert (Hfb : let run := fetchAndSaveRecentContributorsGraphQL up now repoId fullName db in
      match outcome run with
      | Saved Fallback =>
          ∃ inserted,
            insertContributors now repoId (Some "User"%string)
              match (pageThrough up fullName maxPages None true []).1 with
              | PagingDone m => map tallyContributor (topContributors m)
              | _ => []
              end
              (Store.deleteWhereRepository repoId (Store.repository_contributors db))
            = inr inserted
            ∧ store run
              = Store.set_stats
                  (alter (setDataType recent) repoId (Store.repository_stats db))
                  (Store.set_contributors inserted db)
      | Saved Primary => False
      | _ => store run = db
      end).
    { cbn zeta. unfold fetchAndSaveRecentContributorsGraphQL.
      destruct (pageThrough _ _ _ _ _ _) as [[[|t m]| |e] reqs]; try done.
      cbn [fst].
      destruct (saveContributorsToDB_cases now repoId
                  (map tallyContributor (topContributors (t :: m)))
                  (Some "User"%string) recent db)
        as [(e & ->)|(inserted & Hins & ->)]; [done|].
      cbn. eauto. }
    cbn zeta in Hfb.
    destruct (body r) as [items|msg|]; [| |done];
      (destruct (listTooLarge r); [|done]);
      destruct (outcome (fetchAndSaveRecentContributorsGraphQL _ _ _ _ _))
        as [[|]| | | |]; done.
Qed.

Lemma fetchAndSaveContributors_stats up now repoId fullName db :
  let run := fetchAndSaveContributors up now repoId fullName db in
  Store.repository_stats (store run)
  = match outcome run with
    | Saved via =>
        alter (setDataType (strategyDataType via)) repoId (Store.repository_stats db)
    | _ => Store.repository_stats db
    end.
Proof.
  cbn zeta. pose proof (fetchAndSaveContributors_effect up now repoId fullName db) as H.
  cbn zeta in H.
  destruct (outcome _) as [via| | | |]; try (by rewrite H).
  destruct H as (inserted & _ & ->). reflexivity.
Qed.

Lemma refreshAll_discriminator (ops : list Refresh) : ∀ db log,
  (∀ repoId row, Store.repository_stats db !! repoId = Some row ->
     Store.contributors_data_type row = dataTypeString (loggedDataType repoId log)) ->
  ∀ repoId row,
    Store.repository_stats (refreshAll ops db log).1 !! repoId = Some row ->
    Store.contributors_data_type row
    = dataTypeString (loggedDataType repoId (refreshAll ops db log).2).
Proof.
  induction ops as [|op ops IH]; intros db log Hinv; simpl; [exact Hinv|].
  apply IH. intros repoId row.
  rewrite fetchAndSaveContributors_stats.
  unfold loggedDataType. cbn [lastSaved].
  destruct (outcome _) as [via| | | |]; try apply Hinv.
  destruct (Z.eqb_spec (refresh_repoId op) repoId) as [->|Hne].
  - rewrite lookup_alter_eq. destruct (_ !! repoId) as [old|]; [|done].
    intros [= <-]. by destruct via.
  - rewrite lookup_alter_ne by done. apply Hinv.
Qed.

(** C6, as stated, fails. A repository is refreshed from the contributors
    endpoint and then, grown too large, through the fallback, whose history
    holds no commit with a user: the call succeeds with nothing to save.
    The most recent successful fetch used the fallback, and the
    discriminator is still [all_time]. *)
Lemma discriminator_counterexample :
  lastSuccessful 1
    (refreshAll [SampleUpstream.refreshSmall; SampleUpstream.refreshAnonymous]
       SampleUpstream.enriched []).2
  = Some Fallback
  /\ Store.contributors_data_type
       <$> Store.repository_stats
             (refreshAll [SampleUpstream.refreshSmall; SampleUpstream.refreshAnonymous]
                SampleUpstream.enriched []).1 !! 1
     = Some "all_time"%string
  /\ (refreshAll [SampleUpstream.refreshSmall; SampleUpstream.refreshAnonymous]
        SampleUpstream.enriched []).2
     = [(1, FallbackEmpty); (1, Saved Primary)].
Proof. repeat split; vm_compute; reflexivity. Qed.

(** C6, amended. After any sequence of contributor refreshes, started from
    a store whose stats rows carry the column default [all_time], every
    stats row has [contributors_data_type] in {all_time, recent}, and it is
    [recent] exactly when the most recent call for that repository that
    saved a contributor list took the fallback path. *)
Theorem discriminator_tracks_last_saved
    (ops : list Refresh) (db : Store.DB) (repoId : Z) (row : Store.StatsRow) :
  (∀ r old, Store.repository_stats db !! r = Some old ->
     Store.contributors_data_type old = "all_time"%string) ->
  Store.repository_stats (refreshAll ops db []).1 !! repoId = Some row ->
  (Store.contributors_data_type row = "all_time"%string
   ∨ Store.contributors_data_type row = "recent"%string)
  ∧ (Store.contributors_data_type row = "recent"%string
     ↔ lastSaved repoId (refreshAll ops db []).2 = Some Fallback).
Proof.
  intros Hdefault Hrow.
  pose proof (refreshAll_discriminator ops db [] Hdefault repoId row Hrow) as H.
  unfold loggedDataType in H.
  destruct (lastSaved repoId _) as [[|]|]; rewrite H; cbn;
    (split; [auto|split; [discriminate || done|discriminate || done]]).
Qed.

(** *** Replacement of the stored sets *)

Lemma members_cons_None cs : members (None :: cs) = members cs.
Proof. reflexivity. Qed.

Lemma members_cons_Some c cs :
  members (Some c :: cs)
  = if truthyString (login c) then c :: members cs else members cs.
Proof. reflexivity. Qed.

Lemma insertContributors_lookup now repoId fallbackType cs : ∀ m m',
  insertContributors now repoId fallbackType cs m = inr m' ->
  NoDup (contributorKey <$> members cs) ->
  (∀ c g, c ∈ members cs -> contributorKey c = Some g -> m !! (repoId, g) = None) ->
  (∀ g row,
      m' !! (repoId, g) = Some row
      ↔ m !! (repoId, g) = Some row
        ∨ ∃ c, c ∈ members cs ∧ contributorKey c = Some g
               ∧ row = contributorRow now fallbackType c)
  ∧ (∀ r g, r ≠ repoId -> m' !! (r, g) = m !! (r, g)).
Proof.
  induction cs as [|[c|] cs IH]; intros m m' Hrun Hnodup Hfresh; simpl in Hrun.
  - inversion Hrun; subst. split; [|done]. intros g row. split; [by left|].
    intros [H|(c & Hc & _)]; [done|]. by apply elem_of_nil in Hc.
  - rewrite members_cons_Some in Hnodup, Hfresh |- *.
    destruct (truthyString (login c)) eqn:Hlogin; [|by apply IH].
    unfold insertContributor in Hrun.
    destruct (contributorKey c) as [g0|] eqn:Hkey; [|discriminate].
    rewrite (Hfresh c g0) in Hrun by (done || left).
    rewrite fmap_cons, Hkey in Hnodup. apply NoDup_cons in Hnodup as [Hnotin Hnodup].
    apply IH in Hrun as [Hin Hout]; [|done|].
    + split.
      * intros g row. rewrite Hin. destruct (decide (g = g0)) as [->|Hne].
        -- rewrite lookup_insert_eq, (Hfresh c g0) by (done || left). split.
           ++ intros [[= <-]|(c' & Hc' & Hk' & _)]; [right; exists c; split; [left|done]|].
              exfalso. apply Hnotin. rewrite <- Hk'. by apply list_elem_of_fmap_2.
           ++ intros [H|(c' & Hc' & Hk' & ->)]; [done|].
              apply elem_of_cons in Hc' as [->|Hc']; [by left|].
              exfalso. apply Hnotin. rewrite <- Hk'. by apply list_elem_of_fmap_2.
        -- rewrite lookup_insert_ne by congruence. split.
           ++ intros [H|(c' & Hc' & Hk' & ->)]; [by left|].
              right. exists c'. split; [by right|done].
           ++ intros [H|(c' & Hc' & Hk' & ->)]; [by left|].
              apply elem_of_cons in Hc' as [->|Hc']; [congruence|].
              right. by exists c'.
      * intros r g Hr. rewrite Hout by done. rewrite lookup_insert_ne by congruence.
        done.
    + intros c' g Hc' Hk'. rewrite lookup_insert_ne.
      * apply (Hfresh c' g); [by right|done].
      * intros [= ->]. apply Hnotin. rewrite <- Hk'. by apply list_elem_of_fmap_2.
  - rewrite members_cons_None in Hnodup, Hfresh |- *. by apply IH.
Qed.

Lemma insertWeek_fold_lookup now repoId ws : ∀ m,
  NoDup (week <$> ws) ->
  (∀ w, w ∈ ws -> m !! (repoId, week w) = None) ->
  (∀ t row,
      fold_left (insertWeek now repoId) ws m !! (repoId, t) = Some row
      ↔ m !! (repoId, t) = Some row
        ∨ ∃ w, w ∈ ws ∧ week w = t ∧ row = activityRow now w)
  ∧ (∀ r t, r ≠ repoId ->
       fold_left (insertWeek now repoId) ws m !! (r, t) = m !! (r, t)).
Proof.
  induction ws as [|w ws IH]; intros m Hnodup Hfresh; simpl.
  - split; [|done]. intros t row. split; [by left|].
    intros [H|(w & Hw & _)]; [done|]. by apply elem_of_nil in Hw.
  - rewrite fmap_cons in Hnodup. apply NoDup_cons in Hnodup as [Hnotin Hnodup].
    unfold insertWeek at 2 4. rewrite (Hfresh w) by left.
    destruct (IH (<[(repoId, week w) := activityRow now w]> m)) as [Hin Hout];
      [done| |].
    + intros w' Hw'. rewrite lookup_insert_ne; [apply Hfresh; by right|].
      intros [= Heq]. apply Hnotin. rewrite Heq. by apply list_elem_of_fmap_2.
    + split.
      * intros t row. rewrite Hin. destruct (decide (t = week w)) as [->|Hne].
        -- rewrite lookup_insert_eq, (Hfresh w) by left. split.
           ++ intros [[= <-]|(w' & Hw' & Hk' & _)]; [right; exists w; split; [left|done]|].
              exfalso. apply Hnotin. rewrite <- Hk'. by apply list_elem_of_fmap_2.
           ++ intros [H|(w' & Hw' & Hk' & ->)]; [done|].
              apply elem_of_cons in Hw' as [->|Hw']; [by left|].
              exfalso. apply Hnotin. rewrite <- Hk'. by apply list_elem_of_fmap_2.
        -- rewrite lookup_insert_ne by congruence. split.
           ++ intros [H|(w' & Hw' & Hk' & ->)]; [by left|].
              right. exists w'. split; [by right|done].
           ++ intros [H|(w' & Hw' & Hk' & ->)]; [by left|].
              apply elem_of_cons in Hw' as [->|Hw']; [congruence|].
              right. by exists w'.
      * intros r t Hr. rewrite Hout by done. rewrite lookup_insert_ne by congruence.
        done.
Qed.

Lemma deleteWhereRepository_lookup_eq {K V} `{Countable K}
    (repoId : Z) (m : gmap (Z * K) V) (k : K) :
  Store.deleteWhereRepository repoId m !! (repoId, k) = None.
Proof. rewrite deleteWhereRepository_lookup. by rewrite decide_True. Qed.

Lemma deleteWhereRepository_lookup_ne {K V} `{Countable K}
    (repoId : Z) (m : gmap (Z * K) V) (r : Z) (k : K) :
  r ≠ repoId -> Store.deleteWhereRepository repoId m !! (r, k) = m !! (r, k).
Proof. intros Hr. rewrite deleteWhereRepository_lookup. by rewrite decide_False. Qed.

(** The contributor rows a saving call leaves. *)
Lemma saved_contributor_rows up now repoId fullName db via :
  outcome (fetchAndSaveContributors up now repoId fullName db) = Saved via ->
  NoDup (contributorKey <$> members (fetchedContributors up fullName via)) ->
  (∀ g row,
      Store.repository_contributors
        (store (fetchAndSaveContributors up now repoId fullName db)) !! (repoId, g)
      = Some row
      ↔ ∃ c, c ∈ members (fetchedContributors up fullName via)
             ∧ contributorKey c = Some g
             ∧ row = contributorRow now (strategyFallbackType via) c)
  ∧ (∀ r g, r ≠ repoId ->
       Store.repository_contributors
         (store (fetchAndSaveContributors up now repoId fullName db)) !! (r, g)
       = Store.repository_contributors db !! (r, g)).
Proof.
  intros Hout Hnodup.
  pose proof (fetchAndSaveContributors_effect up now repoId fullName db) as H.
  cbn zeta in H. rewrite Hout in H. destruct H as (inserted & Hins & ->).
  store_simpl.
  apply insertContributors_lookup in Hins as [Hin Hother]; [|done|].
  - split.
    + intros g row. rewrite Hin, deleteWhereRepository_lookup_eq.
      split; [by intros [?|?] | by right].
    + intros r g Hr. by rewrite Hother, deleteWhereRepository_lookup_ne.
  - intros c g _ _. apply deleteWhereRepository_lookup_eq.
Qed.


(** *** The fallback *)

Lemma pageThrough_requests up fullName pagesLeft : ∀ cursor hasNext m,
  (length (pageThrough up fullName pagesLeft cursor hasNext m).2 <= pagesLeft)%nat
  ∧ Forall (λ q, first q = 100 ∧ request_fullName q = fullName)
      (pageThrough up fullName pagesLeft cursor hasNext m).2.
Proof.
  induction pagesLeft as [|n IH]; intros cursor hasNext m; simpl.
  - split; [done|constructor].
  - destruct hasNext; [|split; [simpl; lia|constructor]].
    destruct (historyQuery up _) as [msg|[h|]].
    + destruct (match msg with Some s => _ | None => false end); simpl;
        (split; [lia|by repeat constructor]).
    + specialize (IH (endCursor (pageInfo h)) (hasNextPage (pageInfo h))
                    (fold_left tallyNode (history_nodes h) m)).
      destruct (pageThrough up fullName n _ _ _) as [res reqs]. simpl in *.
      destruct IH as [Hlen Hall]. split; [lia|by constructor].
    + simpl. split; [lia|by repeat constructor].
Qed.

Lemma pageThrough_head up fullName n cursor m :
  ∃ rest,
    (pageThrough up fullName (S n) cursor true m).2
    = {| request_fullName := fullName; first := 100; after := cursor |} :: rest.
Proof.
  simpl. destruct (historyQuery up _) as [msg|[h|]].
  - destruct (match msg with Some s => _ | None => false end); simpl; eauto.
  - destruct (pageThrough _ _ _ _ _ _); simpl; eauto.
  - simpl; eauto.
Qed.

Lemma pageThrough_tally up fullName pagesLeft : ∀ cursor hasNext m m',
  (pageThrough up fullName pagesLeft cursor hasNext m).1 = PagingDone m' ->
  m' = fold_left tallyNode (fetchedNodes up fullName pagesLeft cursor hasNext) m.
Proof.
  induction pagesLeft as [|n IH]; intros cursor hasNext m m'; simpl.
  - by intros [= <-].
  - destruct hasNext; [|by intros [= <-]].
    destruct (historyQuery up _) as [msg|[h|]].
    + by destruct (match msg with Some s => _ | None => false end).
    + specialize (IH (endCursor (pageInfo h)) (hasNextPage (pageInfo h))
                    (fold_left tallyNode (history_nodes h) m) m').
      destruct (pageThrough up fullName n _ _ _) as [res reqs]. simpl in *.
      intros Hres. rewrite fold_left_app. by apply IH.
    + by intros [= <-].
Qed.

(** The accumulator counts the attributed commits of every login. *)
Lemma tallyOf_tallyUser l u g m :
  tallyOf l (tallyUser u g m)
  = tallyOf l m + (if String.eqb (user_login u) l then 1 else 0).
Proof.
  unfold tallyOf. induction m as [|t m IH]; simpl.
  - destruct (String.eqb_spec (user_login u) l); simpl; lia.
  - destruct (String.eqb_spec (tally_login t) (user_login u)) as [E|E]; simpl.
    + rewrite E. destruct (String.eqb_spec (user_login u) l); simpl; [lia|].
      destruct (List.find _ m); lia.
    + destruct (String.eqb_spec (tally_login t) l) as [E'|E']; [|exact IH].
      destruct (String.eqb_spec (user_login u) l); [congruence|simpl; lia].
Qed.

Lemma tallyOf_tallyNode l m node :
  tallyOf l (tallyNode m node)
  = tallyOf l m + (if attributedTo l node then 1 else 0).
Proof.
  unfold tallyNode, attributedTo, truthyZ.
  destruct node as [u|]; [|lia].
  destruct (user_databaseId u) as [g|]; [|simpl; lia].
  destruct (g =? 0); simpl; [lia|]. apply tallyOf_tallyUser.
Qed.

Lemma tallyOf_fold l nodes : ∀ m,
  tallyOf l (fold_left tallyNode nodes m) = tallyOf l m + commitsBy l nodes.
Proof.
  unfold commitsBy. induction nodes as [|node nodes IH]; intros m; simpl; [lia|].
  rewrite IH, tallyOf_tallyNode. destruct (attributedTo l node); simpl; lia.
Qed.

Lemma tallyUser_logins u g m :
  (user_login u ∈ tally_login <$> m ->
   tally_login <$> tallyUser u g m = tally_login <$> m)
  ∧ (user_login u ∉ tally_login <$> m ->
     tally_login <$> tallyUser u g m = (tally_login <$> m) ++ [user_login u]).
Proof.
  induction m as [|t m [IHin IHout]].
  - split; [by intros ?%elem_of_nil|done].
  - cbn [tallyUser].
    destruct (String.eqb_spec (tally_login t) (user_login u)) as [E|E].
    + split; [reflexivity|]. intros Hout. exfalso. apply Hout.
      rewrite fmap_cons, E. left.
    + rewrite !fmap_cons. split.
      * intros [?|Hin]%elem_of_cons; [congruence|]. by rewrite IHin.
      * intros Hout. rewrite IHout; [done|]. intros Hin. apply Hout. by right.
Qed.

Lemma tallyUser_wellFormed u g m :
  g ≠ 0 -> tallyWellFormed m -> tallyWellFormed (tallyUser u g m).
Proof.
  intros Hg [Hnodup Hids]. split.
  - destruct (tallyUser_logins u g m) as [Hin Hout].
    destruct (decide (user_login u ∈ tally_login <$> m)) as [H|H].
    + by rewrite Hin.
    + rewrite Hout by done. apply NoDup_app. split; [done|].
      split; [|apply NoDup_singleton].
      intros l Hl [->|[]%elem_of_nil]%elem_of_cons. done.
  - clear Hnodup. induction Hids as [|t m Ht Hm IH]; simpl.
    + by repeat constructor.
    + destruct (String.eqb _ _); constructor; done.
Qed.

Lemma tallyNode_wellFormed m node :
  tallyWellFormed m -> tallyWellFormed (tallyNode m node).
Proof.
  intros Hm. unfold tallyNode. destruct node as [u|]; [|done].
  destruct (user_databaseId u) as [g|]; [|done].
  destruct (Z.eqb_spec g 0); [done|]. by apply tallyUser_wellFormed.
Qed.

Lemma tally_fold_wellFormed nodes : ∀ m,
  tallyWellFormed m -> tallyWellFormed (fold_left tallyNode nodes m).
Proof.
  induction nodes as [|node nodes IH]; intros m Hm; simpl; [done|].
  by apply IH, tallyNode_wellFormed.
Qed.

Lemma tallyOf_elem_of t m :
  NoDup (tally_login <$> m) -> t ∈ m -> tallyOf (tally_login t) m = tally_contributions t.
Proof.
  unfold tallyOf. induction m as [|s m IH]; intros Hnodup Hin.
  - by apply elem_of_nil in Hin.
  - rewrite fmap_cons in Hnodup. apply NoDup_cons in Hnodup as [Hnotin Hnodup].
    simpl. apply elem_of_cons in Hin as [->|Hin].
    + by rewrite String.eqb_refl.
    + destruct (String.eqb_spec (tally_login s) (tally_login t)) as [E|E]; [|by apply IH].
      exfalso. apply Hnotin. rewrite E. by apply list_elem_of_fmap_2.
Qed.

(** *** The top contributors *)

Lemma insertByContributions_perm t sorted :
  insertByContributions t sorted ≡ₚ t :: sorted.
Proof.
  induction sorted as [|s sorted IH]; simpl; [done|].
  destruct (_ <=? _); [done|]. rewrite IH. apply Permutation_swap.
Qed.

Lemma sortByContributions_perm m : sortByContributions m ≡ₚ m.
Proof.
  unfold sortByContributions. induction m as [|t m IH]; simpl; [done|].
  by rewrite insertByContributions_perm, IH.
Qed.

Lemma insertByContributions_sorted t sorted :
  Sorted byContributions sorted -> Sorted byContributions (insertByContributions t sorted).
Proof.
  induction 1 as [|s sorted Hsorted IH Hhd]; simpl.
  - by repeat constructor.
  - destruct (Z.leb_spec (tally_contributions s) (tally_contributions t)) as [Hle|Hlt].
    + constructor; [by constructor|]. by constructor.
    + constructor; [exact IH|].
      destruct Hhd as [|s' sorted Hs']; simpl.
      * constructor. unfold byContributions. lia.
      * destruct (_ <=? _); constructor; [unfold byContributions; lia|done].
Qed.

Lemma sortByContributions_sorted m : Sorted byContributions (sortByContributions m).
Proof.
  unfold sortByContributions. induction m as [|t m IH]; simpl; [constructor|].
  by apply insertByContributions_sorted.
Qed.

Lemma topContributors_spec m :
  length (topContributors m) = (30 `min` length m)%nat
  ∧ ∃ dropped,
      topContributors m ++ dropped ≡ₚ m
      ∧ ∀ a b, a ∈ topContributors m -> b ∈ dropped ->
               tally_contributions b <= tally_contributions a.
Proof.
  unfold topContributors. split.
  - by rewrite length_take, (Permutation_length (sortByContributions_perm m)).
  - exists (drop 30 (sortByContributions m)). rewrite take_drop.
    split; [apply sortByContributions_perm|].
    intros a b Ha Hb.
    assert (Htrans : Transitive byContributions).
    { intros x y z. unfold byContributions. lia. }
    pose proof (sortByContributions_sorted m) as Hs.
    apply Sorted_StronglySorted in Hs; [|exact Htrans].
    rewrite <- (take_drop 30 (sortByContributions m)) in Hs.
    eapply StronglySorted_app_1_elem_of in Hs; [exact Hs|exact Ha|exact Hb].
Qed.

(** *** When the fallback runs *)

Lemma fallback_requests up now repoId fullName db :
  requests (fetchAndSaveRecentContributorsGraphQL up now repoId fullName db)
  = (pageThrough up fullName maxPages None true []).2.
Proof.
  unfold fetchAndSaveRecentContributorsGraphQL.
  destruct (pageThrough _ _ _ _ _ _) as [[[|t m]| |e] reqs]; try done.
  by destruct (saveContributorsToDB _ _ _ _ _ _) as [[e|[]] db'].
Qed.

Lemma listTooLarge_spec (r : Response ContributorsJson) :
  listTooLarge r = true
  ↔ status r = 403
    ∧ ∃ message, body r = JsonObject (Some message)
                 ∧ includes "list is too large" message = true.
Proof.
  unfold listTooLarge. rewrite andb_true_iff, Z.eqb_eq.
  split; intros [Hs Hb]; (split; [done|]).
  - destruct (body r) as [|[message|]|]; try done. by exists message.
  - destruct Hb as (message & -> & Hm). done.
Qed.

Lemma forbidden_not_ok {B} (r : Response B) : status r = 403 -> ok r = false.
Proof. unfold ok. by intros ->. Qed.

(** The call as a case analysis on the primary fetch. *)
Lemma fetchAndSaveContributors_cases up now repoId fullName db :
  let run := fetchAndSaveContributors up now repoId fullName db in
  (∃ r, contributorsEndpoint up fullName = FetchResponse r
        ∧ listTooLarge r = true
        ∧ run = fetchAndSaveRecentContributorsGraphQL up now repoId fullName db)
  ∨ ((∀ r, contributorsEndpoint up fullName = FetchResponse r -> listTooLarge r = false
                                                               ∨ ok r = true)
     ∧ requests run = []
     ∧ (outcome run = Saved Primary
        ∨ (store run = db ∧ ∃ e, outcome run = Threw e))).
Proof.
  cbn zeta. unfold fetchAndSaveContributors.
  destruct (contributorsEndpoint up fullName) as [msg|r].
  { right. split; [done|]. split; [done|]. right. eauto. }
  destruct (ok r) eqn:Hok.
  { right. split; [intros ? [= <-]; by right|].
    destruct (body r) as [items| |].
    - destruct (saveContributorsToDB_cases now repoId items None all_time db)
        as [(e & ->)|(inserted & _ & ->)]; cbn; eauto 6.
    - cbn; eauto 6.
    - cbn; eauto 6. }
  destruct (status r =? 403) eqn:Hs.
  - destruct (listTooLarge r) eqn:Hl.
    + left. exists r. split; [done|]. split; [done|].
      apply listTooLarge_spec in Hl as (_ & message & -> & _). done.
    + right. split; [intros ? [= <-]; by left|].
      destruct (body r); cbn; eauto 6.
  - right. split; [|cbn; eauto 6].
    intros ? [= <-]. left. unfold listTooLarge. by rewrite Hs.
Qed.

Lemma insertContributors_tally now repoId fallbackType kept : ∀ m,
  Forall (λ t, tally_id t ≠ 0) kept ->
  ∃ m', insertContributors now repoId fallbackType (map tallyContributor kept) m = inr m'.
Proof.
  induction kept as [|t kept IH]; intros m Hids; [simpl; eauto|].
  apply Forall_cons in Hids as [Ht Hids].
  cbn [map insertContributors tallyContributor login].
  destruct (truthyString (Some (tally_login t))); [|by apply IH].
  unfold insertContributor, contributorKey. cbn [id databaseId orElseZ].
  destruct (Z.eqb_spec (tally_id t) 0); [done|].
  destruct (m !! (repoId, tally_id t)); by apply IH.
Qed.

Lemma paging_wellFormed up fullName tally :
  (pageThrough up fullName maxPages None true []).1 = PagingDone tally ->
  tallyWellFormed tally
  ∧ ∀ l, tallyOf l tally = commitsBy l (fetchedNodes up fullName maxPages None true).
Proof.
  intros ->%pageThrough_tally. split.
  - apply tally_fold_wellFormed. split; [constructor|constructor].
  - intros l. by rewrite tallyOf_fold.
Qed.

(** C5, as stated, fails: on a too-large response whose fallback history
    holds no commit with a user, nothing is persisted; the old contributor
    and the discriminator [all_time] stay. *)
Lemma fallback_counterexample :
  listTooLarge SampleUpstream.tooLarge = true
  ∧ outcome (fetchAndSaveContributors SampleUpstream.largeAnonymous
               Sample.scenario_now 1 "facebook/react" SampleUpstream.enriched)
    = FallbackEmpty
  ∧ Store.contributors_data_type
      <$> Store.repository_stats
            (store (fetchAndSaveContributors SampleUpstream.largeAnonymous
                      Sample.scenario_now 1 "facebook/react" SampleUpstream.enriched))
          !! 1
    = Some "all_time"%string
  ∧ Store.repository_contributors
      (store (fetchAndSaveContributors SampleUpstream.largeAnonymous
                Sample.scenario_now 1 "facebook/react" SampleUpstream.enriched))
    = Store.repository_contributors SampleUpstream.enriched.
Proof. repeat split; vm_compute; reflexivity. Qed.

(** C5, amended. The fallback runs exactly when the primary response has
    status 403 and a message containing the marker (never on the status
    alone); it is one sequence of at most 5 history requests of page size
    100 starting without a cursor; any other primary failure sends no
    history request, rejects the call and leaves the store as it was. The
    accumulator holds, per login, the number of fetched commits attributed
    to it; when the paging completes with at least one attributed commit,
    the 30 entries with the largest counts are saved and the discriminator
    of the repository's stats row becomes [recent]; when no commit is
    attributed or the paging fails, the store is left as it was. *)
Theorem fallback_on_too_large
    (up : Upstream) (now repoId : Z) (fullName : string) (db : Store.DB) :
  let run := fetchAndSaveContributors up now repoId fullName db in
  let paging := (pageThrough up fullName maxPages None true []).1 in
  let nodes := fetchedNodes up fullName maxPages None true in
  (* detection: both the status and the message *)
  (requests run ≠ []
   ↔ ∃ r message,
       contributorsEndpoint up fullName = FetchResponse r
       ∧ status r = 403
       ∧ body r = JsonObject (Some message)
       ∧ includes "list is too large" message = true)
  (* one sequence of at most five pages of a hundred *)
  ∧ ((length (requests run) <= 5)%nat
     ∧ Forall (λ q, first q = 100 ∧ request_fullName q = fullName) (requests run)
     ∧ (requests run ≠ [] -> after <$> head (requests run) = Some None))
  (* no fallback: the list of the primary fetch is saved, or the call is
     rejected and nothing changes *)
  ∧ (requests run = [] ->
     outcome run = Saved Primary ∨ (store run = db ∧ ∃ e, outcome run = Threw e))
  (* fallback: saved exactly when the paging tallied an author *)
  ∧ (requests run ≠ [] ->
     match paging with
     | PagingDone (t :: m) => outcome run = Saved Fallback
     | _ => outcome run ≠ Saved Fallback ∧ store run = db
     end)
  (* what a saved fallback holds *)
  ∧ (outcome run = Saved Fallback ->
     ∃ tally,
       paging = PagingDone tally
       ∧ NoDup (tally_login <$> tally)
       ∧ (∀ t, t ∈ tally -> tally_contributions t = commitsBy (tally_login t) nodes)
       ∧ (∀ l, 0 < commitsBy l nodes -> ∃ t, t ∈ tally ∧ tally_login t = l)
       ∧ length (topContributors tally) = (30 `min` length tally)%nat
       ∧ (∃ dropped,
            topContributors tally ++ dropped ≡ₚ tally
            ∧ ∀ a b, a ∈ topContributors tally -> b ∈ dropped ->
                     tally_contributions b <= tally_contributions a)
       ∧ (NoDup (contributorKey
                   <$> members (map tallyContributor (topContributors tally))) ->
          ∀ g row,
            Store.repository_contributors (store run) !! (repoId, g) = Some row
            ↔ ∃ c, c ∈ members (map tallyContributor (topContributors tally))
                   ∧ contributorKey c = Some g
                   ∧ row = contributorRow now (Some "User"%string) c)
       ∧ Store.repository_stats (store run) !! repoId
         = setDataType recent <$> Store.repository_stats db !! repoId).
Proof.
  cbn zeta.
  pose proof (fetchAndSaveContributors_cases up now repoId fullName db) as Hcases.
  cbn zeta in Hcases.
  destruct (pageThrough_head up fullName 4 None []) as [rest Hhead].
  change (S 4) with maxPages in Hhead.
  pose proof (pageThrough_requests up fullName maxPages None true []) as [Hlen Hall].
  assert (Hfb : ∀ run, run = fetchAndSaveRecentContributorsGraphQL up now repoId fullName db ->
            match (pageThrough up fullName maxPages None true []).1 with
            | PagingDone (t :: m) => outcome run = Saved Fallback
            | _ => outcome run ≠ Saved Fallback ∧ store run = db
            end).
  { intros run ->. unfold fetchAndSaveRecentContributorsGraphQL.
    destruct (pageThrough up fullName maxPages None true []) as [paging reqs] eqn:Hp.
    cbn [fst]. destruct paging as [[|t m]| |e]; try done.
    assert (Hpd : (pageThrough up fullName maxPages None true []).1 = PagingDone (t :: m))
      by (by rewrite Hp).
    apply paging_wellFormed in Hpd as [[_ Hids] _].
    destruct (topContributors_spec (t :: m)) as [_ (dropped & Hperm & _)].
    assert (Hkept : Forall (λ t, tally_id t ≠ 0) (topContributors (t :: m))).
    { rewrite <- Hperm in Hids. by apply Forall_app in Hids as [? _]. }
    unfold saveContributorsToDB.
    destruct (insertContributors_tally now repoId (Some "User"%string) _
                (Store.deleteWhereRepository repoId (Store.repository_contributors db))
                Hkept) as [m' ->].
    done. }
  split; [|split; [|split; [|split]]].
  - split.
    + intros Hreq. destruct Hcases as [(r & Hr & Hl & _)|(_ & Hnil & _)]; [|done].
      apply listTooLarge_spec in Hl as (Hs & message & Hb & Hm). eauto 6.
    + intros (r & message & Hr & Hs & Hb & Hm).
      destruct Hcases as [(r' & _ & _ & ->)|(Hno & _)].
      * by rewrite fallback_requests, Hhead.
      * destruct (Hno r Hr) as [Hl|Hok].
        -- assert (listTooLarge r = true) by (apply listTooLarge_spec; eauto).
           congruence.
        -- rewrite forbidden_not_ok in Hok by done. discriminate.
  - destruct Hcases as [(r & _ & _ & ->)|(_ & -> & _)].
    + rewrite fallback_requests. split; [exact Hlen|]. split; [exact Hall|].
      intros _. by rewrite Hhead.
    + split; [simpl; lia|]. split; [constructor|done].
  - intros Hnil. destruct Hcases as [(r & _ & _ & Hrun)|(_ & _ & H)]; [|exact H].
    rewrite Hrun, fallback_requests, Hhead in Hnil. done.
  - intros Hreq. destruct Hcases as [(r & _ & _ & Hrun)|(_ & Hnil & _)]; [|done].
    by apply Hfb.
  - intros Hout.
    pose proof (fetchAndSaveContributors_stats up now repoId fullName db) as Hstats.
    cbn zeta in Hstats. rewrite Hout in Hstats.
    destruct Hcases as [(r & _ & _ & Hrun)|(_ & _ & [H|(_ & e & H)])];
      [|congruence|congruence].
    specialize (Hfb _ Hrun).
    destruct (pageThrough up fullName maxPages None true []).1
      as [[|t m]| |e] eqn:Hp; try (by destruct Hfb).
    exists (t :: m). split; [done|].
    destruct (paging_wellFormed _ _ _ Hp) as [[Hnodup Hids] Hcount].
    split; [done|]. split; [|split; [|split; [|split; [|split]]]].
    + intros t' Ht'. by rewrite <- Hcount, tallyOf_elem_of.
    + intros l Hl. rewrite <- Hcount in Hl. unfold tallyOf in Hl.
      destruct (List.find _ _) as [t'|] eqn:Hfind; [|lia].
      apply find_some in Hfind as [Hin Heq]. exists t'.
      split; [by apply list_elem_of_In|by apply String.eqb_eq].
    + apply topContributors_spec.
    + apply topContributors_spec.
    + intros Hkeys.
      assert (Hfc : fetchedContributors up fullName Fallback
                    = map tallyContributor (topContributors (t :: m)))
        by (unfold fetchedContributors; by rewrite Hp).
      destruct (saved_contributor_rows up now repoId fullName db Fallback Hout)
        as [Hrows _]; [by rewrite Hfc|].
      intros g row. rewrite Hrows, Hfc. done.
    + rewrite Hstats. apply lookup_alter_eq.
Qed.

Lemma enriched_stats_default r old :
  Store.repository_stats SampleUpstream.enriched !! r = Some old ->
  Store.contributors_data_type old = "all_time"%string.
Proof.
  unfold SampleUpstream.enriched. store_simpl.
  intros [_ <-]%lookup_singleton_Some. reflexivity.
Qed.

(** The theorem at a repository refreshed first from the contributors
    endpoint and then, grown too large, from its commit history. *)
Lemma discriminator_tracks_last_saved_witness :
  (∀ r old, Store.repository_stats SampleUpstream.enriched !! r = Some old ->
     Store.contributors_data_type old = "all_time"%string)
  /\ Store.repository_stats
       (refreshAll [SampleUpstream.refreshSmall; SampleUpstream.refreshLarge]
          SampleUpstream.enriched []).1 !! 1
     = Some (setDataType recent SampleUpstream.freshStats)
  /\ (Store.contributors_data_type (setDataType recent SampleUpstream.freshStats)
      = "recent"%string
      ↔ lastSaved 1
          (refreshAll [SampleUpstream.refreshSmall; SampleUpstream.refreshLarge]
             SampleUpstream.enriched []).2
        = Some Fallback).
Proof.
  split; [exact enriched_stats_default|].
  assert (Hrow : Store.repository_stats
       (refreshAll [SampleUpstream.refreshSmall; SampleUpstream.refreshLarge]
          SampleUpstream.enriched []).1 !! 1
     = Some (setDataType recent SampleUpstream.freshStats)).
  { vm_compute. reflexivity. }
  split; [exact Hrow|].
  apply (discriminator_tracks_last_saved
           [SampleUpstream.refreshSmall; SampleUpstream.refreshLarge]
           SampleUpstream.enriched 1
           (setDataType recent SampleUpstream.freshStats)
           enriched_stats_default Hrow).
Defined.

(** Status 403 with another message does not start the fallback: the call
    is rejected and sends no history request. *)
Example forbidden_without_marker :
  listTooLarge SampleUpstream.rateLimited = false
  /\ requests (fetchAndSaveContributors SampleUpstream.limited Sample.scenario_now 1
                 "facebook/react" SampleUpstream.enriched) = []
  /\ outcome (fetchAndSaveContributors SampleUpstream.limited Sample.scenario_now 1
                "facebook/react" SampleUpstream.enriched)
     = Threw (HttpError 403 "Forbidden").
Proof. repeat split; vm_compute; reflexivity. Qed.

(** The theorem at a too-large repository with two pages of history. *)
Lemma fallback_on_too_large_witness :
  requests (fetchAndSaveContributors SampleUpstream.large Sample.scenario_now 1
              "facebook/react" SampleUpstream.enriched) ≠ []
  /\ outcome (fetchAndSaveContributors SampleUpstream.large Sample.scenario_now 1
                "facebook/react" SampleUpstream.enriched) = Saved Fallback
  /\ Store.repository_stats
       (store (fetchAndSaveContributors SampleUpstream.large Sample.scenario_now 1
                 "facebook/react" SampleUpstream.enriched)) !! 1
     = setDataType recent <$> Store.repository_stats SampleUpstream.enriched !! 1.
Proof.
  assert (Hout : outcome (fetchAndSaveContributors SampleUpstream.large
                            Sample.scenario_now 1 "facebook/react"
                            SampleUpstream.enriched) = Saved Fallback)
    by (vm_compute; reflexivity).
  split; [vm_compute; discriminate|]. split; [exact Hout|].
  destruct (fallback_on_too_large SampleUpstream.large Sample.scenario_now 1
              "facebook/react" SampleUpstream.enriched)
    as (_ & _ & _ & _ & Hsaved).
  destruct (Hsaved Hout) as (tally & _ & _ & _ & _ & _ & _ & _ & Hstats).
  exact Hstats.
Defined.


End WorkerProperties.

(** ** Listing endpoint *)

Section ApiProperties.

Import Api.

Local Open Scope Z_scope.

#[local] Instance precedes_total : Total precedes.
Proof. intros x y. unfold precedes. lia. Qed.

#[local] Instance precedes_trans : Transitive precedes.
Proof. intros x y z. unfold precedes. lia. Qed.

Lemma precedes_not_below x y : precedes x y -> ¬ belowCursor (key y) x.
Proof. unfold precedes, belowCursor, keyLt, key. simpl. lia. Qed.

Lemma precedes_below x y :
  precedes x y -> Store.id x ≠ Store.id y -> belowCursor (key x) y.
Proof. unfold precedes, belowCursor, keyLt, key. simpl. lia. Qed.

Lemma precedes_antisym x y :
  precedes x y -> precedes y x -> Store.id x = Store.id y.
Proof. unfold precedes. lia. Qed.

Lemma belowCursor_trans c x y :
  belowCursor (key y) x -> belowCursor c y -> belowCursor c x.
Proof. unfold belowCursor, keyLt, key. simpl. lia. Qed.

Lemma same_id_same_row (rows : list Store.RepoRow) x y :
  NoDup (Store.id <$> rows) -> x ∈ rows -> y ∈ rows -> Store.id x = Store.id y -> x = y.
Proof.
  induction rows as [|r rows IH]; intros Hnodup Hx Hy Hid.
  - by apply elem_of_nil in Hx.
  - rewrite fmap_cons in Hnodup. apply NoDup_cons in Hnodup as [Hnotin Hnodup].
    apply elem_of_cons in Hx as [->|Hx]; apply elem_of_cons in Hy as [->|Hy].
    + done.
    + exfalso. apply Hnotin. rewrite Hid. by apply list_elem_of_fmap_2.
    + exfalso. apply Hnotin. rewrite <- Hid. by apply list_elem_of_fmap_2.
    + by apply IH.
Qed.

Lemma filter_none {A} (P : A -> Prop) `{!∀ x, Decision (P x)} (l : list A) :
  Forall (λ x, ¬ P x) l -> filter P l = [].
Proof.
  induction 1 as [|x l Hx _ IH]; [done|]. by rewrite filter_cons_False.
Qed.

Lemma filter_all {A} (P : A -> Prop) `{!∀ x, Decision (P x)} (l : list A) :
  Forall P l -> filter P l = l.
Proof.
  induction 1 as [|x l Hx _ IH]; [done|]. by rewrite filter_cons_True, IH.
Qed.

(** In a listing sorted by [precedes] with distinct ids, the rows below the
    key of a row are the rows after it. *)
Lemma below_row_is_rest (before after : list Store.RepoRow) (r : Store.RepoRow) :
  StronglySorted precedes (before ++ r :: after) ->
  NoDup (Store.id <$> before ++ r :: after) ->
  filter (belowCursor (key r)) (before ++ r :: after) = after.
Proof.
  intros Hsorted Hnodup.
  rewrite filter_app, filter_cons_False, filter_none, filter_all; [done| | |].
  - apply StronglySorted_app_1_r, StronglySorted_cons in Hsorted as [Hr _].
    rewrite fmap_app, fmap_cons in Hnodup.
    apply NoDup_app in Hnodup as (_ & _ & Hnodup).
    apply NoDup_cons in Hnodup as [Hnotin _].
    apply Forall_forall. intros x Hx. apply precedes_below.
    + by eapply Forall_forall in Hr.
    + intros Heq. apply Hnotin. rewrite Heq. by apply list_elem_of_fmap_2.
  - apply Forall_forall. intros x Hx. apply precedes_not_below.
    eapply StronglySorted_app_1_elem_of; [exact Hsorted|exact Hx|left].
  - unfold belowCursor, keyLt. lia.
Qed.

Lemma matching_elem_of db lastStars lastId r :
  r ∈ matching db lastStars lastId -> r ∈ Store.repositories db.
Proof.
  unfold matching. destruct lastStars, lastId; try done.
  by intros [_ ?]%list_elem_of_filter.
Qed.

Lemma matching_NoDup db lastStars lastId :
  NoDup (Store.id <$> Store.repositories db) ->
  NoDup (Store.id <$> matching db lastStars lastId).
Proof.
  unfold matching. destruct lastStars, lastId; try done.
  intros Hnodup. eapply sublist_NoDup; [exact Hnodup|].
  apply fmap_sublist, sublist_filter.
Qed.

(** Below the key of a selected row, the first query and the query with
    that key as cursor keep the same rows. *)
Lemma matching_below db lastStars lastId r :
  r ∈ matching db lastStars lastId ->
  filter (belowCursor (key r)) (matching db lastStars lastId)
  = matching db (Some (key r).1) (Some (key r).2).
Proof.
  unfold matching at 1 2. cbn [matching key fst snd].
  destruct lastStars as [s|], lastId as [i|]; try done.
  intros [Hr _]%list_elem_of_filter. rewrite list_filter_filter.
  apply list_filter_iff. intros x. split; [by intros [? _]|].
  intros Hx. split; [done|]. by eapply belowCursor_trans.
Qed.

Lemma selected_sorted db lastStars lastId :
  StronglySorted precedes (selected db lastStars lastId).
Proof. apply StronglySorted_merge_sort; apply _. Qed.

Lemma selected_perm db lastStars lastId :
  selected db lastStars lastId ≡ₚ matching db lastStars lastId.
Proof. apply merge_sort_Permutation. Qed.

(** The page after a row of the listing is the rest of the listing. *)
Lemma selected_after db lastStars lastId before r after :
  NoDup (Store.id <$> Store.repositories db) ->
  selected db lastStars lastId = before ++ r :: after ->
  selected db (Some (Store.stars_count r)) (Some (Store.id r)) = after.
Proof.
  intros Hnodup Hsel.
  pose proof (selected_sorted db lastStars lastId) as Hsorted.
  pose proof (selected_perm db lastStars lastId) as Hperm.
  assert (Hin : ∀ x, x ∈ before ++ r :: after -> x ∈ Store.repositories db).
  { intros x Hx. rewrite <- Hsel, Hperm in Hx. by eapply matching_elem_of. }
  assert (Hr : r ∈ matching db lastStars lastId).
  { rewrite <- Hperm, Hsel. set_solver. }
  rewrite Hsel in Hsorted.
  assert (Hafter : filter (belowCursor (key r)) (before ++ r :: after) = after).
  { apply below_row_is_rest; [done|]. rewrite <- Hsel, Hperm.
    by apply matching_NoDup. }
  apply StronglySorted_unique_strong with (R := precedes).
  - intros x y Hx Hy Hxy Hyx.
    apply (same_id_same_row (Store.repositories db)); [done| | |].
    + rewrite selected_perm in Hx. by eapply matching_elem_of.
    + apply Hin. set_solver.
    + by apply precedes_antisym.
  - apply selected_sorted.
  - by apply StronglySorted_app_1_r, StronglySorted_cons in Hsorted as [_ ?].
  - rewrite selected_perm. change (Store.stars_count r) with (key r).1.
    change (Store.id r) with (key r).2.
    rewrite <- (matching_below db lastStars lastId r Hr).
    by rewrite <- Hperm, Hsel, Hafter.
Qed.

Lemma topRepos_TopOk db limitParam lastStars lastId data next hasMore :
  topRepos db limitParam lastStars lastId = TopOk data next hasMore ->
  data.*1 = take (Z.to_nat (effectiveLimit limitParam)) (selected db lastStars lastId)
  ∧ (∀ c, next = Some c ->
       length data = Z.to_nat (effectiveLimit limitParam)
       ∧ ∃ r, last data.*1 = Some r ∧ key r = c).
Proof.
  unfold topRepos. destruct (effectiveLimit limitParam <? 0); [done|].
  intros [= <- <- <-]. split.
  - rewrite <- list_fmap_compose. apply list_fmap_id.
  - intros c Hc. destruct (Z.eqb_spec
      (Z.of_nat (length (take (Z.to_nat (effectiveLimit limitParam))
                           (selected db lastStars lastId))))
      (effectiveLimit limitParam)) as [Hlen|]; [|done].
    split; [rewrite length_fmap; lia|].
    rewrite <- list_fmap_compose, list_fmap_id.
    destruct (last _) as [r|]; [|done]. exists r. split; [done|].
    by inversion Hc.
Qed.

(** C8. For a stored set with distinct ids, a page of the listing that
    returns a cursor and the page fetched with that cursor (with any limit)
    are consecutive parts of the listing ordered by (stars, id) descending:
    together they are a prefix of it; no repository is on both pages, and
    no repository has a key strictly between the last row of the first page
    and the first row of the second, however many repositories tie on the
    star count. *)
Theorem cursor_pages_contiguous
    (db : Store.DB) (limitParam limitParam' lastStars lastId : option Z)
    (data1 data2 : list Listed) (s1 i1 : Z) (next2 : option (Z * Z))
    (hasMore1 hasMore2 : bool) :
  NoDup (Store.id <$> Store.repositories db) ->
  topRepos db limitParam lastStars lastId = TopOk data1 (Some (s1, i1)) hasMore1 ->
  topRepos db limitParam' (Some s1) (Some i1) = TopOk data2 next2 hasMore2 ->
  data1.*1 ++ data2.*1
  = take (Z.to_nat (effectiveLimit limitParam) + Z.to_nat (effectiveLimit limitParam'))
      (selected db lastStars lastId)
  ∧ NoDup (Store.id <$> data1.*1 ++ data2.*1)
  ∧ (∀ r, r ∈ data1.*1 -> r ∉ data2.*1)
  ∧ (∀ r lastOfFirst firstOfSecond,
        r ∈ matching db lastStars lastId ->
        last data1.*1 = Some lastOfFirst ->
        head data2.*1 = Some firstOfSecond ->
        ¬ (keyLt (key firstOfSecond) (key r) ∧ keyLt (key r) (key lastOfFirst))).
Proof.
  intros Hnodup H1 H2.
  apply topRepos_TopOk in H1 as [Hd1 Hnext]. apply topRepos_TopOk in H2 as [Hd2 _].
  destruct (Hnext _ eq_refl) as (Hlen & r1 & Hlast & Hkey). clear Hnext.
  set (n := Z.to_nat (effectiveLimit limitParam)) in *.
  set (n' := Z.to_nat (effectiveLimit limitParam')) in *.
  set (M := selected db lastStars lastId) in *.
  apply last_Some in Hlast as [before Hbefore].
  assert (Hsplit : M = before ++ r1 :: drop n M).
  { rewrite <- (take_drop n M) at 1. rewrite <- Hd1, Hbefore, <- app_assoc. done. }
  inversion Hkey; subst s1 i1.
  rewrite (selected_after db lastStars lastId before r1 (drop n M) Hnodup Hsplit) in Hd2.
  assert (Hboth : data1.*1 ++ data2.*1 = take (n + n') M).
  { rewrite Hd1, Hd2. apply take_take_drop. }
  assert (HM : NoDup (Store.id <$> M)).
  { unfold M. rewrite selected_perm. by apply matching_NoDup. }
  assert (Hids : NoDup (Store.id <$> data1.*1 ++ data2.*1)).
  { rewrite Hboth. eapply sublist_NoDup; [exact HM|].
    apply fmap_sublist, sublist_take. }
  split; [exact Hboth|]. split; [exact Hids|]. split.
  - intros r Hr1 Hr2. apply NoDup_fmap_1 in Hids.
    apply NoDup_app in Hids as (_ & Hdisj & _). by apply (Hdisj r).
  - intros r l1 f2 Hr Hl1 Hf2 [Hlow Hhigh].
    rewrite Hbefore, last_snoc in Hl1. inversion Hl1; subst l1.
    assert (HrM : r ∈ M) by (unfold M; by rewrite selected_perm).
    rewrite Hsplit in HrM.
    pose proof (selected_sorted db lastStars lastId) as Hsorted.
    fold M in Hsorted. rewrite Hsplit in Hsorted.
    apply elem_of_app in HrM as [HrM|HrM].
    + (* r is before the last row of the first page *)
      apply (precedes_not_below r r1); [|exact Hhigh].
      eapply StronglySorted_app_1_elem_of; [exact Hsorted|exact HrM|left].
    + apply elem_of_cons in HrM as [->|HrM].
      * unfold keyLt in Hhigh. lia.
      * (* r is on or after the first row of the second page *)
        rewrite Hd2 in Hf2.
        destruct (drop n M) as [|f rest] eqn:Hdrop; [by apply elem_of_nil in HrM|].
        destruct n' as [|n'']; [discriminate Hf2|].
        simpl in Hf2. inversion Hf2; subst f2.
        apply StronglySorted_app_1_r, StronglySorted_cons in Hsorted as [_ Hsorted].
        apply StronglySorted_cons in Hsorted as [Hf _].
        apply elem_of_cons in HrM as [->|HrM].
        -- unfold keyLt in Hlow. lia.
        -- apply (precedes_not_below f r); [|exact Hlow].
           by eapply Forall_forall in Hf.
Qed.

(** The theorem at a store where four repositories tie on 500 stars: the
    pages of two hold the ids 2, 5 and then 4, 3. *)
Lemma cursor_pages_contiguous_witness :
  NoDup (Store.id <$> Store.repositories SampleListing.tied)
  /\ topRepos SampleListing.tied (Some 2) None None
     = TopOk (SampleListing.dataOf SampleListing.firstPage) (Some (500, 5)) true
  /\ topRepos SampleListing.tied (Some 2) (Some 500) (Some 5)
     = TopOk (SampleListing.dataOf SampleListing.secondPage) (Some (500, 3)) true
  /\ Store.id <$> (SampleListing.dataOf SampleListing.firstPage).*1 = [2; 5]
  /\ Store.id <$> (SampleListing.dataOf SampleListing.secondPage).*1 = [4; 3]
  /\ ∀ r, r ∈ (SampleListing.dataOf SampleListing.firstPage).*1 ->
          r ∉ (SampleListing.dataOf SampleListing.secondPage).*1.
Proof.
  assert (Hnodup : NoDup (Store.id <$> Store.repositories SampleListing.tied))
    by (apply (bool_decide_unpack _); vm_compute; exact I).
  assert (H1 : topRepos SampleListing.tied (Some 2) None None
     = TopOk (SampleListing.dataOf SampleListing.firstPage) (Some (500, 5)) true)
    by (vm_compute; reflexivity).
  assert (H2 : topRepos SampleListing.tied (Some 2) (Some 500) (Some 5)
     = TopOk (SampleListing.dataOf SampleListing.secondPage) (Some (500, 3)) true)
    by (vm_compute; reflexivity).
  split; [exact Hnodup|]. split; [exact H1|]. split; [exact H2|].
  split; [vm_compute; reflexivity|]. split; [vm_compute; reflexivity|].
  destruct (cursor_pages_contiguous SampleListing.tied (Some 2) (Some 2) None None
              _ _ 500 5 _ _ _ Hnodup H1 H2) as (_ & _ & Hdisjoint & _).
  exact Hdisjoint.
Defined.

End ApiProperties.
(** ** The constraints of the schema under the sync service *)

Section SchemaProperties.

Import GitHub Sync.

Local Open Scope Z_scope.

Lemma checkConstraints_None row :
  checkConstraints row = None
  <-> 0 <= Store.stars_count row ∧ 0 <= Store.forks_count row.
Proof.
  unfold checkConstraints.
  destruct (Z.ltb_spec (Store.stars_count row) 0); [split; [done|lia]|].
  destruct (Z.ltb_spec (Store.forks_count row) 0); [split; [done|lia]|].
  split; [lia|done].
Qed.

Lemma checkConstraints_Some row e :
  checkConstraints row = Some e ->
  e = Store.CheckViolation "positive_stars"
  ∨ e = Store.CheckViolation "positive_forks".
Proof.
  unfold checkConstraints.
  destruct (_ <? _); [intros [= <-]; by left|].
  destruct (_ <? _); [intros [= <-]; by right|done].
Qed.

Lemma full_name_touch now repo r :
  Store.full_name (touch now repo r) = Store.full_name r.
Proof. unfold touch. destruct (_ =? _); reflexivity. Qed.

Lemma existsb_full_name rows n :
  existsb (λ r, String.eqb (Store.full_name r) n) rows = false ->
  n ∉ Store.full_name <$> rows.
Proof.
  induction rows as [|r rows IH]; simpl; [intros _; apply not_elem_of_nil|].
  destruct (String.eqb_spec (Store.full_name r) n) as [|Hne]; [done|].
  simpl. intros Hrest. apply not_elem_of_cons. split; [done|by apply IH].
Qed.

(** How one upsert ends, with what the rejected case rejected. *)
Lemma upsertRepository_outcome now repo db :
  let rows := Store.repositories db in
  let seq := Store.repositories_id_seq db in
  let ex := excluded now seq repo in
  (∃ e, upsertRepository now repo db = (inl e, Store.set_repositories rows (seq + 1) db)
        ∧ (e = Store.CheckViolation "positive_stars"
           ∨ e = Store.CheckViolation "positive_forks"
           ∨ e = Store.UniqueViolation "repositories_full_name_key"))
  ∨ (∃ existing,
        checkConstraints ex = None
        ∧ conflicting (databaseId repo) rows = Some existing
        ∧ upsertRepository now repo db
          = (inr (Store.id existing),
             Store.set_repositories (map (touch now repo) rows) (seq + 1) db))
  ∨ (checkConstraints ex = None
     ∧ conflicting (databaseId repo) rows = None
     ∧ (nameWithOwner repo ∉ Store.full_name <$> rows)
     ∧ upsertRepository now repo db
       = (inr seq, Store.set_repositories (rows ++ [ex]) (seq + 1) db)).
Proof.
  cbn zeta. unfold upsertRepository.
  destruct (checkConstraints _) as [e|] eqn:Hc.
  { left. exists e. split; [done|].
    apply checkConstraints_Some in Hc as [->| ->]; auto. }
  change (Store.github_id (excluded now (Store.repositories_id_seq db) repo))
    with (databaseId repo).
  destruct (conflicting _ _) as [existing|] eqn:Hf.
  - right; left. exists existing. by rewrite updateConflicting_touch.
  - destruct (existsb _ _) eqn:Hn; [left; eauto|].
    right; right. apply existsb_full_name in Hn. done.
Qed.

Lemma upsertRepository_satisfied now repo db :
  Schema.satisfied db ->
  Schema.satisfied (upsertRepository now repo db).2
  ∧ Store.repositories_id_seq (upsertRepository now repo db).2
    = Store.repositories_id_seq db + 1.
Proof.
  intros (Hid & Hgh & Hfn & Hpos & Hseq).
  unfold Schema.satisfied, Schema.primaryKey, Schema.uniqueGithubId,
    Schema.uniqueFullName, Schema.positiveCounts, Schema.sequenceAhead in *.
  destruct (upsertRepository_outcome now repo db)
    as [(e & -> & _) | [(existing & Hc & Hf & ->) | (Hc & Hf & Hn & ->)]];
    store_simpl.
  - repeat split; try done. eapply Forall_impl; [exact Hseq|]. intros r Hr.
    cbn beta in Hr. lia.
  - apply checkConstraints_None in Hc. split; [|done].
    change (map (touch now repo) (Store.repositories db))
      with (touch now repo <$> Store.repositories db).
    assert (Hsame : ∀ B (f : Store.RepoRow -> B),
              (∀ r, f (touch now repo r) = f r) ->
              f <$> (touch now repo <$> Store.repositories db)
              = f <$> Store.repositories db).
    { intros B f Hf'. rewrite <- list_fmap_compose. apply list_fmap_ext.
      intros i r _. apply Hf'. }
    rewrite (Hsame _ Store.id) by apply id_touch.
    rewrite (Hsame _ Store.github_id) by apply github_id_touch.
    rewrite (Hsame _ Store.full_name) by apply full_name_touch.
    repeat split; try done.
    + apply Forall_forall. intros r' Hr'.
      apply list_elem_of_fmap in Hr' as (r & -> & Hr).
      unfold touch. destruct (_ =? _); [exact Hc|].
      by eapply Forall_forall in Hpos.
    + apply Forall_forall. intros r' Hr'.
      apply list_elem_of_fmap in Hr' as (r & -> & Hr).
      rewrite id_touch. eapply Forall_forall in Hseq; [|exact Hr].
      cbn beta in Hseq. lia.
  - apply checkConstraints_None in Hc. apply conflicting_None in Hf.
    split; [|done]. rewrite !fmap_app. simpl.
    repeat split.
    + apply NoDup_app. split; [done|]. split; [|apply NoDup_singleton].
      intros i Hi ->%list_elem_of_singleton.
      apply list_elem_of_fmap in Hi as (r & Hri & Hr).
      eapply Forall_forall in Hseq; [|exact Hr]. cbn beta in Hseq. lia.
    + apply NoDup_app. split; [done|]. split; [|apply NoDup_singleton].
      intros g Hg ->%list_elem_of_singleton.
      apply list_elem_of_fmap in Hg as (r & Hrg & Hr).
      eapply Forall_forall in Hf; [|exact Hr]. by apply Hf.
    + apply NoDup_app. split; [done|]. split; [|apply NoDup_singleton].
      intros n Hin ->%list_elem_of_singleton. by apply Hn.
    + apply Forall_app. split; [done|]. by constructor.
    + apply Forall_app. split.
      * eapply Forall_impl; [exact Hseq|]. intros r Hr. cbn beta in Hr. lia.
      * constructor; [|constructor]. simpl. lia.
Qed.

(** The loop keeps the constraints and draws one id per snapshot it
    reaches, whether the snapshot is new or not. *)
Lemma saveEach_satisfied now repos : ∀ db c db1,
  saveEach now repos db = (c, db1) ->
  Schema.satisfied db ->
  Schema.satisfied db1
  ∧ (Store.repositories_id_seq db <= Store.repositories_id_seq db1
       <= Store.repositories_id_seq db + Z.of_nat (length repos))
  ∧ (c = Resolved ->
     Store.repositories_id_seq db1
     = Store.repositories_id_seq db + Z.of_nat (length repos))
  ∧ (∀ e, c = Rejected e ->
       Store.repositories_id_seq db < Store.repositories_id_seq db1
       ∧ (e = Store.CheckViolation "positive_stars"
          ∨ e = Store.CheckViolation "positive_forks"
          ∨ e = Store.UniqueViolation "repositories_full_name_key")).
Proof.
  induction repos as [|x repos IH]; intros db c db1 Hrun Hsat; simpl in Hrun.
  - inversion Hrun; subst. split; [exact Hsat|]. simpl.
    split; [lia|]. split; [intros _; lia|done].
  - destruct (upsertRepository_satisfied now x db Hsat) as [Hsat' Hseq'].
    destruct (upsertRepository_outcome now x db)
      as [(e & Hu & He) | [(existing & _ & _ & Hu) | (_ & _ & _ & Hu)]];
      rewrite Hu in Hrun, Hsat', Hseq'.
    + inversion Hrun; subst. store_simpl. rewrite length_cons.
      split; [exact Hsat'|]. split; [lia|]. split; [done|].
      intros e' [= <-]. split; [lia|exact He].
    + apply IH in Hrun as (Hs & Hb & Hr & Hj); [|exact Hsat'].
      store_simpl. rewrite length_cons. split; [exact Hs|]. split; [lia|].
      split; [intros Hc; rewrite (Hr Hc); lia|].
      intros e' He'. destruct (Hj _ He'). split; [lia|done].
    + apply IH in Hrun as (Hs & Hb & Hr & Hj); [|exact Hsat'].
      store_simpl. rewrite length_cons. split; [exact Hs|]. split; [lia|].
      split; [intros Hc; rewrite (Hr Hc); lia|].
      intros e' He'. destruct (Hj _ He'). split; [lia|done].
Qed.

Lemma batchSaveRepositories_satisfied now repos db :
  Schema.satisfied db -> Schema.satisfied (batchSaveRepositories now repos db).2.
Proof.
  intros Hsat. unfold batchSaveRepositories.
  destruct (saveEach now repos db) as [[|e] db1] eqn:Hrun;
    apply saveEach_satisfied in Hrun as (Hsat1 & Hseq & _); try done.
  destruct Hsat as (Hid & Hgh & Hfn & Hpos & Hahead).
  repeat split; try done.
  unfold Schema.sequenceAhead in *. store_simpl.
  eapply Forall_impl; [exact Hahead|]. intros r Hr. cbn beta in Hr. lia.
Qed.

Lemma persistPage_satisfied now repos db :
  Schema.satisfied db -> Schema.satisfied (persistPage now repos db).2.
Proof.
  intros Hsat. unfold persistPage. destruct repos as [|x repos]; [done|].
  pose proof (batchSaveRepositories_satisfied now (x :: repos) db Hsat) as H1.
  destruct (batchSaveRepositories now (x :: repos) db) as [[|e] db1]; exact H1.
Qed.

(** What a rejected batch leaves. *)
Lemma batchSaveRepositories_Rejected now repos db e db1 :
  batchSaveRepositories now repos db = (Rejected e, db1) ->
  ∃ working, saveEach now repos db = (Rejected e, working)
             ∧ db1 = Store.rollback db working.
Proof.
  unfold batchSaveRepositories.
  destruct (saveEach now repos db) as [[|e'] working]; [done|].
  intros [= -> <-]. by exists working.
Qed.

(** X1. The batch save keeps the constraints of the [repositories] table:
    when ids, upstream ids and full names are unique, star and fork
    counts are not negative and the id sequence is ahead of every stored
    id, the same holds after [batchSaveRepositories], whether it commits or
    rolls back. *)
Theorem batch_keeps_constraints
    (now : Z) (repos : list GitHubRepo) (db : Store.DB) :
  Schema.satisfied db ->
  Schema.satisfied (batchSaveRepositories now repos db).2.
Proof. apply batchSaveRepositories_satisfied. Qed.

Lemma empty_satisfied : Schema.satisfied Store.empty.
Proof. repeat split; constructor. Qed.

(** The theorem on the sample page saved into the empty schema. *)
Lemma batch_keeps_constraints_witness :
  Schema.satisfied Store.empty /\ Schema.satisfied SampleStore.saved.
Proof.
  split; [exact empty_satisfied|].
  exact (batch_keeps_constraints Sample.scenario_now SampleStore.page Store.empty
           empty_satisfied).
Defined.

(** X2. A batch rejected for the violation of a constraint is rolled back
    as a whole: every table is as it was before the call, whatever
    snapshots had been written before the failing one. Only the id
    sequence has moved, by at least one and at most the number of
    snapshots. *)
Theorem rejected_batch_rolls_back
    (now : Z) (repos : list GitHubRepo) (db db1 : Store.DB) (e : Store.DbError) :
  Schema.satisfied db ->
  batchSaveRepositories now repos db = (Rejected e, db1) ->
  Store.repositories db1 = Store.repositories db
  ∧ Store.repository_languages db1 = Store.repository_languages db
  ∧ Store.repository_stats db1 = Store.repository_stats db
  ∧ Store.repository_contributors db1 = Store.repository_contributors db
  ∧ Store.repository_commit_activity db1 = Store.repository_commit_activity db
  ∧ (Store.repositories_id_seq db < Store.repositories_id_seq db1
      <= Store.repositories_id_seq db + Z.of_nat (length repos)).
Proof.
  intros Hsat Hrun.
  apply batchSaveRepositories_Rejected in Hrun as (working & Hrun & ->).
  apply saveEach_satisfied in Hrun as (_ & Hseq & _ & Hrej); [|exact Hsat].
  destruct (Hrej e eq_refl) as [Hlt He]. store_simpl.
  repeat split; try done; lia.
Qed.

(** The theorem on a page where two upstream ids claim one full name: the
    first snapshot is not kept, and two ids are used up. *)
Lemma rejected_batch_rolls_back_witness :
  Schema.satisfied Store.empty
  /\ batchSaveRepositories Sample.scenario_now SampleCrawl.clashing Store.empty
     = (Rejected (Store.UniqueViolation "repositories_full_name_key"),
        Store.set_repositories [] 3 Store.empty)
  /\ Store.repositories (Store.set_repositories [] 3 Store.empty) = [].
Proof.
  assert (Hrun : batchSaveRepositories Sample.scenario_now SampleCrawl.clashing
                   Store.empty
                 = (Rejected (Store.UniqueViolation "repositories_full_name_key"),
                    Store.set_repositories [] 3 Store.empty))
    by (vm_compute; reflexivity).
  split; [exact empty_satisfied|]. split; [exact Hrun|].
  exact (proj1 (rejected_batch_rolls_back _ _ _ _ _ empty_satisfied Hrun)).
Defined.

End SchemaProperties.
(** ** The crawl of the search results *)

Section CrawlProperties.

Import GitHub Sync Crawl.

Local Open Scope Z_scope.

(** The loop, one iteration at a time. *)
Lemma fetchLoop_nil T cursor f db :
  fetchLoop T [] cursor f db
  = {| ending := if f <? T then StillRunning else Finished;
       store := db; fetchedTotal := f; events := [] |}.
Proof. simpl. by destruct (f <? T). Qed.

Lemma fetchLoop_done T script cursor f db :
  T <= f ->
  fetchLoop T script cursor f db
  = {| ending := Finished; store := db; fetchedTotal := f; events := [] |}.
Proof.
  intros Hf. destruct script; simpl;
    by destruct (Z.ltb_spec f T); [lia|].
Qed.

Lemma fetchLoop_cons T x rest cursor f db :
  f < T ->
  fetchLoop T (x :: rest) cursor f db
  = match iteration T x cursor f db with
    | Stop run => run
    | Continue done cursor' f' db' => after done (fetchLoop T rest cursor' f' db')
    end.
Proof.
  intros Hf. simpl. destruct (Z.ltb_spec f T); [|lia].
  unfold iteration. destruct (fetchBatchWithCursor _ _ _) as [message|batch].
  - by destruct (retryDelay _).
  - destruct (persistPage _ _ _) as [[|e] db1].
    + by destruct (_ || _).
    + by destruct (retryDelay _).
Qed.

Lemma saveEach_Rejected_error now repos : ∀ db e db1,
  saveEach now repos db = (Rejected e, db1) ->
  e = Store.CheckViolation "positive_stars"
  ∨ e = Store.CheckViolation "positive_forks"
  ∨ e = Store.UniqueViolation "repositories_full_name_key".
Proof.
  induction repos as [|x repos IH]; intros db e db1 Hrun; simpl in Hrun; [done|].
  destruct (upsertRepository_outcome now x db)
    as [(e' & Hu & He) | [(existing & _ & _ & Hu) | (_ & _ & _ & Hu)]];
    rewrite Hu in Hrun.
  - by inversion Hrun; subst.
  - by apply IH in Hrun.
  - by apply IH in Hrun.
Qed.

Lemma persistPage_Rejected now repos db e db1 :
  persistPage now repos db = (Rejected e, db1) ->
  batchSaveRepositories now repos db = (Rejected e, db1).
Proof.
  unfold persistPage. destruct repos as [|x repos]; [done|].
  by destruct (batchSaveRepositories now (x :: repos) db) as [[|e'] db'].
Qed.

(** No constraint violation reads like a rate limit or a gateway error. *)
Lemma persistPage_Rejected_rethrown now repos db e db1 :
  persistPage now repos db = (Rejected e, db1) ->
  retryDelay (errorMessage (SaveFailed e)) = None.
Proof.
  intros Hrun. apply persistPage_Rejected in Hrun.
  apply batchSaveRepositories_Rejected in Hrun as (working & Hrun & _).
  apply saveEach_Rejected_error in Hrun as [->|[->| ->]]; vm_compute; reflexivity.
Qed.

(** The five ways one iteration can go. *)
Lemma iteration_cases T x cursor f db :
  let remaining := Z.min batchSize (T - f) in
  let req := {| limit := remaining; Crawl.cursor := cursor |} in
  (∃ message ms,
      answer x req = SearchThrew message ∧ retryDelay message = Some ms
      ∧ (ms = 60000 ∨ ms = 10000)
      ∧ iteration T x cursor f db = Continue [Request req; Sleep ms] cursor f db)
  ∨ (∃ message,
      answer x req = SearchThrew message ∧ retryDelay message = None
      ∧ iteration T x cursor f db
        = Stop {| ending := Threw (SearchFailed message); store := db;
                  fetchedTotal := f; events := [Request req] |})
  ∨ (∃ s e db1,
      answer x req = SearchData s
      ∧ persistPage (clock x) (omap withDatabaseId (search_nodes s)) db
        = (Rejected e, db1)
      ∧ iteration T x cursor f db
        = Stop {| ending := Threw (SaveFailed e); store := db1;
                  fetchedTotal := f; events := [Request req] |})
  ∨ (∃ s db1,
      answer x req = SearchData s
      ∧ persistPage (clock x) (omap withDatabaseId (search_nodes s)) db
        = (Resolved, db1)
      ∧ (hasNextPage s = false
         ∨ Z.of_nat (length (omap withDatabaseId (search_nodes s))) < remaining)
      ∧ iteration T x cursor f db
        = Stop {| ending := Finished; store := db1;
                  fetchedTotal :=
                    f + Z.of_nat (length (omap withDatabaseId (search_nodes s)));
                  events := [Request req] |})
  ∨ (∃ s db1,
      answer x req = SearchData s
      ∧ persistPage (clock x) (omap withDatabaseId (search_nodes s)) db
        = (Resolved, db1)
      ∧ hasNextPage s = true
      ∧ remaining <= Z.of_nat (length (omap withDatabaseId (search_nodes s)))
      ∧ iteration T x cursor f db
        = Continue [Request req; Sleep 1000] (endCursor s)
            (f + Z.of_nat (length (omap withDatabaseId (search_nodes s)))) db1).
Proof.
  cbn zeta. unfold iteration, fetchBatchWithCursor.
  destruct (answer x _) as [message|s] eqn:Hanswer.
  - cbn [errorMessage]. destruct (retryDelay message) as [ms|] eqn:Hretry.
    + left. exists message, ms. repeat split; try done.
      unfold retryDelay in Hretry.
      destruct (rateLimited message); [left; congruence|].
      destruct (temporaryError message); [right; congruence|done].
    + right; left. by exists message.
  - cbn [repos hasNext nextCursor].
    destruct (persistPage _ _ _) as [[|e] db1] eqn:Hsave.
    + destruct (hasNextPage s) eqn:Hnext; simpl.
      * destruct (Z.ltb_spec
          (Z.of_nat (length (omap withDatabaseId (search_nodes s))))
          (Z.min batchSize (T - f))).
        -- do 3 right; left. exists s, db1. auto.
        -- do 4 right. exists s, db1. auto.
      * do 3 right; left. exists s, db1. auto.
    + rewrite (persistPage_Rejected_rethrown _ _ _ _ _ Hsave).
      do 2 right; left. by exists s, e, db1.
Qed.

(** An invariant of [persistPage] is an invariant of the crawl. *)
Lemma fetchLoop_invariant (P : Store.DB -> Prop) T :
  (∀ now page db, P db -> P (persistPage now page db).2) ->
  ∀ script cursor f db, P db -> P (store (fetchLoop T script cursor f db)).
Proof.
  intros Hpage. induction script as [|x rest IH]; intros cursor f db Hdb.
  - by rewrite fetchLoop_nil.
  - destruct (Z.lt_ge_cases f T) as [Hf|Hf]; [|by rewrite fetchLoop_done].
    rewrite fetchLoop_cons by done.
    destruct (iteration_cases T x cursor f db)
      as [(m & ms & _ & _ & _ & ->) | [(m & _ & _ & ->) | [(s & e & db1 & _ & Hp & ->)
         | [(s & db1 & _ & Hp & _ & ->) | (s & db1 & _ & Hp & _ & _ & ->)]]]];
      cbn [store after]; try (by apply IH); try done.
    + specialize (Hpage (clock x) (omap withDatabaseId (search_nodes s)) db Hdb).
      by rewrite Hp in Hpage.
    + specialize (Hpage (clock x) (omap withDatabaseId (search_nodes s)) db Hdb).
      by rewrite Hp in Hpage.
    + apply IH.
      specialize (Hpage (clock x) (omap withDatabaseId (search_nodes s)) db Hdb).
      by rewrite Hp in Hpage.
Qed.

Lemma paced_after minimum r ms es :
  paced minimum ([Request r; Sleep ms] ++ es) = (minimum <=? ms) && paced minimum es.
Proof. reflexivity. Qed.

Lemma requestsOf_after r ms es :
  requestsOf ([Request r; Sleep ms] ++ es) = r :: requestsOf es.
Proof. reflexivity. Qed.

Lemma fetchLoop_events T : ∀ script cursor f db,
  let run := fetchLoop T script cursor f db in
  paced 1000 (events run) = true
  ∧ (∀ req, req ∈ requestsOf (events run) ->
       1 <= limit req <= 20 ∧ limit req <= T - f)
  ∧ (∀ req, head (requestsOf (events run)) = Some req -> Crawl.cursor req = cursor)
  ∧ (length (requestsOf (events run)) <= length script)%nat
  ∧ f <= fetchedTotal run
  ∧ (∀ e, ending run = Threw e -> retryDelay (errorMessage e) = None).
Proof.
  cbn zeta. induction script as [|x rest IH]; intros cursor f db.
  { rewrite fetchLoop_nil. cbn.
    split; [done|]. split; [by intros req ?%elem_of_nil|].
    split; [done|]. split; [lia|]. split; [lia|].
    intros e. by destruct (f <? T). }
  destruct (Z.lt_ge_cases f T) as [Hf|Hf].
  2:{ rewrite fetchLoop_done by done. cbn.
      split; [done|]. split; [by intros req ?%elem_of_nil|].
      split; [done|]. split; [lia|]. split; [lia|done]. }
  rewrite fetchLoop_cons by done.
  assert (Hreq : 1 <= Z.min batchSize (T - f) <= 20 ∧ Z.min batchSize (T - f) <= T - f)
    by (unfold batchSize; lia).
  assert (Hone : ∀ (e : Ending) db' f',
    f <= f' ->
    (∀ err, e = Threw err -> retryDelay (errorMessage err) = None) ->
    let run := {| ending := e; store := db'; fetchedTotal := f';
                  events := [Request {| limit := Z.min batchSize (T - f);
                                        Crawl.cursor := cursor |}] |} in
    paced 1000 (events run) = true
    ∧ (∀ req, req ∈ requestsOf (events run) ->
         1 <= limit req <= 20 ∧ limit req <= T - f)
    ∧ (∀ req, head (requestsOf (events run)) = Some req -> Crawl.cursor req = cursor)
    ∧ (length (requestsOf (events run)) <= length (x :: rest))%nat
    ∧ f <= fetchedTotal run
    ∧ (∀ err, ending run = Threw err -> retryDelay (errorMessage err) = None)).
  { intros e db' f' Hf' He. cbn.
    split; [done|]. split; [by intros req ->%list_elem_of_singleton|].
    split; [by intros req [= <-]|]. split; [lia|]. split; [lia|exact He]. }
  assert (Hmore : ∀ ms cursor' f' db',
    f <= f' -> 1000 <= ms ->
    let rest_run := fetchLoop T rest cursor' f' db' in
    let run := after [Request {| limit := Z.min batchSize (T - f);
                                 Crawl.cursor := cursor |}; Sleep ms] rest_run in
    paced 1000 (events run) = true
    ∧ (∀ req, req ∈ requestsOf (events run) ->
         1 <= limit req <= 20 ∧ limit req <= T - f)
    ∧ (∀ req, head (requestsOf (events run)) = Some req -> Crawl.cursor req = cursor)
    ∧ (length (requestsOf (events run)) <= length (x :: rest))%nat
    ∧ f <= fetchedTotal run
    ∧ (∀ err, ending run = Threw err -> retryDelay (errorMessage err) = None)).
  { intros ms cursor' f' db' Hf' Hms. cbn zeta. cbn [events ending fetchedTotal after].
    destruct (IH cursor' f' db') as (Hpaced & Hlim & _ & Hlen & Hfetched & Hend).
    rewrite paced_after, Hpaced, requestsOf_after.
    split; [by destruct (Z.leb_spec 1000 ms); [|lia]|].
    split.
    { intros req [->|Hin]%elem_of_cons; [done|]. apply Hlim in Hin. lia. }
    split; [by intros req [= <-]|]. split; [cbn [length]; lia|].
    split; [lia|exact Hend]. }
  destruct (iteration_cases T x cursor f db)
    as [(m & ms & _ & Hretry & Hms & ->) | [(m & _ & Hretry & ->)
       | [(s & e & db1 & _ & Hp & ->)
       | [(s & db1 & _ & Hp & _ & ->) | (s & db1 & _ & Hp & _ & _ & ->)]]]].
  - apply Hmore; [lia|]. destruct Hms; lia.
  - apply Hone; [lia|]. by intros err [= <-].
  - apply Hone; [lia|]. intros err [= <-].
    by eapply persistPage_Rejected_rethrown.
  - apply Hone; [lia|done].
  - apply Hmore; lia.
Qed.

(** X3. The requests of a crawl. Whatever the upstream answers, every
    request asks for at least 1 and at most 20 repositories and never for
    more than the total limit; the first request carries no cursor; one
    request is sent per exchange at most; between two requests the loop
    waits at least one second; and the crawl is only ever rejected with an
    error that reads neither like a rate limit nor like a gateway error. *)
Theorem crawl_requests_paced
    (totalLimit : Z) (script : list Exchange) (db : Store.DB) :
  let run := fetchTopReposWithCursor totalLimit script db in
  paced GITHUB_REQUEST_DELAY_MS (events run) = true
  ∧ (∀ req, req ∈ requestsOf (events run) ->
       1 <= limit req <= batchSize ∧ limit req <= totalLimit)
  ∧ (∀ req, head (requestsOf (events run)) = Some req -> Crawl.cursor req = None)
  ∧ (length (requestsOf (events run)) <= length script)%nat
  ∧ (∀ e, ending run = Threw e -> retryDelay (errorMessage e) = None).
Proof.
  cbn zeta. unfold fetchTopReposWithCursor.
  destruct (fetchLoop_events totalLimit script None 0 db)
    as (Hpaced & Hlim & Hhead & Hlen & _ & Hend).
  split; [exact Hpaced|]. split; [|by repeat split].
  intros req Hreq. apply Hlim in Hreq. unfold batchSize. lia.
Qed.

(** *** How many snapshots a crawl takes *)

Lemma saveEach_length now repos : ∀ db c db1,
  saveEach now repos db = (c, db1) ->
  (length (Store.repositories db) <= length (Store.repositories db1)
   <= length (Store.repositories db) + length repos)%nat.
Proof.
  induction repos as [|x repos IH]; intros db c db1 Hrun; simpl in Hrun.
  - inversion Hrun; subst. lia.
  - destruct (upsertRepository_outcome now x db)
      as [(e & Hu & _) | [(existing & _ & _ & Hu) | (_ & _ & _ & Hu)]];
      rewrite Hu in Hrun.
    + inversion Hrun; subst. store_simpl. lia.
    + apply IH in Hrun. store_simpl. rewrite length_map in Hrun.
      rewrite length_cons. lia.
    + apply IH in Hrun. store_simpl. rewrite length_app in Hrun. simpl in Hrun.
      rewrite length_cons. lia.
Qed.

Lemma persistPage_length now repos db :
  (length (Store.repositories db)
   <= length (Store.repositories (persistPage now repos db).2)
   <= length (Store.repositories db) + length repos)%nat.
Proof.
  unfold persistPage. destruct repos as [|x repos]; [simpl; lia|].
  unfold batchSaveRepositories.
  destruct (saveEach now (x :: repos) db) as [[|e] db1] eqn:Hrun;
    apply saveEach_length in Hrun; store_simpl; [exact Hrun|lia].
Qed.

Lemma length_omap_le {A B} (f : A -> option B) (l : list A) :
  (length (omap f l) <= length l)%nat.
Proof.
  induction l as [|a l IH]; csimpl; [lia|]. destruct (f a); csimpl; lia.
Qed.

Lemma fetchLoop_bound T : ∀ script cursor f db,
  (∀ x, x ∈ script -> honoursLimit x) ->
  f <= T ->
  let run := fetchLoop T script cursor f db in
  f <= fetchedTotal run <= T
  ∧ Z.of_nat (length (Store.repositories db))
    <= Z.of_nat (length (Store.repositories (store run)))
    <= Z.of_nat (length (Store.repositories db)) + (fetchedTotal run - f).
Proof.
  cbn zeta. induction script as [|x rest IH]; intros cursor f db Hhon HfT.
  { rewrite fetchLoop_nil. cbn. lia. }
  destruct (Z.lt_ge_cases f T) as [Hf|Hf]; [|rewrite fetchLoop_done by done; cbn; lia].
  rewrite fetchLoop_cons by done.
  assert (Hx : honoursLimit x) by (apply Hhon; left).
  assert (Hrest : ∀ y, y ∈ rest -> honoursLimit y) by (intros y Hy; apply Hhon; by right).
  set (req := {| limit := Z.min batchSize (T - f); Crawl.cursor := cursor |}).
  assert (Hpage : ∀ s, answer x req = SearchData s ->
            0 <= Z.of_nat (length (omap withDatabaseId (search_nodes s))) <= T - f).
  { intros s Hs. specialize (Hx req). rewrite Hs in Hx.
    pose proof (length_omap_le withDatabaseId (search_nodes s)).
    unfold req, batchSize in Hx. cbn [limit] in Hx. lia. }
  destruct (iteration_cases T x cursor f db)
    as [(m & ms & _ & _ & _ & ->) | [(m & _ & _ & ->)
       | [(s & e & db1 & Hs & Hp & ->)
       | [(s & db1 & Hs & Hp & _ & ->) | (s & db1 & Hs & Hp & _ & _ & ->)]]]];
    cbn [store fetchedTotal after].
  - by apply IH.
  - lia.
  - apply persistPage_Rejected, batchSaveRepositories_Rejected in Hp
      as (working & _ & ->). store_simpl. lia.
  - apply Hpage in Hs.
    pose proof (persistPage_length (clock x)
                  (omap withDatabaseId (search_nodes s)) db) as Hlen.
    rewrite Hp in Hlen. cbn [snd] in Hlen. lia.
  - apply Hpage in Hs.
    pose proof (persistPage_length (clock x)
                  (omap withDatabaseId (search_nodes s)) db) as Hlen.
    rewrite Hp in Hlen. cbn [snd] in Hlen.
    edestruct IH as [H1 H2]; [exact Hrest| |split; [|split]];
      [|split; [|exact (proj2 H1)]|..]; try lia.
Qed.

(** X4. The total limit bounds the crawl. When no answer of the search
    endpoint carries more nodes than the request asked for, a crawl with a
    total limit that is not negative never counts more snapshots than the
    limit, and the [repositories] table grows by at most the number of
    snapshots counted. In particular a quick sync adds at most 300 rows. *)
Theorem crawl_respects_total_limit
    (totalLimit : Z) (script : list Exchange) (db : Store.DB) :
  (∀ x, x ∈ script -> honoursLimit x) ->
  0 <= totalLimit ->
  let run := fetchTopReposWithCursor totalLimit script db in
  0 <= fetchedTotal run <= totalLimit
  ∧ Z.of_nat (length (Store.repositories db))
    <= Z.of_nat (length (Store.repositories (store run)))
    <= Z.of_nat (length (Store.repositories db)) + fetchedTotal run.
Proof.
  intros Hhon Hlimit. cbn zeta. unfold fetchTopReposWithCursor.
  destruct (fetchLoop_bound totalLimit script None 0 db Hhon Hlimit) as [H1 H2].
  split; [exact H1|lia].
Qed.

(** *** Errors that are retried *)

Lemma transient_iteration T x cursor f db :
  transient x ->
  ∃ evs, iteration T x cursor f db = Continue evs cursor f db.
Proof.
  intros Hx.
  destruct (Hx {| limit := Z.min batchSize (T - f); Crawl.cursor := cursor |})
    as (message & Hanswer & [ms Hms]).
  unfold iteration, fetchBatchWithCursor. rewrite Hanswer. cbn [errorMessage].
  rewrite Hms. eauto.
Qed.

Lemma fetchLoop_transient T x script2 : ∀ script1 cursor f db,
  transient x ->
  let a := fetchLoop T (script1 ++ x :: script2) cursor f db in
  let b := fetchLoop T (script1 ++ script2) cursor f db in
  ending a = ending b ∧ store a = store b ∧ fetchedTotal a = fetchedTotal b.
Proof.
  cbn zeta. intros script1 cursor f db Hx. revert cursor f db.
  induction script1 as [|y script1 IH]; intros cursor f db.
  - rewrite !app_nil_l.
    destruct (Z.lt_ge_cases f T) as [Hf|Hf].
    + rewrite fetchLoop_cons by done.
      destruct (transient_iteration T x cursor f db Hx) as [evs ->]. done.
    + by rewrite !fetchLoop_done.
  - rewrite <- !app_comm_cons.
    destruct (Z.lt_ge_cases f T) as [Hf|Hf]; [|by rewrite !fetchLoop_done].
    rewrite !fetchLoop_cons by done.
    destruct (iteration T y cursor f db) as [run|evs cursor' f' db']; [done|].
    cbn [after ending store fetchedTotal]. apply IH.
Qed.

(** X5. An error that is retried leaves no trace in the result. If an
    exchange fails with a rate-limit or gateway error whatever is asked,
    the crawl ends the same way, with the same store and the same count,
    as if that exchange had not taken place. *)
Theorem transient_failure_is_retried
    (totalLimit : Z) (script1 script2 : list Exchange) (x : Exchange) (db : Store.DB) :
  transient x ->
  let disturbed := fetchTopReposWithCursor totalLimit (script1 ++ x :: script2) db in
  let smooth := fetchTopReposWithCursor totalLimit (script1 ++ script2) db in
  ending disturbed = ending smooth
  ∧ store disturbed = store smooth
  ∧ fetchedTotal disturbed = fetchedTotal smooth.
Proof. intros Hx. by apply fetchLoop_transient. Qed.

(** *** Stored rows during a crawl *)

Lemma keepsFromExisting_refl r : keepsFromExisting r r.
Proof. unfold keepsFromExisting. repeat split. Qed.

Lemma keepsFromExisting_trans r1 r2 r3 :
  keepsFromExisting r1 r2 -> keepsFromExisting r2 r3 -> keepsFromExisting r1 r3.
Proof. unfold keepsFromExisting. intuition congruence. Qed.

Lemma keepsFromExisting_resynced now repos r :
  keepsFromExisting r (resynced now repos r).
Proof.
  unfold resynced. destruct (lastSnapshot _ _); [|apply keepsFromExisting_refl].
  unfold keepsFromExisting. repeat split.
Qed.

Lemma KeepsRows_refl db : KeepsRows db db.
Proof. intros old Hold. exists old. split; [done|apply keepsFromExisting_refl]. Qed.

Lemma KeepsRows_trans db1 db2 db3 :
  KeepsRows db1 db2 -> KeepsRows db2 db3 -> KeepsRows db1 db3.
Proof.
  intros H12 H23 old Hold. destruct (H12 old Hold) as (r & Hr & Hk).
  destruct (H23 r) as (r' & Hr' & Hk').
  { destruct Hk as (_ & -> & _). exact Hr. }
  exists r'. split; [|by eapply keepsFromExisting_trans].
  destruct Hk as (_ & Hg & _). by rewrite <- Hg.
Qed.

Lemma persistPage_KeepsRows now repos db : KeepsRows db (persistPage now repos db).2.
Proof.
  unfold persistPage. destruct repos as [|x repos]; [apply KeepsRows_refl|].
  unfold batchSaveRepositories, calculateAndSaveStats.
  destruct (saveEach now (x :: repos) db) as [[|e] db1] eqn:Hrun; store_simpl.
  - intros old Hold. exists (resynced now (x :: repos) old). store_simpl.
    split; [by eapply saveEach_conflicting|apply keepsFromExisting_resynced].
  - intros old Hold. exists old. store_simpl.
    split; [done|apply keepsFromExisting_refl].
Qed.

(** X6. A crawl never loses a stored repository. However the crawl ends
    (finished, rejected, or still retrying), every repository that was
    stored before it is still stored under its upstream id, with the same
    id, full name, owner, URLs, licence, creation date and the other
    columns that the conflict clause does not list. *)
Theorem crawl_keeps_stored_rows
    (totalLimit : Z) (script : list Exchange) (db : Store.DB) (old : Store.RepoRow) :
  conflicting (Store.github_id old) (Store.repositories db) = Some old ->
  ∃ r, conflicting (Store.github_id old)
         (Store.repositories (store (fetchTopReposWithCursor totalLimit script db)))
       = Some r
       ∧ keepsFromExisting old r.
Proof.
  revert old. change (KeepsRows db (store (fetchTopReposWithCursor totalLimit script db))).
  unfold fetchTopReposWithCursor.
  apply (fetchLoop_invariant (KeepsRows db)); [|apply KeepsRows_refl].
  intros now page db' Hdb'. eapply KeepsRows_trans; [exact Hdb'|].
  apply persistPage_KeepsRows.
Qed.

(** The upstream ids a page adds are ids of its snapshots. *)
Lemma persistPage_github_ids now repos db (P : Z -> Prop) :
  Forall (λ repo, P (databaseId repo)) repos ->
  Forall (λ r, P (Store.github_id r)) (Store.repositories db) ->
  Forall (λ r, P (Store.github_id r)) (Store.repositories (persistPage now repos db).2).
Proof.
  intros Hrepos Hrows. unfold persistPage. destruct repos as [|x repos]; [done|].
  unfold batchSaveRepositories, calculateAndSaveStats.
  destruct (saveEach now (x :: repos) db) as [[|e] db1] eqn:Hrun; store_simpl;
    [|done].
  apply saveEach_rows in Hrun as (added & -> & Hadded).
  apply Forall_app. split.
  - apply Forall_forall. intros r' Hr'.
    apply list_elem_of_fmap in Hr' as (r & -> & Hr).
    rewrite github_id_resynced. by eapply Forall_forall in Hrows.
  - apply Forall_forall. intros r Hr.
    eapply Forall_forall in Hadded; [|exact Hr].
    destruct Hadded as (repo & Hlast & _).
    apply lastSnapshot_Some in Hlast as [Hin <-].
    by eapply Forall_forall in Hrepos.
Qed.

Lemma withDatabaseId_nonzero nodes :
  Forall (λ repo, databaseId repo ≠ 0) (omap withDatabaseId nodes).
Proof.
  induction nodes as [|[repo|] nodes IH]; csimpl; [done| |done].
  destruct (Z.eqb_spec (databaseId repo) 0); csimpl; [done|by constructor].
Qed.

Lemma fetchLoop_github_ids T : ∀ script cursor f db,
  Forall (λ r, Store.github_id r ≠ 0) (Store.repositories db) ->
  Forall (λ r, Store.github_id r ≠ 0)
         (Store.repositories (store (fetchLoop T script cursor f db))).
Proof.
  induction script as [|x rest IH]; intros cursor f db Hdb.
  - by rewrite fetchLoop_nil.
  - destruct (Z.lt_ge_cases f T) as [Hf|Hf]; [|by rewrite fetchLoop_done].
    rewrite fetchLoop_cons by done.
    assert (Hpage : ∀ s db1,
      persistPage (clock x) (omap withDatabaseId (search_nodes s)) db = (Resolved, db1) ->
      Forall (λ r, Store.github_id r ≠ 0) (Store.repositories db1)).
    { intros s db1 Hp.
      pose proof (persistPage_github_ids (clock x)
        (omap withDatabaseId (search_nodes s)) db (λ g, g ≠ 0)
        (withDatabaseId_nonzero _) Hdb) as H.
      by rewrite Hp in H. }
    destruct (iteration_cases T x cursor f db)
      as [(m & ms & _ & _ & _ & ->) | [(m & _ & _ & ->) | [(s & e & db1 & _ & Hp & ->)
         | [(s & db1 & _ & Hp & _ & ->) | (s & db1 & _ & Hp & _ & _ & ->)]]]];
      cbn [store after]; try (by apply IH); try done.
    + apply persistPage_Rejected, batchSaveRepositories_Rejected in Hp
        as (working & _ & ->). by store_simpl.
    + by eapply Hpage.
    + apply IH. by eapply Hpage.
Qed.

(** X7. A crawl keeps the constraints of the [repositories] table, and it
    never stores a repository under the upstream id 0: nodes without a
    usable [databaseId] are dropped before anything is saved. *)
Theorem crawl_keeps_constraints
    (totalLimit : Z) (script : list Exchange) (db : Store.DB) :
  Schema.satisfied db ->
  Forall (λ r, Store.github_id r ≠ 0) (Store.repositories db) ->
  let db' := store (fetchTopReposWithCursor totalLimit script db) in
  Schema.satisfied db'
  ∧ Forall (λ r, Store.github_id r ≠ 0) (Store.repositories db').
Proof.
  intros Hsat Hids. cbn zeta. unfold fetchTopReposWithCursor. split.
  - apply (fetchLoop_invariant Schema.satisfied); [|exact Hsat].
    intros now page db'. apply persistPage_satisfied.
  - by apply fetchLoop_github_ids.
Qed.

(** X8. A page that violates a constraint ends the crawl. In any state of
    the loop, when the save of the received page is rejected, the crawl is
    rejected with that error after this one request, without waiting or
    asking again; no row of the page is kept (every table is as before the
    page, the stats included), while the pages saved before it stay. *)
Theorem rejected_page_ends_crawl
    (totalLimit : Z) (x : Exchange) (rest : list Exchange) (cursor : option string)
    (fetched : Z) (db db1 : Store.DB) (s : Search) (e : Store.DbError) :
  let req := {| limit := Z.min batchSize (totalLimit - fetched);
                Crawl.cursor := cursor |} in
  fetched < totalLimit ->
  answer x req = SearchData s ->
  persistPage (clock x) (omap withDatabaseId (search_nodes s)) db = (Rejected e, db1) ->
  fetchLoop totalLimit (x :: rest) cursor fetched db
  = {| ending := Threw (SaveFailed e); store := db1;
       fetchedTotal := fetched; events := [Request req] |}
  ∧ Store.repositories db1 = Store.repositories db
  ∧ Store.repository_languages db1 = Store.repository_languages db
  ∧ Store.repository_stats db1 = Store.repository_stats db.
Proof.
  cbn zeta. intros Hf Hanswer Hsave.
  rewrite fetchLoop_cons by done.
  unfold iteration, fetchBatchWithCursor. rewrite Hanswer. cbn [repos].
  rewrite Hsave, (persistPage_Rejected_rethrown _ _ _ _ _ Hsave).
  split; [done|].
  apply persistPage_Rejected, batchSaveRepositories_Rejected in Hsave
    as (working & _ & ->). by store_simpl.
Qed.

(** X9. One unusable node ends the crawl. When a page that is no larger
    than asked holds a node that is null or has no [databaseId], the
    usable nodes are fewer than the request asked for; if they are saved,
    the crawl finishes after this page, although the answer may say that
    more pages follow. *)
Theorem unusable_node_ends_crawl
    (totalLimit : Z) (x : Exchange) (rest : list Exchange) (cursor : option string)
    (fetched : Z) (db db1 : Store.DB) (s : Search) :
  let req := {| limit := Z.min batchSize (totalLimit - fetched);
                Crawl.cursor := cursor |} in
  let usable := omap withDatabaseId (search_nodes s) in
  fetched < totalLimit ->
  answer x req = SearchData s ->
  Z.of_nat (length (search_nodes s)) <= limit req ->
  (∃ node, node ∈ search_nodes s ∧ withDatabaseId node = None) ->
  persistPage (clock x) usable db = (Resolved, db1) ->
  fetchLoop totalLimit (x :: rest) cursor fetched db
  = {| ending := Finished; store := db1;
       fetchedTotal := fetched + Z.of_nat (length usable);
       events := [Request req] |}.
Proof.
  cbn zeta. intros Hf Hanswer Hlen (node & Hnode & Hnone) Hsave.
  rewrite fetchLoop_cons by done.
  unfold iteration, fetchBatchWithCursor. rewrite Hanswer. cbn [repos hasNext].
  rewrite Hsave.
  assert (Hshort : (length (omap withDatabaseId (search_nodes s))
                    < length (search_nodes s))%nat).
  { clear -Hnode Hnone. induction Hnode as [node l|node y l Hin IH]; csimpl.
    - rewrite Hnone. pose proof (length_omap_le withDatabaseId l). lia.
    - try specialize (IH Hnone). destruct (withDatabaseId y); csimpl; lia. }
  cbn [limit] in Hlen.
  destruct (Z.ltb_spec (Z.of_nat (length (omap withDatabaseId (search_nodes s))))
              (Z.min batchSize (totalLimit - fetched))) as [_|Hge]; [|lia].
  by rewrite orb_true_r.
Qed.

(** *** The theorems on sample scripts *)

Lemma sample_honoursLimit :
  ∀ x, x ∈ [SampleCrawl.throttled; SampleCrawl.serving] -> honoursLimit x.
Proof.
  intros x [->|[->|[]%elem_of_nil]%elem_of_cons]%elem_of_cons req Hreq.
  - exact I.
  - cbn. rewrite length_take. lia.
Qed.

(** A quick sync against an upstream that first fails on the rate limit
    and then serves its three results. *)
Lemma crawl_respects_total_limit_witness :
  (∀ x, x ∈ [SampleCrawl.throttled; SampleCrawl.serving] -> honoursLimit x)
  /\ 0 <= 300
  /\ 0 <= fetchedTotal (syncQuick [SampleCrawl.throttled; SampleCrawl.serving]
                          Store.empty) <= 300.
Proof.
  split; [exact sample_honoursLimit|]. split; [lia|].
  exact (proj1 (crawl_respects_total_limit 300
                  [SampleCrawl.throttled; SampleCrawl.serving] Store.empty
                  sample_honoursLimit ltac:(lia))).
Defined.

Lemma throttled_transient : transient SampleCrawl.throttled.
Proof. intros req. eexists. split; [reflexivity|]. vm_compute. eauto. Qed.

(** A quick sync with and without a rate-limit failure before the page. *)
Lemma transient_failure_is_retried_witness :
  transient SampleCrawl.throttled
  /\ store (syncQuick [SampleCrawl.throttled; SampleCrawl.serving] Store.empty)
     = store (syncQuick [SampleCrawl.serving] Store.empty).
Proof.
  split; [exact throttled_transient|].
  exact (proj1 (proj2 (transient_failure_is_retried 300 [] [SampleCrawl.serving]
                         SampleCrawl.throttled Store.empty throttled_transient))).
Defined.

(** The scenario repository, once saved, through a later quick sync. *)
Lemma crawl_keeps_stored_rows_witness :
  conflicting (Store.github_id (excluded Sample.scenario_now 1 Sample.scenario_repo))
    (Store.repositories SampleStore.saved)
  = Some (excluded Sample.scenario_now 1 Sample.scenario_repo)
  /\ ∃ r, conflicting (databaseId Sample.scenario_repo)
            (Store.repositories
               (store (syncQuick [SampleCrawl.throttled; SampleCrawl.serving]
                         SampleStore.saved)))
          = Some r
          ∧ keepsFromExisting (excluded Sample.scenario_now 1 Sample.scenario_repo) r.
Proof.
  assert (Hold : conflicting
            (Store.github_id (excluded Sample.scenario_now 1 Sample.scenario_repo))
            (Store.repositories SampleStore.saved)
          = Some (excluded Sample.scenario_now 1 Sample.scenario_repo))
    by (vm_compute; reflexivity).
  split; [exact Hold|].
  exact (crawl_keeps_stored_rows 300 [SampleCrawl.throttled; SampleCrawl.serving]
           SampleStore.saved _ Hold).
Defined.

(** A quick sync into the empty schema. *)
Lemma crawl_keeps_constraints_witness :
  Schema.satisfied Store.empty
  /\ Forall (λ r, Store.github_id r ≠ 0) (Store.repositories Store.empty)
  /\ Schema.satisfied
       (store (syncQuick [SampleCrawl.throttled; SampleCrawl.serving] Store.empty)).
Proof.
  split; [exact empty_satisfied|]. split; [constructor|].
  exact (proj1 (crawl_keeps_constraints 300
                  [SampleCrawl.throttled; SampleCrawl.serving] Store.empty
                  empty_satisfied (Forall_nil_2 _))).
Defined.

Lemma clashing_page_rejected :
  persistPage Sample.scenario_now SampleCrawl.clashing Store.empty
  = (Rejected (Store.UniqueViolation "repositories_full_name_key"),
     Store.set_repositories [] 3 Store.empty).
Proof. vm_compute. reflexivity. Qed.

(** A quick sync that receives the clashing page first. *)
Lemma rejected_page_ends_crawl_witness :
  0 < 300
  /\ persistPage Sample.scenario_now SampleCrawl.clashing Store.empty
     = (Rejected (Store.UniqueViolation "repositories_full_name_key"),
        Store.set_repositories [] 3 Store.empty)
  /\ ending (syncQuick [SampleCrawl.servingClash; SampleCrawl.serving] Store.empty)
     = Threw (SaveFailed (Store.UniqueViolation "repositories_full_name_key")).
Proof.
  split; [lia|]. split; [exact clashing_page_rejected|].
  exact (f_equal ending
           (proj1 (rejected_page_ends_crawl 300 SampleCrawl.servingClash
                     [SampleCrawl.serving] None 0 Store.empty _ _ _
                     ltac:(lia) eq_refl clashing_page_rejected))).
Defined.

(** A quick sync whose first page holds a null node between two
    repositories: it ends there, though more pages were announced. *)
Lemma unusable_node_ends_crawl_witness :
  0 < 300
  /\ (∃ node, node ∈ SampleCrawl.results ∧ withDatabaseId node = None)
  /\ persistPage Sample.scenario_now SampleStore.page Store.empty
     = (Resolved, SampleStore.synced)
  /\ syncQuick [SampleCrawl.serving; SampleCrawl.throttled] Store.empty
     = {| ending := Finished; store := SampleStore.synced; fetchedTotal := 2;
          events := [Request {| limit := 20; Crawl.cursor := None |}] |}.
Proof.
  assert (Hnode : ∃ node, node ∈ SampleCrawl.results ∧ withDatabaseId node = None).
  { exists None. split; [|reflexivity]. right. left. }
  split; [lia|]. split; [exact Hnode|]. split; [exact sample_page_persisted|].
  exact (unusable_node_ends_crawl 300 SampleCrawl.serving [SampleCrawl.throttled]
           None 0 Store.empty SampleStore.synced
           {| search_nodes := SampleCrawl.results;
              endCursor := Some "Y3Vyc29yOjM="%string;
              hasNextPage := true |}
           ltac:(lia) eq_refl ltac:(by vm_compute) Hnode sample_page_persisted).
Defined.

End CrawlProperties.
(** ** Stats and languages under the sync service *)

Section PersistedProperties.

Import GitHub Sync Persisted.

Local Open Scope Z_scope.







(** *** The discriminator through a sync *)

Lemma KeepsDiscriminators_refl db : KeepsDiscriminators db db.
Proof. intros k. destruct (_ !! k) as [old|] eqn:Hk; [eauto|done]. Qed.

Lemma statsStep_discriminators now rows db0 stats repo :
  (∀ k, match Store.repository_stats db0 !! k with
        | Some old =>
            ∃ new, stats !! k = Some new
                   ∧ Store.contributors_data_type new
                     = Store.contributors_data_type old
        | None =>
            ∀ new, stats !! k = Some new ->
                   Store.contributors_data_type new = "all_time"%string
        end) ->
  ∀ k, match Store.repository_stats db0 !! k with
       | Some old =>
           ∃ new, statsStep now rows stats repo !! k = Some new
                  ∧ Store.contributors_data_type new
                    = Store.contributors_data_type old
       | None =>
           ∀ new, statsStep now rows stats repo !! k = Some new ->
                  Store.contributors_data_type new = "all_time"%string
       end.
Proof.
  intros Hinv k. specialize (Hinv k). rewrite statsStep_lookup. unfold statsAt.
  destruct (conflicting _ _) as [r|]; [|exact Hinv].
  case_decide; [|exact Hinv].
  destruct (Store.repository_stats db0 !! k) as [old|].
  - destruct Hinv as (cur & -> & Hcur). eexists. split; [reflexivity|exact Hcur].
  - intros new [= <-]. cbn. destruct (stats !! k) as [cur|] eqn:Hcur; [|done].
    by apply Hinv.
Qed.

Lemma persistPage_KeepsDiscriminators now repos db0 db :
  KeepsDiscriminators db0 db -> KeepsDiscriminators db0 (persistPage now repos db).2.
Proof.
  intros Hinv. unfold persistPage. destruct repos as [|x repos]; [done|].
  unfold batchSaveRepositories, calculateAndSaveStats.
  destruct (saveEach now (x :: repos) db) as [[|e] dbA] eqn:Hrun.
  - destruct (saveEach_frame _ _ _ _ _ Hrun) as (Hstats & _).
    unfold KeepsDiscriminators. store_simpl. rewrite statsEach_fold, Hstats.
    clear Hrun Hstats. revert Hinv. unfold KeepsDiscriminators.
    generalize (Store.repository_stats db) as stats.
    induction (x :: repos) as [|y l IH]; intros stats Hinv; [exact Hinv|].
    cbn [fold_left]. apply IH. by apply statsStep_discriminators.
  - unfold KeepsDiscriminators. store_simpl. exact Hinv.
Qed.

(** X26. A sync never resets the discriminator. After a crawl, however it
    ends, every stats row that was stored before is still stored with the
    [contributors_data_type] it had (so a list marked [recent] by the
    worker stays marked), and every stats row the crawl created carries
    [all_time]. *)
Theorem crawl_keeps_discriminator
    (totalLimit : Z) (script : list Crawl.Exchange) (db : Store.DB) (k : Z) :
  let db' := Crawl.store (Crawl.fetchTopReposWithCursor totalLimit script db) in
  (∀ old, Store.repository_stats db !! k = Some old ->
     ∃ new, Store.repository_stats db' !! k = Some new
            ∧ Store.contributors_data_type new = Store.contributors_data_type old)
  ∧ (Store.repository_stats db !! k = None ->
     ∀ new, Store.repository_stats db' !! k = Some new ->
            Store.contributors_data_type new = "all_time"%string).
Proof.
  cbn zeta.
  assert (H : KeepsDiscriminators db
                (Crawl.store (Crawl.fetchTopReposWithCursor totalLimit script db))).
  { unfold Crawl.fetchTopReposWithCursor.
    apply (fetchLoop_invariant (KeepsDiscriminators db));
      [|apply KeepsDiscriminators_refl].
    intros now page db'. apply persistPage_KeepsDiscriminators. }
  specialize (H k). split.
  - intros old Hold. by rewrite Hold in H.
  - intros Hnone. by rewrite Hnone in H.
Qed.

(** *** Languages *)

Lemma lastEdge_snoc name es e :
  lastEdge name (es ++ [e])
  = if String.eqb (node_name e) name then Some e else lastEdge name es.
Proof.
  unfold lastEdge. rewrite List.filter_app. simpl.
  destruct (String.eqb _ _); [by rewrite last_snoc|by rewrite app_nil_r].
Qed.

Lemma languagesFold_lookup rid l es name :
  fold_left (insertLanguage rid l) es ∅ !! (rid, name)
  = languageRow l <$> lastEdge name es.
Proof.
  induction es as [|e es IH] using rev_ind; [done|].
  rewrite fold_left_app, lastEdge_snoc. cbn [fold_left]. unfold insertLanguage at 1.
  destruct (String.eqb_spec (node_name e) name) as [->|Hne].
  - by rewrite lookup_insert_eq.
  - rewrite lookup_insert_ne by congruence. exact IH.
Qed.

(** X27. The languages of a snapshot replace the stored ones, unless it
    has none. A snapshot without a language list, or with an empty one,
    leaves the stored languages of its repository as they are; a snapshot
    with a non-empty list of edges the table can hold replaces them all by
    one row per language name, with the byte count of the last edge with
    that name, and touches no other repository. *)
Theorem languages_replaced_or_kept
    (repoId : Z) (repo : GitHubRepo) (m : gmap (Z * string) Store.LanguageRow) :
  match languages repo with
  | None => saveLanguages repoId repo m = m
  | Some l =>
      (edges l = [] -> saveLanguages repoId repo m = m)
      ∧ (edges l ≠ [] ->
         Forall (storableEdge l) (edges l) ->
         (∀ name, Store.bytes_count <$> saveLanguages repoId repo m !! (repoId, name)
                  = edge_size <$> lastEdge name (edges l))
         ∧ (∀ r name, r ≠ repoId ->
              saveLanguages repoId repo m !! (r, name) = m !! (r, name)))
  end.
Proof.
  unfold saveLanguages. destruct (languages repo) as [l|]; [|done].
  split; [by intros ->|].
  intros Hne _. destruct (edges l) as [|e es] eqn:He; [done|]. rewrite <- He.
  split.
  - intros name. rewrite insertLanguage_fold_lookup, decide_True by done.
    rewrite languagesFold_lookup, deleteWhereRepository_lookup_eq.
    by destruct (lastEdge name (edges l)).
  - intros r name Hr. rewrite insertLanguage_fold_lookup, decide_False by done.
    by apply deleteWhereRepository_lookup_ne.
Qed.

End PersistedProperties.
(** ** Enrichment worker: the saved list and the jobs *)

Section JobProperties.

Import Worker Jobs.

Local Open Scope Z_scope.

(** *** The insert loop, without assumptions on the array *)

Lemma firstWithId_cons g c cs :
  firstWithId g (c :: cs)
  = if bool_decide (contributorKey c = Some g) then Some c else firstWithId g cs.
Proof. reflexivity. Qed.

Lemma lastWithId_cons g c cs :
  lastWithId g (c :: cs)
  = match lastWithId g cs with
    | Some l => Some l
    | None => if bool_decide (contributorKey c = Some g) then Some c else None
    end.
Proof.
  unfold lastWithId. simpl. destruct (bool_decide _).
  - by rewrite last_cons.
  - by destruct (last _).
Qed.

Lemma lastWithId_first g cs l :
  lastWithId g cs = Some l -> is_Some (firstWithId g cs).
Proof.
  induction cs as [|c cs IH]; [done|]. rewrite lastWithId_cons, firstWithId_cons.
  destruct (bool_decide _); [eauto|]. destruct (lastWithId g cs); [eauto|done].
Qed.

Lemma lastWithId_Some g cs l :
  lastWithId g cs = Some l -> l ∈ cs ∧ contributorKey l = Some g.
Proof.
  unfold lastWithId. intros H. apply last_Some_elem_of in H.
  apply list_elem_of_In, filter_In in H as [Hin Hg].
  split; [by apply list_elem_of_In | by apply bool_decide_eq_true in Hg].
Qed.

Lemma lastWithId_None g cs :
  lastWithId g cs = None -> ∀ c, c ∈ cs -> contributorKey c ≠ Some g.
Proof.
  induction cs as [|c cs IH]; intros Hlast c' Hc'; [by apply elem_of_nil in Hc'|].
  rewrite lastWithId_cons in Hlast.
  destruct (lastWithId g cs); [done|]. case_bool_decide; [done|].
  apply elem_of_cons in Hc' as [->|Hc']; [done|by apply IH].
Qed.

Lemma insertContributors_general now rid ft cs : ∀ m m',
  insertContributors now rid ft cs m = inr m' ->
  (∀ r g, r ≠ rid -> m' !! (r, g) = m !! (r, g))
  ∧ (∀ g, m' !! (rid, g)
          = match lastWithId g (members cs) with
            | None => m !! (rid, g)
            | Some l =>
                Some (contributorConflictUpdate now (contributorRow now ft l)
                        match m !! (rid, g) with
                        | Some old => old
                        | None =>
                            match firstWithId g (members cs) with
                            | Some f => contributorRow now ft f
                            | None => contributorRow now ft l
                            end
                        end)
            end).
Proof.
  induction cs as [|[c|] cs IH]; intros m m' Hrun; simpl in Hrun.
  - inversion Hrun; subst. split; [done|]. intros g. reflexivity.
  - rewrite members_cons_Some.
    destruct (truthyString (login c)) eqn:Hlogin; [|by apply IH].
    unfold insertContributor in Hrun.
    destruct (contributorKey c) as [g0|] eqn:Hkey; [|discriminate].
    cbn zeta in Hrun.
    set (m1 := match m !! (rid, g0) with
               | Some old =>
                   <[(rid, g0) := contributorConflictUpdate now
                                    (contributorRow now ft c) old]> m
               | None => <[(rid, g0) := contributorRow now ft c]> m
               end).
    assert (Hrun1 : insertContributors now rid ft cs m1 = inr m').
    { unfold m1. by destruct (m !! (rid, g0)). }
    apply IH in Hrun1 as [Hother Hin]. split.
    + intros r g Hr. rewrite Hother by done. unfold m1.
      destruct (m !! (rid, g0)); by rewrite lookup_insert_ne by congruence.
    + intros g. rewrite Hin, lastWithId_cons, firstWithId_cons, Hkey.
      destruct (decide (g0 = g)) as [->|Hne].
      * rewrite !bool_decide_eq_true_2 by done.
        assert (Hm1 : m1 !! (rid, g)
                      = Some match m !! (rid, g) with
                             | Some old => contributorConflictUpdate now
                                             (contributorRow now ft c) old
                             | None => contributorRow now ft c
                             end).
        { unfold m1. destruct (m !! (rid, g)); by rewrite lookup_insert_eq. }
        rewrite Hm1. destruct (lastWithId g (members cs)); by destruct (m !! (rid, g)).
      * rewrite !bool_decide_eq_false_2 by congruence.
        assert (Hm1 : m1 !! (rid, g) = m !! (rid, g)).
        { unfold m1. destruct (m !! (rid, g0)); by rewrite lookup_insert_ne by congruence. }
        rewrite Hm1. by destruct (lastWithId g (members cs)).
  - rewrite members_cons_None. by apply IH.
Qed.

(** The loop fails exactly when a member has no usable id, whatever is
    stored. *)
Lemma insertContributors_inl now rid ft cs : ∀ m e,
  insertContributors now rid ft cs m = inl e ->
  e = Store.NotNullViolation "github_id"
  ∧ ∃ c, c ∈ members cs ∧ contributorKey c = None.
Proof.
  induction cs as [|[c|] cs IH]; intros m e Hrun; simpl in Hrun; [done| |].
  - rewrite members_cons_Some.
    destruct (truthyString (login c)) eqn:Hlogin; [|by apply IH in Hrun].
    unfold insertContributor in Hrun.
    destruct (contributorKey c) as [g0|] eqn:Hkey.
    + cbn zeta in Hrun.
      assert (∃ m1, insertContributors now rid ft cs m1 = inl e) as [m1 Hrun1].
      { destruct (m !! (rid, g0)); eauto. }
      apply IH in Hrun1 as [-> (c' & Hc' & Hk')]. split; [done|].
      exists c'. split; [by right|done].
    + inversion Hrun; subst. split; [done|]. exists c. split; [left|done].
  - rewrite members_cons_None. by apply IH in Hrun.
Qed.

Lemma insertContributors_inr now rid ft cs : ∀ m m',
  insertContributors now rid ft cs m = inr m' ->
  ∀ c, c ∈ members cs -> is_Some (contributorKey c).
Proof.
  induction cs as [|[c|] cs IH]; intros m m' Hrun c' Hc'; simpl in Hrun.
  - by apply elem_of_nil in Hc'.
  - rewrite members_cons_Some in Hc'.
    destruct (truthyString (login c)) eqn:Hlogin; [|by eapply IH].
    unfold insertContributor in Hrun.
    destruct (contributorKey c) as [g0|] eqn:Hkey; [|discriminate].
    cbn zeta in Hrun.
    apply elem_of_cons in Hc' as [->|Hc']; [by rewrite Hkey|].
    destruct (m !! (rid, g0)); by eapply IH.
  - rewrite members_cons_None in Hc'. by eapply IH.
Qed.

Lemma insertContributors_total now rid ft cs m1 m2 :
  match insertContributors now rid ft cs m1, insertContributors now rid ft cs m2 with
  | inl e1, inl e2 => e1 = e2
  | inr _, inr _ => True
  | _, _ => False
  end.
Proof.
  destruct (insertContributors now rid ft cs m1) as [e1|m1'] eqn:H1,
           (insertContributors now rid ft cs m2) as [e2|m2'] eqn:H2.
  - apply insertContributors_inl in H1 as [-> _].
    by apply insertContributors_inl in H2 as [-> _].
  - apply insertContributors_inl in H1 as [_ (c & Hc & Hk)].
    destruct (insertContributors_inr _ _ _ _ _ _ H2 c Hc) as [g Hg]. congruence.
  - apply insertContributors_inl in H2 as [_ (c & Hc & Hk)].
    destruct (insertContributors_inr _ _ _ _ _ _ H1 c Hc) as [g Hg]. congruence.
  - done.
Qed.

(** *** What a saving call stores *)

(** X10. Repeated ids in a saved contributor list. For every call that
    saves a list (from the contributors endpoint or from the commit
    history), whatever the list holds, the repository has a row for exactly
    the upstream ids of its members, and the row of an id carries the
    login, avatar, URL and type of the first member with that id and the
    contribution count of the last one: counts of members that share an id
    are not added up. *)
Theorem saved_rows_merge_repeated_ids
    (up : Upstream) (now repoId : Z) (fullName : string) (db : Store.DB)
    (via : Strategy) (g : Z) :
  let run := fetchAndSaveContributors up now repoId fullName db in
  let saved := members (fetchedContributors up fullName via) in
  outcome run = Saved via ->
  Store.repository_contributors (store run) !! (repoId, g)
  = match firstWithId g saved, lastWithId g saved with
    | Some first, Some last =>
        Some (mergedRow now (strategyFallbackType via) first last)
    | _, _ => None
    end.
Proof.
  cbn zeta. intros Hout.
  pose proof (fetchAndSaveContributors_effect up now repoId fullName db) as H.
  cbn zeta in H. rewrite Hout in H. destruct H as (inserted & Hins & ->).
  store_simpl. apply insertContributors_general in Hins as [_ Hin].
  rewrite Hin, deleteWhereRepository_lookup_eq.
  destruct (lastWithId g _) as [l|] eqn:Hlast.
  - destruct (lastWithId_first _ _ _ Hlast) as [f ->]. done.
  - by destruct (firstWithId g _).
Qed.

Lemma contributorKey_is_Some (c : Contributor) :
  is_Some (contributorKey c)
  ↔ (∃ v, id c = Some v ∧ v ≠ 0) ∨ is_Some (databaseId c).
Proof.
  unfold contributorKey, orElseZ.
  destruct (id c) as [v|]; [destruct (Z.eqb_spec v 0) as [->|Hv]|].
  - split; [by right|]. by intros [(v & [= <-] & Hv)|H].
  - split; [|by eexists]. intros _. left. by exists v.
  - split; [by right|]. by intros [(v & [=] & _)|H].
Qed.

(** X11. A member without an id rejects the whole list. When the
    contributors endpoint answers with an array, the call saves it exactly
    when every element that carries a login also carries a value for
    [github_id], that is an [id] other than 0 or, failing that, a
    [databaseId] (of any value, 0 included); otherwise the call is
    rejected with the not-null violation of [github_id], the transaction
    is rolled back and the store, with the contributors saved earlier, is
    as it was. *)
Theorem member_without_id_rejects_list
    (up : Upstream) (now repoId : Z) (fullName : string) (db : Store.DB)
    (r : Response ContributorsJson) (items : list (option Contributor)) :
  let run := fetchAndSaveContributors up now repoId fullName db in
  contributorsEndpoint up fullName = FetchResponse r ->
  ok r = true ->
  body r = JsonArray items ->
  (outcome run = Saved Primary
   ↔ ∀ c, c ∈ members items -> is_Some (contributorKey c))
  ∧ (outcome run ≠ Saved Primary ->
     outcome run
     = Threw (DatabaseError (Store.NotNullViolation "github_id"))
     ∧ store run = db)
  ∧ (∀ c, is_Some (contributorKey c)
          ↔ (∃ v, id c = Some v ∧ v ≠ 0) ∨ is_Some (databaseId c)).
Proof.
  cbn zeta. intros Hresp Hok Hbody.
  match goal with
  | |- ?A ∧ ?B ∧ _ =>
      cut (A ∧ B); [intros [? ?]; split; [done|split; [done|]];
                    apply contributorKey_is_Some|]
  end.
  unfold fetchAndSaveContributors. rewrite Hresp, Hok, Hbody.
  unfold saveContributorsToDB.
  destruct (insertContributors _ _ _ _ _) as [e|inserted] eqn:Hins; cbn.
  - apply insertContributors_inl in Hins as [-> (c & Hc & Hk)]. split.
    + split; [done|]. intros Hall. destruct (Hall c Hc) as [g Hg]. congruence.
    + done.
  - split; [|done]. split; [|done]. intros _.
    by eapply insertContributors_inr.
Qed.

(** X12. The commit-activity refresh never takes its branch for status
    202: the test sits under [!response.ok], and 202 is an ok status. A
    202 answer is read like any other ok answer: the refresh saves its
    weeks when its body is a non-empty array, returns without a change
    when the body is something else, and is rejected when the body cannot
    be parsed. *)
Theorem commit_activity_never_pending
    (up : Upstream) (now repoId : Z) (fullName : string) (db : Store.DB) :
  (fetchAndSaveCommitActivity up now repoId fullName db).1 ≠ ActivityPending
  ∧ ∀ r, commitActivityEndpoint up fullName = FetchResponse r ->
         status r = 202 ->
         (fetchAndSaveCommitActivity up now repoId fullName db).1
         = match body r with
           | WeeksArray (_ :: _) => ActivitySaved
           | WeeksArray [] | NotAnArray => ActivityNoData
           | WeeksUnparseable => ActivityThrew JsonError
           end.
Proof.
  unfold fetchAndSaveCommitActivity. split.
  - destruct (commitActivityEndpoint up fullName) as [message|r]; [done|].
    unfold ok. destruct (Z.leb_spec 200 (status r)); simpl.
    + destruct (Z.leb_spec (status r) 299); simpl.
      * by destruct (body r) as [[|w ws]| |].
      * destruct (Z.eqb_spec (status r) 202); [lia|done].
    + destruct (Z.eqb_spec (status r) 202); [lia|done].
  - intros r -> Hs. unfold ok. rewrite Hs. simpl.
    by destruct (body r) as [[|w ws]| |].
Qed.

(** *** [String.prototype.includes] *)

Lemma prefix_iff (sub s : string) :
  String.prefix sub s = true ↔ ∃ post, s = (sub ++ post)%string.
Proof.
  revert s. induction sub as [|a sub IH]; intros s.
  - split; [intros _; by exists s|intros _; by destruct s].
  - destruct s as [|b s]; simpl; [split; [done|by intros [post ?]]|].
    destruct (Ascii.ascii_dec a b) as [->|Hne].
    + rewrite IH. split; intros [post Hpost]; exists post.
      * change (String b s = String b (sub ++ post)%string). congruence.
      * change (String b s = String b (sub ++ post)%string) in Hpost. congruence.
    + split; [done|]. intros [post Hpost].
      change (String b s = String a (sub ++ post)%string) in Hpost. congruence.
Qed.

(** X13. The substring test behind the error classification. The test
    used for ["list is too large"], ["404"], ["MISSING"], ["rate limit"] and
    the gateway markers succeeds exactly when the message can be cut into
    a part before the marker, the marker, and a part after it. *)
Theorem includes_iff_substring (sub s : string) :
  includes sub s = true ↔ ∃ pre post, s = (pre ++ sub ++ post)%string.
Proof.
  induction s as [|a s IH]; cbn [includes].
  - rewrite orb_false_r, prefix_iff. split.
    + intros [post Hpost]. by exists ""%string, post.
    + intros (pre & post & Hs). destruct pre as [|b pre]; [by exists post|done].
  - rewrite orb_true_iff, prefix_iff, IH. split.
    + intros [[post Hpost]|(pre & post & Hs)].
      * by exists ""%string, post.
      * exists (String a pre), post.
        change (String a s = String a (pre ++ sub ++ post)%string). by rewrite Hs.
    + intros (pre & post & Hs). destruct pre as [|b pre].
      * left. by exists post.
      * right. change (String a s = String b (pre ++ sub ++ post)%string) in Hs.
        inversion Hs; subst. by exists pre, post.
Qed.

(** *** The tables a job touches *)

Lemma DB_ext (a b : Store.DB) :
  Store.repositories a = Store.repositories b ->
  Store.repositories_id_seq a = Store.repositories_id_seq b ->
  Store.repository_languages a = Store.repository_languages b ->
  Store.repository_stats a = Store.repository_stats b ->
  Store.repository_contributors a = Store.repository_contributors b ->
  Store.repository_commit_activity a = Store.repository_commit_activity b ->
  a = b.
Proof. destruct a, b. simpl. by intros -> -> -> -> -> ->. Qed.

Lemma sameButDataType_refl a : sameButDataType a a.
Proof. by left. Qed.

Lemma sameButDataType_trans a b c :
  sameButDataType a b -> sameButDataType b c -> sameButDataType a c.
Proof.
  intros [->|[d ->]] [->|[d' ->]]; [by left|right; eauto|right; eauto|].
  right. exists d. by destruct c.
Qed.

Lemma fetchAndSaveContributors_frame up now rid fn db :
  let db' := store (fetchAndSaveContributors up now rid fn db) in
  Store.repositories db' = Store.repositories db
  ∧ Store.repositories_id_seq db' = Store.repositories_id_seq db
  ∧ Store.repository_languages db' = Store.repository_languages db
  ∧ Store.repository_commit_activity db' = Store.repository_commit_activity db
  ∧ (∀ k, sameButDataType (Store.repository_stats db' !! k)
                          (Store.repository_stats db !! k))
  ∧ (∀ k, k ≠ rid -> Store.repository_stats db' !! k = Store.repository_stats db !! k)
  ∧ (∀ r g, r ≠ rid ->
       Store.repository_contributors db' !! (r, g)
       = Store.repository_contributors db !! (r, g)).
Proof.
  cbn zeta.
  pose proof (fetchAndSaveContributors_effect up now rid fn db) as H. cbn zeta in H.
  destruct (outcome _) as [via| | | |];
    try (rewrite H; repeat split; by try left).
  destruct H as (inserted & Hins & ->). store_simpl.
  apply insertContributors_general in Hins as [Hother _].
  repeat split; try done.
  - intros k. destruct (decide (rid = k)) as [->|Hne].
    + rewrite lookup_alter_eq. right. eauto.
    + rewrite lookup_alter_ne by done. by left.
  - intros k Hk. by rewrite lookup_alter_ne.
  - intros r g Hr. by rewrite Hother, deleteWhereRepository_lookup_ne.
Qed.

Lemma refreshAll_frame ops : ∀ db log,
  let db' := (refreshAll ops db log).1 in
  Store.repositories db' = Store.repositories db
  ∧ Store.repositories_id_seq db' = Store.repositories_id_seq db
  ∧ Store.repository_languages db' = Store.repository_languages db
  ∧ Store.repository_commit_activity db' = Store.repository_commit_activity db
  ∧ (∀ k, sameButDataType (Store.repository_stats db' !! k)
                          (Store.repository_stats db !! k))
  ∧ (∀ k, k ∉ refresh_repoId <$> ops ->
       Store.repository_stats db' !! k = Store.repository_stats db !! k)
  ∧ (∀ r g, r ∉ refresh_repoId <$> ops ->
       Store.repository_contributors db' !! (r, g)
       = Store.repository_contributors db !! (r, g)).
Proof.
  cbn zeta. induction ops as [|op ops IH]; intros db log; simpl.
  { repeat split; by try left. }
  destruct (fetchAndSaveContributors_frame (refresh_upstream op) (refresh_now op)
              (refresh_repoId op) (refresh_fullName op) db)
    as (H1 & H2 & H3 & H4 & H5 & H6 & H7).
  edestruct IH as (I1 & I2 & I3 & I4 & I5 & I6 & I7).
  rewrite I1, I2, I3, I4, H1, H2, H3, H4. repeat split; try done.
  - intros k. eapply sameButDataType_trans; [apply I5|apply H5].
  - intros k [Hk Hks]%not_elem_of_cons. by rewrite I6, H6.
  - intros r g [Hr Hrs]%not_elem_of_cons. by rewrite I7, H7.
Qed.

Lemma refreshAll_log_length ops : ∀ db log,
  length (refreshAll ops db log).2 = (length ops + length log)%nat.
Proof.
  induction ops as [|op ops IH]; intros db log; simpl; [done|].
  rewrite IH. simpl. lia.
Qed.

Lemma targets_length repositoryId db :
  (repositoryId = None ∨ repositoryId = Some 0) ->
  (length (targets repositoryId db) <= 300)%nat.
Proof. intros [-> | ->]; simpl; rewrite length_take; lia. Qed.

(** X14. The contributors job changes nothing but contributor rows and
    the discriminator. After [updateContributors], whatever the upstream
    answers and however many calls fail, the [repositories] table, the
    languages and the commit activity are as before; no stats row is
    added or removed, and a stats row differs from the earlier one at most
    in [contributors_data_type]; the contributors of repositories that
    were not selected are untouched. One call is made per selected
    repository, at most 300 when no repository id is given. *)
Theorem contributors_job_touches_only_its_tables
    (up : Upstream) (clock : Z -> Z) (repositoryId : option Z) (db : Store.DB) :
  let job := updateContributors up clock repositoryId db in
  Store.repositories job.1 = Store.repositories db
  ∧ Store.repositories_id_seq job.1 = Store.repositories_id_seq db
  ∧ Store.repository_languages job.1 = Store.repository_languages db
  ∧ Store.repository_commit_activity job.1 = Store.repository_commit_activity db
  ∧ (∀ k, sameButDataType (Store.repository_stats job.1 !! k)
                          (Store.repository_stats db !! k))
  ∧ (∀ r g, r ∉ Store.id <$> targets repositoryId db ->
       Store.repository_contributors job.1 !! (r, g)
       = Store.repository_contributors db !! (r, g))
  ∧ length job.2 = length (targets repositoryId db)
  ∧ ((repositoryId = None ∨ repositoryId = Some 0) -> (length job.2 <= 300)%nat).
Proof.
  cbn zeta. unfold updateContributors.
  destruct (refreshAll_frame (contributorsCall up clock <$> targets repositoryId db) db [])
    as (H1 & H2 & H3 & H4 & H5 & _ & H7).
  assert (Hlen : length (refreshAll
                   (contributorsCall up clock <$> targets repositoryId db) db []).2
                 = length (targets repositoryId db)).
  { rewrite refreshAll_log_length, length_fmap. simpl. lia. }
  repeat split; try done.
  - intros r g Hr. apply H7. by rewrite <- list_fmap_compose.
  - intros Hall. rewrite Hlen. by apply targets_length.
Qed.

(** *** The two jobs side by side *)

Ltac case_matches :=
  repeat match goal with
         | |- context [match ?x with _ => _ end] =>
             lazymatch x with
             | context [match _ with _ => _ end] => fail
             | _ => destruct x
             end
         end.

Lemma fetchAndSaveContributors_beside_activity up now rid fn m db :
  let a := fetchAndSaveContributors up now rid fn (Store.set_commit_activity m db) in
  let b := fetchAndSaveContributors up now rid fn db in
  outcome a = outcome b
  ∧ store a = Store.set_commit_activity m (store b).
Proof.
  cbn zeta.
  unfold fetchAndSaveContributors, fetchAndSaveRecentContributorsGraphQL,
    saveContributorsToDB.
  store_simpl. case_matches; done.
Qed.

Lemma refreshAll_beside_activity ops m : ∀ db log,
  refreshAll ops (Store.set_commit_activity m db) log
  = (Store.set_commit_activity m (refreshAll ops db log).1, (refreshAll ops db log).2).
Proof.
  induction ops as [|op ops IH]; intros db log; simpl; [done|].
  destruct (fetchAndSaveContributors_beside_activity (refresh_upstream op)
              (refresh_now op) (refresh_repoId op) (refresh_fullName op) m db)
    as [-> ->].
  apply IH.
Qed.

Lemma fetchAndSaveCommitActivity_beside_contributors up now rid fn c s db :
  fetchAndSaveCommitActivity up now rid fn
    (Store.set_stats s (Store.set_contributors c db))
  = ((fetchAndSaveCommitActivity up now rid fn db).1,
     Store.set_stats s
       (Store.set_contributors c (fetchAndSaveCommitActivity up now rid fn db).2)).
Proof.
  unfold fetchAndSaveCommitActivity. store_simpl. case_matches; done.
Qed.

Lemma activityAll_beside_contributors up clock rows c s : ∀ db log,
  activityAll up clock rows (Store.set_stats s (Store.set_contributors c db)) log
  = (Store.set_stats s (Store.set_contributors c (activityAll up clock rows db log).1),
     (activityAll up clock rows db log).2).
Proof.
  induction rows as [|r rows IH]; intros db log; simpl; [done|].
  rewrite fetchAndSaveCommitActivity_beside_contributors.
  destruct (fetchAndSaveCommitActivity up (clock (Store.id r)) (Store.id r)
              (Store.full_name r) db) as [o db'].
  apply IH.
Qed.

Lemma fetchAndSaveCommitActivity_frame up now rid fn db :
  let db' := (fetchAndSaveCommitActivity up now rid fn db).2 in
  Store.repositories db' = Store.repositories db
  ∧ Store.repositories_id_seq db' = Store.repositories_id_seq db
  ∧ Store.repository_languages db' = Store.repository_languages db
  ∧ Store.repository_stats db' = Store.repository_stats db
  ∧ Store.repository_contributors db' = Store.repository_contributors db
  ∧ (∀ r t, r ≠ rid ->
       Store.repository_commit_activity db' !! (r, t)
       = Store.repository_commit_activity db !! (r, t)).
Proof.
  cbn zeta. unfold fetchAndSaveCommitActivity.
  destruct (commitActivityEndpoint up fn) as [msg|r]; [done|].
  destruct (negb (ok r)); [by destruct (status r =? 202)|].
  destruct (body r) as [[|w ws]| |]; try done. store_simpl.
  repeat split. intros r' t Hr'.
  induction (w :: ws) as [|w' ws' IH] using rev_ind; simpl.
  - by apply deleteWhereRepository_lookup_ne.
  - rewrite fold_left_app. simpl. unfold insertWeek at 1.
    destruct (_ !! (rid, week w')); by rewrite lookup_insert_ne by congruence.
Qed.

Lemma activityAll_frame up clock rows : ∀ db log,
  let db' := (activityAll up clock rows db log).1 in
  Store.repositories db' = Store.repositories db
  ∧ Store.repositories_id_seq db' = Store.repositories_id_seq db
  ∧ Store.repository_languages db' = Store.repository_languages db
  ∧ Store.repository_stats db' = Store.repository_stats db
  ∧ Store.repository_contributors db' = Store.repository_contributors db
  ∧ (∀ r t, r ∉ Store.id <$> rows ->
       Store.repository_commit_activity db' !! (r, t)
       = Store.repository_commit_activity db !! (r, t)).
Proof.
  cbn zeta. induction rows as [|r rows IH]; intros db log; simpl; [done|].
  pose proof (fetchAndSaveCommitActivity_frame up (clock (Store.id r)) (Store.id r)
                (Store.full_name r) db) as H. cbn zeta in H.
  destruct (fetchAndSaveCommitActivity _ _ _ _ _) as [o db1].
  destruct H as (H1 & H2 & H3 & H4 & H5 & H6). cbn [snd] in *.
  edestruct IH as (I1 & I2 & I3 & I4 & I5 & I6).
  rewrite I1, I2, I3, I4, I5, H1, H2, H3, H4, H5. repeat split.
  intros r' t [Hr Hrs]%not_elem_of_cons. by rewrite I6, H6.
Qed.

(** X15. The two jobs of [runAllJobs] do not interfere. For the same
    upstream answers and the same readings of the clock in each call,
    running the contributors job and then the commit-activity job leaves
    the store that the opposite order would leave, and the outcomes each job
    logs are those it logs when it runs alone on the original store. *)
Theorem jobs_commute
    (up : Upstream) (clock clock' : Z -> Z) (db : Store.DB) :
  runAllJobs up clock clock' db
  = ((updateContributors up clock None
        (updateCommitActivity up clock' None db).1).1,
     (updateContributors up clock None db).2,
     (updateCommitActivity up clock' None db).2).
Proof.
  unfold runAllJobs, updateContributors, updateCommitActivity.
  destruct (refreshAll_frame (contributorsCall up clock <$> targets None db) db [])
    as (H1 & H2 & H3 & H4 & _).
  destruct (activityAll_frame up clock' (targets None db) db [])
    as (A1 & A2 & A3 & A4 & A5 & _).
  destruct (refreshAll (contributorsCall up clock <$> targets None db) db [])
    as [db1 log1] eqn:Hjob1.
  cbn [fst snd] in *.
  assert (Hdb1 : db1 = Store.set_stats (Store.repository_stats db1)
                         (Store.set_contributors (Store.repository_contributors db1) db))
    by (by apply DB_ext).
  assert (Ht1 : targets None db1 = targets None db)
    by (unfold targets; by rewrite H1).
  rewrite Ht1, Hdb1, activityAll_beside_contributors.
  destruct (activityAll up clock' (targets None db) db []) as [dbB logB] eqn:HjobB.
  cbn [fst snd] in *.
  assert (HdbB : dbB = Store.set_commit_activity (Store.repository_commit_activity dbB) db)
    by (by apply DB_ext).
  assert (HtB : targets None dbB = targets None db)
    by (unfold targets; by rewrite A1).
  rewrite HtB, HdbB, refreshAll_beside_activity, Hjob1. cbn [fst snd].
  rewrite <- HdbB. f_equal. f_equal.
  rewrite HdbB at 1. rewrite Hdb1 at 3. reflexivity.
Qed.

(** *** One repository at a time *)

Lemma saveContributorsToDB_outcome now rid cs ft dt db1 db2 :
  match (saveContributorsToDB now rid cs ft dt db1).1,
        (saveContributorsToDB now rid cs ft dt db2).1 with
  | inl e1, inl e2 => e1 = e2
  | inr _, inr _ => True
  | _, _ => False
  end.
Proof.
  unfold saveContributorsToDB.
  pose proof (insertContributors_total now rid ft cs
    (Store.deleteWhereRepository rid (Store.repository_contributors db1))
    (Store.deleteWhereRepository rid (Store.repository_contributors db2))) as H.
  by destruct (insertContributors _ _ _ _ _), (insertContributors _ _ _ _ _).
Qed.

Lemma fallback_outcome up now rid fn db1 db2 :
  outcome (fetchAndSaveRecentContributorsGraphQL up now rid fn db1)
  = outcome (fetchAndSaveRecentContributorsGraphQL up now rid fn db2).
Proof.
  unfold fetchAndSaveRecentContributorsGraphQL.
  destruct (pageThrough _ _ _ _ _ _) as [[[|t m]| |e] reqs]; try done.
  pose proof (saveContributorsToDB_outcome now rid
    (map tallyContributor (topContributors (t :: m))) (Some "User"%string)
    recent db1 db2) as H.
  destruct (saveContributorsToDB _ _ _ _ _ db1) as [[e1|[]] s1],
           (saveContributorsToDB _ _ _ _ _ db2) as [[e2|[]] s2];
    cbn in H; try done. by subst.
Qed.

Lemma fetchAndSaveContributors_outcome up now rid fn db1 db2 :
  outcome (fetchAndSaveContributors up now rid fn db1)
  = outcome (fetchAndSaveContributors up now rid fn db2).
Proof.
  unfold fetchAndSaveContributors.
  destruct (contributorsEndpoint up fn) as [msg|r]; [done|].
  destruct (ok r).
  - destruct (body r) as [items| |]; [|done|done].
    pose proof (saveContributorsToDB_outcome now rid items None all_time db1 db2) as H.
    destruct (saveContributorsToDB _ _ _ _ _ db1) as [[e1|[]] s1],
             (saveContributorsToDB _ _ _ _ _ db2) as [[e2|[]] s2];
      cbn in H; try done. by subst.
  - destruct (status r =? 403); [|done].
    destruct (body r); [| |done];
      (destruct (listTooLarge r); [apply fallback_outcome|done]).
Qed.

(** What a call leaves for its repository depends on the store only
    through the rows of that repository. *)
Lemma fetchAndSaveContributors_local up now rid fn db1 db2 :
  (∀ g, Store.repository_contributors db1 !! (rid, g)
        = Store.repository_contributors db2 !! (rid, g)) ->
  Store.repository_stats db1 !! rid = Store.repository_stats db2 !! rid ->
  let a := fetchAndSaveContributors up now rid fn db1 in
  let b := fetchAndSaveContributors up now rid fn db2 in
  outcome a = outcome b
  ∧ (∀ g, Store.repository_contributors (store a) !! (rid, g)
          = Store.repository_contributors (store b) !! (rid, g))
  ∧ Store.repository_stats (store a) !! rid = Store.repository_stats (store b) !! rid.
Proof.
  intros Hrows Hstats. cbn zeta.
  pose proof (fetchAndSaveContributors_outcome up now rid fn db1 db2) as Hout.
  split; [exact Hout|].
  pose proof (fetchAndSaveContributors_effect up now rid fn db1) as H1.
  pose proof (fetchAndSaveContributors_effect up now rid fn db2) as H2.
  cbn zeta in H1, H2. rewrite <- Hout in H2.
  destruct (outcome (fetchAndSaveContributors up now rid fn db1)) as [via| | | |];
    try (rewrite H1, H2; done).
  destruct H1 as (ins1 & Hins1 & ->), H2 as (ins2 & Hins2 & ->). store_simpl.
  apply insertContributors_general in Hins1 as [_ Hin1].
  apply insertContributors_general in Hins2 as [_ Hin2].
  split.
  - intros g. by rewrite Hin1, Hin2, !deleteWhereRepository_lookup_eq.
  - by rewrite !lookup_alter_eq, Hstats.
Qed.

Lemma refreshAll_log_mono ops : ∀ db log x,
  x ∈ log -> x ∈ (refreshAll ops db log).2.
Proof.
  induction ops as [|op ops IH]; intros db log x Hx; simpl; [done|].
  apply IH. by right.
Qed.

Lemma refreshAll_isolated up clock : ∀ ts db log r,
  NoDup (Store.id <$> ts) ->
  r ∈ ts ->
  let job := refreshAll (contributorsCall up clock <$> ts) db log in
  let alone :=
    fetchAndSaveContributors up (clock (Store.id r)) (Store.id r)
      (Store.full_name r) db in
  (Store.id r, outcome alone) ∈ job.2
  ∧ (∀ g, Store.repository_contributors job.1 !! (Store.id r, g)
          = Store.repository_contributors (store alone) !! (Store.id r, g))
  ∧ Store.repository_stats job.1 !! Store.id r
    = Store.repository_stats (store alone) !! Store.id r.
Proof.
  cbn zeta. induction ts as [|t rest IH]; intros db log r Hnodup Hr.
  { by apply elem_of_nil in Hr. }
  rewrite fmap_cons in Hnodup. apply NoDup_cons in Hnodup as [Hnotin Hnodup].
  rewrite fmap_cons. cbn [refreshAll contributorsCall refresh_upstream refresh_now
                          refresh_repoId refresh_fullName].
  set (first := fetchAndSaveContributors up (clock (Store.id t)) (Store.id t)
                  (Store.full_name t) db).
  apply elem_of_cons in Hr as [->|Hr].
  - destruct (refreshAll_frame (contributorsCall up clock <$> rest) (store first)
                ((Store.id t, outcome first) :: log))
      as (_ & _ & _ & _ & _ & Hstats & Hrows).
    assert (Hids : Store.id t ∉ refresh_repoId <$> (contributorsCall up clock <$> rest))
      by (by rewrite <- list_fmap_compose).
    split; [apply refreshAll_log_mono; left|].
    split; [intros g; by apply Hrows|by apply Hstats].
  - assert (Hne : Store.id r ≠ Store.id t).
    { intros Heq. apply Hnotin. rewrite <- Heq. by apply list_elem_of_fmap_2. }
    destruct (IH (store first) ((Store.id t, outcome first) :: log) r Hnodup Hr)
      as (Hlog & Hrows & Hstats).
    destruct (fetchAndSaveContributors_frame up (clock (Store.id t)) (Store.id t)
                (Store.full_name t) db) as (_ & _ & _ & _ & _ & Fs & Fr).
    fold first in Fs, Fr.
    destruct (fetchAndSaveContributors_local up (clock (Store.id r)) (Store.id r)
                (Store.full_name r) (store first) db) as (Lo & Lr & Ls).
    { intros g. by apply Fr. }
    { by apply Fs. }
    rewrite <- Lo. split; [exact Hlog|].
    split; [intros g; by rewrite Hrows, Lr|by rewrite Hstats, Ls].
Qed.

Lemma targets_sublist repositoryId db :
  targets repositoryId db `sublist_of` Store.repositories db.
Proof.
  unfold targets. destruct repositoryId as [i|]; [|apply sublist_take].
  destruct (i =? 0); [apply sublist_take|apply sublist_filter].
Qed.

(** X16. The contributors job treats every repository on its own. When the
    stored ids are distinct, what the job leaves for a selected repository
    (its contributor rows, its stats row and the outcome it logs) is what
    the single call for that repository leaves on the original store:
    no failure and no success of another repository changes it. *)
Theorem contributors_job_isolates_repositories
    (up : Upstream) (clock : Z -> Z) (repositoryId : option Z) (db : Store.DB)
    (r : Store.RepoRow) :
  let job := updateContributors up clock repositoryId db in
  let alone :=
    fetchAndSaveContributors up (clock (Store.id r)) (Store.id r)
      (Store.full_name r) db in
  NoDup (Store.id <$> Store.repositories db) ->
  r ∈ targets repositoryId db ->
  (Store.id r, outcome alone) ∈ job.2
  ∧ (∀ g, Store.repository_contributors job.1 !! (Store.id r, g)
          = Store.repository_contributors (store alone) !! (Store.id r, g))
  ∧ Store.repository_stats job.1 !! Store.id r
    = Store.repository_stats (store alone) !! Store.id r.
Proof.
  cbn zeta. intros Hnodup Hr. unfold updateContributors.
  apply refreshAll_isolated; [|exact Hr].
  eapply sublist_NoDup; [exact Hnodup|].
  apply fmap_sublist, targets_sublist.
Qed.

(** *** The theorems on sample answers *)

(** A repository whose history holds commits of one account under two
    logins: the row of the account has the login that ranks first and the
    count of the one that ranks last. *)
Lemma saved_rows_merge_repeated_ids_witness :
  outcome (fetchAndSaveContributors SampleJobs.renamed Sample.scenario_now 1
             "facebook/react" SampleUpstream.enriched) = Saved Fallback
  /\ Store.c_login
       <$> Store.repository_contributors
             (store (fetchAndSaveContributors SampleJobs.renamed Sample.scenario_now 1
                       "facebook/react" SampleUpstream.enriched)) !! (1, 7)
     = Some "alice"%string
  /\ Store.c_contributions
       <$> Store.repository_contributors
             (store (fetchAndSaveContributors SampleJobs.renamed Sample.scenario_now 1
                       "facebook/react" SampleUpstream.enriched)) !! (1, 7)
     = Some 1.
Proof.
  assert (Hout : outcome (fetchAndSaveContributors SampleJobs.renamed
                            Sample.scenario_now 1 "facebook/react"
                            SampleUpstream.enriched) = Saved Fallback)
    by (vm_compute; reflexivity).
  split; [exact Hout|].
  rewrite (saved_rows_merge_repeated_ids SampleJobs.renamed Sample.scenario_now 1
             "facebook/react" SampleUpstream.enriched Fallback 7 Hout).
  split; vm_compute; reflexivity.
Defined.

(** An array with an element that has a login and no id. *)
Lemma member_without_id_rejects_list_witness :
  contributorsEndpoint SampleJobs.haunted "facebook/react"
  = FetchResponse SampleJobs.listWithGhost
  /\ ok SampleJobs.listWithGhost = true
  /\ body SampleJobs.listWithGhost
     = JsonArray [Some SampleUpstream.carol; Some SampleJobs.ghost]
  /\ (outcome (fetchAndSaveContributors SampleJobs.haunted Sample.scenario_now 1
                 "facebook/react" SampleUpstream.enriched) = Saved Primary
      ↔ ∀ c, c ∈ members [Some SampleUpstream.carol; Some SampleJobs.ghost] ->
             is_Some (contributorKey c)).
Proof.
  split; [reflexivity|]. split; [reflexivity|]. split; [reflexivity|].
  exact (proj1 (member_without_id_rejects_list SampleJobs.haunted Sample.scenario_now 1
                  "facebook/react" SampleUpstream.enriched SampleJobs.listWithGhost
                  _ eq_refl eq_refl eq_refl)).
Defined.

(** The job over the two stored repositories when the upstream fails for
    the second. *)
Lemma contributors_job_isolates_repositories_witness :
  NoDup (Store.id <$> Store.repositories SampleUpstream.enriched)
  /\ Sync.excluded Sample.scenario_now 1 Sample.scenario_repo
     ∈ targets None SampleUpstream.enriched
  /\ (1, outcome (fetchAndSaveContributors SampleJobs.partial (SampleJobs.clock 1) 1
                    "facebook/react" SampleUpstream.enriched))
     ∈ (updateContributors SampleJobs.partial SampleJobs.clock None
          SampleUpstream.enriched).2.
Proof.
  assert (Hnodup : NoDup (Store.id <$> Store.repositories SampleUpstream.enriched))
    by (apply (bool_decide_unpack _); vm_compute; exact I).
  assert (Hr : Sync.excluded Sample.scenario_now 1 Sample.scenario_repo
               ∈ targets None SampleUpstream.enriched)
    by (vm_compute; left).
  split; [exact Hnodup|]. split; [exact Hr|].
  exact (proj1 (contributors_job_isolates_repositories SampleJobs.partial
                  SampleJobs.clock None SampleUpstream.enriched _ Hnodup Hr)).
Defined.

End JobProperties.
(** ** The other endpoints of the API *)

Section EndpointProperties.

Import Worker Api Endpoints.

Local Open Scope Z_scope.

(** *** The rows of one repository *)

Lemma rowsOf_elem_of {K V} `{Countable K} (rid : Z) (m : gmap (Z * K) V) k v :
  (k, v) ∈ rowsOf rid m ↔ m !! (rid, k) = Some v.
Proof.
  unfold rowsOf. rewrite list_elem_of_omap. split.
  - intros ([[r k'] v'] & Hin & Hf). cbn in Hf.
    case_decide; [|done]. inversion Hf; subst.
    by apply elem_of_map_to_list in Hin.
  - intros Hm. exists ((rid, k), v). split; [by apply elem_of_map_to_list|].
    cbn. by rewrite decide_True.
Qed.

Lemma rowsOf_NoDup {K V} `{Countable K} (rid : Z) (m : gmap (Z * K) V) :
  NoDup (rowsOf rid m).*1.
Proof.
  unfold rowsOf. pose proof (NoDup_fst_map_to_list m) as Hnodup.
  induction (map_to_list m) as [|[[r k] v] l IH]; csimpl; [constructor|].
  rewrite fmap_cons in Hnodup. apply NoDup_cons in Hnodup as [Hnotin Hnodup].
  case_decide as Hr; cbn in Hr; csimpl; [|by apply IH].
  subst r. constructor; [|by apply IH].
  intros Hin. apply Hnotin.
  apply list_elem_of_fmap in Hin as ([k' v'] & -> & Hin).
  apply list_elem_of_omap in Hin as ([[r k''] v''] & Hin & Hf). cbn in Hf.
  case_decide as Hr; [|done]. cbn in Hr. inversion Hf; subst.
  apply list_elem_of_fmap. by exists ((rid, k'), v').
Qed.

Lemma rowsOf_NoDup_rows {K V} `{Countable K} (rid : Z) (m : gmap (Z * K) V) :
  NoDup (rowsOf rid m).
Proof. eapply NoDup_fmap_1, rowsOf_NoDup. Qed.

(** *** GET /api/repos/:id/contributors *)

#[local] Instance moreContributions_total : Total moreContributions.
Proof. intros a b. unfold moreContributions. lia. Qed.

#[local] Instance moreContributions_trans : Transitive moreContributions.
Proof. intros a b c. unfold moreContributions. lia. Qed.

(** X17. The contributors endpoint serves the top thirty. For an id in the
    range of [INTEGER] the answer lists at most 30 rows, all of them stored
    for that repository, each upstream id once, in the order of their
    contribution counts, largest first; a stored row of the repository is
    left out only when 30 rows are listed and none of them has a smaller
    count. A parameter that is not a number, or a number outside that
    range, gets status 500. *)
Theorem contributors_endpoint_serves_top_thirty (db : Store.DB) (repoId : Z) :
  let rows := topContributorRows db repoId in
  getContributors db (Some repoId)
  = (if Schema.fitsInteger repoId
     then Ok (contributorItem ∘ snd <$> rows) else Failed)
  ∧ getContributors db None = Failed
  ∧ (length rows <= 30)%nat
  ∧ StronglySorted moreContributions rows
  ∧ NoDup rows.*1
  ∧ (∀ g row, (g, row) ∈ rows ->
       Store.repository_contributors db !! (repoId, g) = Some row)
  ∧ (∀ g row, Store.repository_contributors db !! (repoId, g) = Some row ->
       (g, row) ∈ rows
       ∨ (length rows = 30%nat
          ∧ ∀ x, x ∈ rows -> Store.c_contributions row <= Store.c_contributions x.2)).
Proof.
  cbn zeta. unfold topContributorRows.
  set (all := rowsOf repoId (Store.repository_contributors db)).
  set (M := merge_sort moreContributions all).
  assert (Hperm : M ≡ₚ all) by apply merge_sort_Permutation.
  assert (Hsorted : StronglySorted moreContributions M)
    by (apply StronglySorted_merge_sort; apply _).
  rewrite <- (take_drop 30 M) in Hsorted.
  split; [done|]. split; [done|]. split; [rewrite length_take; lia|].
  split; [by eapply StronglySorted_app_1_l|].
  split.
  { eapply sublist_NoDup; [|apply fmap_sublist, sublist_take].
    rewrite Hperm. apply rowsOf_NoDup. }
  split.
  - intros g row Hin. apply rowsOf_elem_of. fold all. rewrite <- Hperm.
    eapply elem_of_sublist; [exact Hin|apply sublist_take].
  - intros g row Hstored. apply rowsOf_elem_of in Hstored. fold all in Hstored.
    rewrite <- Hperm, <- (take_drop 30 M) in Hstored.
    apply elem_of_app in Hstored as [Hin|Hin]; [by left|right].
    split.
    + rewrite length_take. apply Nat.min_l.
      destruct (decide (30 <= length M)%nat) as [|Hshort]; [done|].
      rewrite drop_ge in Hin by lia. by apply elem_of_nil in Hin.
    + intros x Hx.
      by apply (StronglySorted_app_1_elem_of _ _ _ x (g, row)) in Hsorted.
Qed.

(** When a repository has no more than 30 stored contributors, all of
    them are selected. *)
Lemma topContributorRows_whole db repoId :
  (length (rowsOf repoId (Store.repository_contributors db)) <= 30)%nat ->
  ∀ g row, Store.repository_contributors db !! (repoId, g) = Some row
           ↔ (g, row) ∈ topContributorRows db repoId.
Proof.
  intros Hlen g row. unfold topContributorRows.
  rewrite take_ge.
  - by rewrite merge_sort_Permutation, rowsOf_elem_of.
  - by rewrite merge_sort_Permutation.
Qed.

Lemma members_length cs : (length (members cs) <= length cs)%nat.
Proof.
  unfold members. etransitivity; [apply List.filter_length_le|].
  apply length_omap_le.
Qed.

(** X18. What the fallback saves, the endpoint serves. After a call that
    saved the recent contributors from the commit history, the
    contributors endpoint lists every stored contributor of the
    repository: the fallback never stores more than the 30 rows the
    endpoint returns. *)
Theorem fallback_list_is_served_whole
    (up : Upstream) (now repoId : Z) (fullName : string) (db : Store.DB) :
  let run := fetchAndSaveContributors up now repoId fullName db in
  outcome run = Saved Fallback ->
  (length (rowsOf repoId (Store.repository_contributors (store run))) <= 30)%nat
  ∧ ∀ g row,
      Store.repository_contributors (store run) !! (repoId, g) = Some row
      ↔ (g, row) ∈ topContributorRows (store run) repoId.
Proof.
  cbn zeta. intros Hout.
  assert (Hlen : (length (rowsOf repoId
                    (Store.repository_contributors
                       (store (fetchAndSaveContributors up now repoId fullName db))))
                  <= 30)%nat).
  { pose proof (fetchAndSaveContributors_effect up now repoId fullName db) as H.
    cbn zeta in H. rewrite Hout in H. destruct H as (inserted & Hins & ->).
    store_simpl. apply insertContributors_general in Hins as [_ Hin].
    set (saved := members (fetchedContributors up fullName Fallback)) in *.
    assert (Hsaved : (length saved <= 30)%nat).
    { unfold saved. etransitivity; [apply members_length|].
      unfold fetchedContributors.
      destruct (pageThrough _ _ _ _ _ _).1; simpl; try lia.
      unfold topContributors. rewrite length_map, length_take. lia. }
    etransitivity; [|exact Hsaved].
    rewrite <- (length_fmap fst), <- (length_fmap Some),
      <- (length_fmap contributorKey saved).
    apply submseteq_length, NoDup_submseteq.
    { apply NoDup_fmap_2; [apply _|apply rowsOf_NoDup]. }
    intros k Hk. apply list_elem_of_fmap in Hk as (g & -> & Hg).
    apply list_elem_of_fmap in Hg as ([g' row] & -> & Hrow). cbn.
    apply rowsOf_elem_of in Hrow. rewrite Hin in Hrow.
    destruct (Jobs.lastWithId g' saved) as [l|] eqn:Hlast.
    - apply lastWithId_Some in Hlast as [Hl Hkey]. rewrite <- Hkey.
      by apply list_elem_of_fmap_2.
    - by rewrite deleteWhereRepository_lookup_eq in Hrow. }
  split; [exact Hlen|]. by apply topContributorRows_whole.
Qed.

(** *** GET /api/repos/:id/commit-activity *)

#[local] Instance earlierWeek_total : Total earlierWeek.
Proof. intros a b. unfold earlierWeek. lia. Qed.

#[local] Instance earlierWeek_trans : Transitive earlierWeek.
Proof. intros a b c. unfold earlierWeek. lia. Qed.

Lemma sorted_by_date_by_week (now : Z) (ws : list Week) :
  StronglySorted earlierWeek ((λ w, (week w, activityRow now w)) <$> ws) ->
  StronglySorted (λ a b, week a <= week b) ws.
Proof.
  induction ws as [|w ws IH]; [constructor|].
  rewrite fmap_cons. intros Hs. apply StronglySorted_inv in Hs as [Hs Hall].
  constructor; [by apply IH|].
  rewrite Forall_fmap in Hall. eapply Forall_impl; [exact Hall|].
  intros w'. unfold earlierWeek. cbn. lia.
Qed.

(** X19. What the commit-activity refresh saves, the endpoint serves in
    order. After a refresh that saved, for a stored repository, an array
    of weeks with distinct timestamps, each the start of a day, the
    commit-activity endpoint answers with exactly one item per fetched
    week, carrying its total, in the order of the weeks, earliest first;
    the weeks stored before the refresh are gone. *)
Theorem saved_weeks_are_served
    (up : Upstream) (now repoId : Z) (fullName : string) (db db' : Store.DB) :
  fetchAndSaveCommitActivity up now repoId fullName db = (ActivitySaved, db') ->
  NoDup (week <$> fetchedWeeks up fullName) ->
  Forall wellFormedWeek (fetchedWeeks up fullName) ->
  repoId ∈ Store.id <$> Store.repositories db ->
  Schema.fitsInteger repoId = true ->
  ∃ items byWeek,
    getCommitActivity db' (Some repoId) = Ok items
    ∧ byWeek ≡ₚ fetchedWeeks up fullName
    ∧ StronglySorted (λ a b, week a <= week b) byWeek
    ∧ item_total_commits <$> items = total <$> byWeek.
Proof.
  unfold fetchAndSaveCommitActivity, fetchedWeeks, getCommitActivity.
  destruct (commitActivityEndpoint up fullName) as [msg|r]; [done|].
  destruct (negb (ok r)); [by destruct (status r =? 202)|].
  destruct (body r) as [[|w ws]| |]; try done.
  intros [= <-] Hnodup _ _ ->.
  unfold activityRows. store_simpl.
  set (stored := fold_left (insertWeek now repoId) (w :: ws)
                   (Store.deleteWhereRepository repoId
                      (Store.repository_commit_activity db))).
  destruct (insertWeek_fold_lookup now repoId (w :: ws)
              (Store.deleteWhereRepository repoId
                 (Store.repository_commit_activity db))) as [Hin _].
  { done. }
  { intros w' _. apply deleteWhereRepository_lookup_eq. }
  fold stored in Hin.
  assert (Hrows : rowsOf repoId stored
                  ≡ₚ (λ w, (week w, activityRow now w)) <$> (w :: ws)).
  { apply NoDup_Permutation.
    - apply rowsOf_NoDup_rows.
    - apply (NoDup_fmap_1 fst). rewrite <- list_fmap_compose. exact Hnodup.
    - intros [t row]. rewrite rowsOf_elem_of, Hin, deleteWhereRepository_lookup_eq.
      rewrite list_elem_of_fmap. split.
      + intros [?|(w' & Hw' & <- & ->)]; [done|]. by exists w'.
      + intros (w' & [= -> ->] & Hw'). right. by exists w'. }
  change (fold_left (insertWeek now repoId) ws
            (insertWeek now repoId
               (Store.deleteWhereRepository repoId
                  (Store.repository_commit_activity db)) w)) with stored.
  set (sorted := merge_sort earlierWeek (rowsOf repoId stored)).
  assert (Hperm : sorted ≡ₚ (λ w, (week w, activityRow now w)) <$> (w :: ws))
    by (unfold sorted; by rewrite merge_sort_Permutation).
  apply Permutation_map_inv in Hperm as (byWeek & Hsorted & HbyWeek).
  exists (weekItem ∘ snd <$> sorted), byWeek.
  split; [reflexivity|]. split; [by symmetry|]. split.
  - apply (sorted_by_date_by_week now).
    change (map (λ w, (week w, activityRow now w)) byWeek)
      with ((λ w, (week w, activityRow now w)) <$> byWeek) in Hsorted.
    rewrite <- Hsorted. apply StronglySorted_merge_sort; apply _.
  - rewrite Hsorted.
    change (map (λ w, (week w, activityRow now w)) byWeek)
      with ((λ w, (week w, activityRow now w)) <$> byWeek).
    rewrite <- !list_fmap_compose. by apply list_fmap_ext.
Qed.

(** *** GET /api/repos/search and GET /api/repos/:id/details *)

Lemma find_unique {A B} (f : A -> B) (test : A -> bool) (l : list A) (r : A) :
  NoDup (f <$> l) ->
  r ∈ l ->
  (∀ x, test x = true ↔ f x = f r) ->
  List.find test l = Some r.
Proof.
  intros Hnodup Hr Htest. induction l as [|x l IH]; [by apply elem_of_nil in Hr|].
  rewrite fmap_cons in Hnodup. apply NoDup_cons in Hnodup as [Hnotin Hnodup].
  cbn [List.find]. apply elem_of_cons in Hr as [<-|Hr].
  - by rewrite (proj2 (Htest r) eq_refl).
  - destruct (test x) eqn:Hx; [|by apply IH].
    exfalso. apply Hnotin. rewrite (proj1 (Htest x) Hx). by apply list_elem_of_fmap_2.
Qed.

Lemma find_None_fmap {A B} (f : A -> B) (test : A -> bool) (l : list A) (b : B) :
  (∀ x, test x = true ↔ f x = b) ->
  List.find test l = None ↔ b ∉ f <$> l.
Proof.
  intros Htest. induction l as [|x l IH].
  - split; [intros _; apply not_elem_of_nil|done].
  - rewrite fmap_cons, not_elem_of_cons. cbn [List.find].
    destruct (test x) eqn:Hx.
    + split; [done|]. intros [Hne _]. by apply Htest in Hx.
    + rewrite IH. split; [|by intros [_ ?]]. intros Hl. split; [|done].
      intros Heq. symmetry in Heq. apply Htest in Heq. congruence.
Qed.

#[local] Instance largerShare_total : Total largerShare.
Proof.
  intros a b. unfold largerShare. rewrite !Qle_bool_iff.
  destruct (Qlt_le_dec (Store.percentage a.2) (Store.percentage b.2));
    [right; by apply Qlt_le_weak|by left].
Qed.

#[local] Instance largerShare_trans : Transitive largerShare.
Proof.
  intros a b c. unfold largerShare. rewrite !Qle_bool_iff.
  intros H1 H2. by eapply Qle_trans.
Qed.

(** X20. Looking a repository up by name and then by id. When ids and
    full names are unique and the ids are [INTEGER]s, searching for the
    full name of a stored repository answers with that repository and its
    stats, and asking for the details of the id so obtained answers with
    the same repository and stats and with the languages stored for it:
    one item per stored language, with its byte count, the larger shares
    first. A search without a name, or with an empty one, gets status 400,
    and a search answered with status 404 names no stored repository. An
    id gets status 404 exactly when it is in the range of [INTEGER] and
    not stored, and status 500 exactly when it is outside that range; so
    does a parameter that is not a number. *)
Theorem search_leads_to_details (db : Store.DB) :
  NoDup (Store.id <$> Store.repositories db) ->
  NoDup (Store.full_name <$> Store.repositories db) ->
  Schema.integerIds db ->
  (∀ r, r ∈ Store.repositories db -> Store.full_name r ≠ ""%string ->
     search db (Some (Store.full_name r))
     = Ok (r, Store.repository_stats db !! Store.id r)
     ∧ ∃ languages,
         getDetails db (Some (Store.id r))
         = Ok {| details_repository := (r, Store.repository_stats db !! Store.id r);
                 details_languages := languages |}
         ∧ StronglySorted
             (λ a b, (item_percentage b <= item_percentage a)%Q) languages
         ∧ NoDup (item_language_name <$> languages)
         ∧ ∀ name bytes,
             (∃ item, item ∈ languages ∧ item_language_name item = name
                      ∧ item_bytes_count item = bytes)
             ↔ Store.bytes_count <$> Store.repository_languages db !! (Store.id r, name)
               = Some bytes)
  ∧ search db None = BadRequest
  ∧ search db (Some ""%string) = BadRequest
  ∧ (∀ name, search db (Some name) = NotFound ->
       name ∉ Store.full_name <$> Store.repositories db)
  ∧ (∀ i, getDetails db (Some i) = NotFound
          ↔ Schema.fitsInteger i = true ∧ i ∉ Store.id <$> Store.repositories db)
  ∧ (∀ i, getDetails db (Some i) = Failed ↔ Schema.fitsInteger i = false)
  ∧ getDetails db None = Failed.
Proof.
  intros Hids Hnames Hint.
  split; [|split; [done|split; [done|split; [|split; [|split; [|done]]]]]].
  - intros r Hr Hname. split.
    + unfold search. cbn [truthyString default].
      destruct (String.eqb_spec (Store.full_name r) "") as [|_]; [done|].
      cbn [negb].
      rewrite (find_unique Store.full_name _ _ r Hnames Hr); [done|].
      intros x. apply String.eqb_eq.
    + eexists. unfold getDetails.
      unfold Schema.integerIds in Hint. rewrite Forall_forall in Hint.
      rewrite (Hint r Hr).
      rewrite (find_unique Store.id _ _ r Hids Hr) by (intros x; apply Z.eqb_eq).
      split; [reflexivity|]. split; [|split].
      * eapply StronglySorted_fmap; [|apply StronglySorted_merge_sort; apply _].
        intros a b Hab. unfold largerShare in Hab. by apply Qle_bool_iff in Hab.
      * assert (Hnames' : ∀ l : list (string * Store.LanguageRow),
                  item_language_name <$> (languageItem <$> l) = l.*1)
          by (intros l; rewrite <- list_fmap_compose; by apply list_fmap_ext).
        rewrite Hnames'.
        rewrite merge_sort_Permutation. apply rowsOf_NoDup.
      * intros name bytes. split.
        -- intros (item & Hitem & <- & <-).
           apply list_elem_of_fmap in Hitem as ([name' row] & -> & Hin).
           rewrite merge_sort_Permutation in Hin. apply rowsOf_elem_of in Hin.
           cbn. by rewrite Hin.
        -- intros Hrow.
           destruct (Store.repository_languages db !! (Store.id r, name))
             as [row|] eqn:Hstored; [|done].
           injection Hrow as <-.
           exists (languageItem (name, row)). split; [|done].
           apply list_elem_of_fmap. exists (name, row). split; [done|].
           rewrite merge_sort_Permutation. by apply rowsOf_elem_of.
  - intros name. unfold search. 
    destruct (truthyString (Some name)) eqn:Htruthy; [|done].
    cbn [default].
    rewrite <- (find_None_fmap Store.full_name
                  (λ r, String.eqb (Store.full_name r) name))
      by (intros x; apply String.eqb_eq).
    by destruct (List.find _ _).
  - intros i. unfold getDetails. destruct (Schema.fitsInteger i).
    + rewrite <- (find_None_fmap Store.id (λ r, Store.id r =? i))
        by (intros x; apply Z.eqb_eq).
      destruct (List.find _ _); split; try done; by intros [_ ?].
    + split; [done|]. by intros [? _].
  - intros i. unfold getDetails. destruct (Schema.fitsInteger i); [|done].
    by destruct (List.find _ _).
Qed.

(** *** GET /api/stats *)

(** X21. The totals of the stats endpoint. The repository total is the
    number of stored rows; under the check constraint on star counts the
    star total is not negative and no repository has more stars than the
    total; an empty table gives 0 and 0. *)
Theorem totals_bound_every_repository (db : Store.DB) :
  Schema.positiveCounts db ->
  totalRepositories (getStats db) = Z.of_nat (length (Store.repositories db))
  ∧ 0 <= totalStars (getStats db)
  ∧ (∀ r, r ∈ Store.repositories db ->
       Store.stars_count r <= totalStars (getStats db))
  ∧ (Store.repositories db = [] -> getStats db = {| totalRepositories := 0;
                                                    totalStars := 0 |}).
Proof.
  unfold Schema.positiveCounts, getStats. cbn [totalRepositories totalStars].
  intros Hpos. split; [done|].
  assert (Hsum : 0 <= foldr Z.add 0 (Store.stars_count <$> Store.repositories db)
                 ∧ ∀ r, r ∈ Store.repositories db ->
                        Store.stars_count r
                        <= foldr Z.add 0 (Store.stars_count <$> Store.repositories db)).
  { induction Hpos as [|x l [Hx _] Hl [IH1 IH2]].
    - split; [done|]. by intros r ?%elem_of_nil.
    - rewrite fmap_cons. cbn [foldr]. split; [lia|].
      intros r [->|Hr]%elem_of_cons; [lia|]. specialize (IH2 r Hr). lia. }
  destruct Hsum as [H0 Hall]. split; [exact H0|]. split; [exact Hall|].
  by intros ->.
Qed.

(** *** GET /api/repos/top, page after page *)

Lemma effectiveLimit_positive limitParam :
  0 <= effectiveLimit limitParam -> 1 <= effectiveLimit limitParam <= 300.
Proof. unfold effectiveLimit. destruct limitParam as [[|p|p]|]; lia. Qed.

Lemma topRepos_page db limitParam lastStars lastId :
  0 <= effectiveLimit limitParam ->
  let n := Z.to_nat (effectiveLimit limitParam) in
  let M := selected db lastStars lastId in
  (length M < n)%nat
  ∧ topRepos db limitParam lastStars lastId = TopOk (listed db <$> M) None false
  ∨ (n <= length M)%nat
    ∧ ∃ before r,
        take n M = before ++ [r]
        ∧ topRepos db limitParam lastStars lastId
          = TopOk (listed db <$> take n M)
              (Some (Store.stars_count r, Store.id r)) true.
Proof.
  intros Hlimit. cbn zeta. apply effectiveLimit_positive in Hlimit.
  unfold topRepos. destruct (Z.ltb_spec (effectiveLimit limitParam) 0); [lia|].
  set (n := Z.to_nat (effectiveLimit limitParam)).
  set (M := selected db lastStars lastId).
  change (map (λ r, (r, Store.repository_stats db !! Store.id r)) (take n M))
    with (listed db <$> take n M).
  destruct (decide (length M < n)%nat) as [Hshort|Hlong].
  - left. split; [done|]. rewrite take_ge by lia.
    destruct (Z.eqb_spec (Z.of_nat (length M)) (effectiveLimit limitParam)); [lia|done].
  - right. split; [lia|].
    assert (Hlen : length (take n M) = n) by (rewrite length_take; lia).
    destruct (take n M) as [|x l] eqn:Htake using rev_ind; [simpl in Hlen; lia|].
    exists l, x. split; [done|].
    destruct (Z.eqb_spec (Z.of_nat (length (l ++ [x]))) (effectiveLimit limitParam));
      [|lia].
    by rewrite last_snoc.
Qed.

Lemma followCursors_whole db limitParam :
  NoDup (Store.id <$> Store.repositories db) ->
  0 <= effectiveLimit limitParam ->
  ∀ fuel lastStars lastId,
    (length (selected db lastStars lastId) < fuel)%nat ->
    followCursors fuel db limitParam lastStars lastId
    = Some (listed db <$> selected db lastStars lastId).
Proof.
  intros Hnodup Hlimit. induction fuel as [|fuel IH]; intros lastStars lastId Hfuel;
    [lia|].
  cbn [followCursors].
  destruct (topRepos_page db limitParam lastStars lastId Hlimit)
    as [[Hshort ->]|(Hlong & before & r & Htake & ->)]; [done|].
  set (n := Z.to_nat (effectiveLimit limitParam)) in *.
  set (M := selected db lastStars lastId) in *.
  assert (Hsplit : M = before ++ r :: drop n M).
  { rewrite <- (take_drop n M) at 1. by rewrite Htake, <- app_assoc. }
  pose proof (selected_after db lastStars lastId before r (drop n M) Hnodup Hsplit)
    as Hafter.
  rewrite IH.
  - rewrite Hafter. cbn. by rewrite <- fmap_app, take_drop.
  - rewrite Hafter, length_drop. apply effectiveLimit_positive in Hlimit.
    unfold n in *. lia.
Qed.

(** X22. Following the cursors lists every repository once. For a stored
    set with distinct ids and a limit parameter that is not negative, a
    client that asks for the first page and then keeps asking with the
    cursor of the previous answer receives, within one request more than
    there are repositories, an answer without a cursor; the pages put
    together are the whole listing, ordered by stars and then id, largest
    first: each stored repository exactly once, as many as the stats
    endpoint counts. *)
Theorem following_cursors_lists_everything
    (db : Store.DB) (limitParam : option Z) :
  NoDup (Store.id <$> Store.repositories db) ->
  0 <= effectiveLimit limitParam ->
  ∃ data,
    followCursors (S (length (Store.repositories db))) db limitParam None None
    = Some data
    ∧ data.*1 = selected db None None
    ∧ data.*1 ≡ₚ Store.repositories db
    ∧ StronglySorted precedes data.*1
    ∧ Z.of_nat (length data) = totalRepositories (getStats db).
Proof.
  intros Hnodup Hlimit. eexists. split.
  - apply followCursors_whole; [done|done|].
    rewrite selected_perm. simpl. lia.
  - assert (Hfst : (listed db <$> selected db None None).*1 = selected db None None).
    { rewrite <- list_fmap_compose. apply list_fmap_id. }
    rewrite Hfst. split; [done|]. split; [apply selected_perm|].
    split; [apply selected_sorted|].
    rewrite length_fmap, selected_perm. done.
Qed.

(** X23. The list page shows everything a quick sync stored. When the
    search endpoint honours the page size, the store a quick sync leaves
    from an empty schema holds at most 300 repositories, so the request of
    the list page ([limit=300], no cursor) returns all of them in one
    answer, ordered by stars and then id. *)
Theorem quick_sync_fits_the_list_page (script : list Crawl.Exchange) :
  (∀ x, x ∈ script -> Crawl.honoursLimit x) ->
  let db := Crawl.store (Crawl.syncQuick script Store.empty) in
  (length (Store.repositories db) <= 300)%nat
  ∧ ∃ data next more,
      topRepos db (Some 300) None None = TopOk data next more
      ∧ data.*1 = selected db None None
      ∧ data.*1 ≡ₚ Store.repositories db.
Proof.
  intros Hhon. cbn zeta.
  destruct (fetchLoop_bound 300 script None 0 Store.empty Hhon ltac:(lia))
    as [Hcount Hrows].
  fold (Crawl.fetchTopReposWithCursor 300 script Store.empty) in Hcount, Hrows.
  fold (Crawl.syncQuick script Store.empty) in Hcount, Hrows.
  set (db := Crawl.store (Crawl.syncQuick script Store.empty)) in *.
  assert (Hlen : (length (Store.repositories db) <= 300)%nat) by (simpl in Hrows; lia).
  split; [exact Hlen|].
  assert (Hsel : (length (selected db None None) <= 300)%nat)
    by (by rewrite selected_perm).
  unfold topRepos. change (effectiveLimit (Some 300)) with 300.
  change (300 <? 0) with false. cbn iota.
  do 3 eexists. split; [reflexivity|].
  change (Z.to_nat 300) with 300%nat. rewrite take_ge by lia.
  assert (Hfst : (map (λ r, (r, Store.repository_stats db !! Store.id r))
                    (selected db None None)).*1 = selected db None None).
  { rewrite <- list_fmap_compose. apply list_fmap_id. }
  rewrite Hfst. split; [done|apply selected_perm].
Qed.

Lemma topRepos_page_size
    (db : Store.DB) (limitParam lastStars lastId : option Z) :
  match topRepos db limitParam lastStars lastId with
  | TopFailed => ∃ n, limitParam = Some n ∧ n < 0
  | TopOk data next more =>
      0 <= effectiveLimit limitParam
      ∧ Z.of_nat (length data) <= effectiveLimit limitParam <= 300
      ∧ ((limitParam = None ∨ limitParam = Some 0) -> (length data <= 30)%nat)
      ∧ (more = true ↔ Z.of_nat (length data) = effectiveLimit limitParam)
      ∧ (is_Some next ↔ more = true)
      ∧ (more = false -> data.*1 = selected db lastStars lastId)
  end.
Proof.
  destruct (Z.lt_ge_cases (effectiveLimit limitParam) 0) as [Hneg|Hlimit].
  - unfold topRepos. destruct (Z.ltb_spec (effectiveLimit limitParam) 0); [|lia].
    unfold effectiveLimit in Hneg. destruct limitParam as [[|p|p]|]; try lia.
    eexists. split; [reflexivity|lia].
  - pose proof (effectiveLimit_positive _ Hlimit) as Hpos.
    destruct (topRepos_page db limitParam lastStars lastId Hlimit)
      as [[Hshort ->]|(Hlong & before & r & Htake & ->)].
    + rewrite length_fmap. split; [done|]. split; [lia|]. split.
      { intros [-> | ->];
          [change (effectiveLimit None) with 30 in * 
          |change (effectiveLimit (Some 0)) with 30 in *]; lia. }
      split; [split; [done|lia]|]. split; [split; [by intros []|done]|].
      intros _. rewrite <- list_fmap_compose. apply list_fmap_id.
    + rewrite length_fmap, length_take. split; [done|]. split; [lia|]. split.
      { intros [-> | ->];
          [change (effectiveLimit None) with 30 in * 
          |change (effectiveLimit (Some 0)) with 30 in *]; lia. }
      split; [split; [lia|done]|]. split; [split; [done|eauto]|done].
Qed.

(** X24. The size of a page of the listing. Whatever limit is asked, a
    page never holds more than 300 rows, and 30 at most when the limit is
    absent, 0 or not a number; the answer carries a cursor exactly when it
    says that more follows, which it says exactly when the page is full;
    a page that is not full holds everything below its cursor. A request
    fails, with status 500, exactly when its limit is negative or when
    both cursor parameters are given and one of them is not a number in the
    range of [INTEGER]. *)
Theorem listing_page_size
    (db : Store.DB) (limitParam : option Z) (lastStars lastId : CursorParam) :
  (getTop db limitParam lastStars lastId = TopFailed
   ↔ rejected limitParam lastStars lastId)
  ∧ ∀ data next more,
      getTop db limitParam lastStars lastId = TopOk data next more ->
      0 <= effectiveLimit limitParam
      ∧ Z.of_nat (length data) <= effectiveLimit limitParam <= 300
      ∧ ((limitParam = None ∨ limitParam = Some 0) -> (length data <= 30)%nat)
      ∧ (more = true ↔ Z.of_nat (length data) = effectiveLimit limitParam)
      ∧ (is_Some next ↔ more = true)
      ∧ (more = false -> data.*1 = selected db (number lastStars) (number lastId)).
Proof.
  assert (Hquery : ∀ stars id,
            (topRepos db limitParam stars id = TopFailed
             ↔ ∃ n, limitParam = Some n ∧ n < 0)
            ∧ ∀ data next more,
                topRepos db limitParam stars id = TopOk data next more ->
                0 <= effectiveLimit limitParam
                ∧ Z.of_nat (length data) <= effectiveLimit limitParam <= 300
                ∧ ((limitParam = None ∨ limitParam = Some 0) ->
                   (length data <= 30)%nat)
                ∧ (more = true ↔ Z.of_nat (length data) = effectiveLimit limitParam)
                ∧ (is_Some next ↔ more = true)
                ∧ (more = false -> data.*1 = selected db stars id)).
  { intros stars id.
    pose proof (topRepos_page_size db limitParam stars id) as H.
    destruct (topRepos db limitParam stars id) as [data next more|] eqn:Htop.
    - split; [|by intros ? ? ? [= <- <- <-]].
      split; [done|]. intros (n & -> & Hn). unfold topRepos in Htop.
      destruct (Z.ltb_spec (effectiveLimit (Some n)) 0) as [|Hge]; [done|].
      unfold effectiveLimit in Hge. destruct n; lia.
    - split; [|done]. by split. }
  assert (Hselected : ∀ stars id,
            (stars = None ∨ id = None) ->
            selected db stars id = selected db None None).
  { intros stars id [-> | ->]; [done|]. by destruct stars. }
  unfold getTop, rejected.
  destruct lastStars as [|s|], lastId as [|i|]; cbn [number];
    try (destruct (Hquery None None) as [Hfail Hpage];
         split; [rewrite Hfail; split; [by left|by intros [?|(? & ? & _)]]
                |exact Hpage]);
    try (split; [split; [intros _; right; repeat split; try done;
                           by intros (? & ? & ? & ? & _)|done]
                |done]).
  destruct (Schema.fitsInteger s) eqn:Hs, (Schema.fitsInteger i) eqn:Hi; cbn [andb];
    try (split; [split; [intros _; right; repeat split; try done;
                           intros (? & ? & [= <-] & [= <-] & ? & ?); congruence
                        |done]
                |done]).
  destruct (Hquery (Some s) (Some i)) as [Hfail Hpage].
  split; [|exact Hpage]. rewrite Hfail. split; [by left|].
  intros [?|(_ & _ & Hbad)]; [done|]. destruct Hbad. by exists s, i.
Qed.

(** *** The theorems on sample stores *)

(** The too-large repository of the samples, refreshed from its history. *)
Lemma fallback_list_is_served_whole_witness :
  outcome (fetchAndSaveContributors SampleUpstream.large Sample.scenario_now 1
             "facebook/react" SampleUpstream.enriched) = Saved Fallback
  /\ (length (rowsOf 1
                (Store.repository_contributors
                   (store (fetchAndSaveContributors SampleUpstream.large
                             Sample.scenario_now 1 "facebook/react"
                             SampleUpstream.enriched)))) <= 30)%nat.
Proof.
  assert (Hout : outcome (fetchAndSaveContributors SampleUpstream.large
                            Sample.scenario_now 1 "facebook/react"
                            SampleUpstream.enriched) = Saved Fallback)
    by (vm_compute; reflexivity).
  split; [exact Hout|].
  exact (proj1 (fallback_list_is_served_whole SampleUpstream.large Sample.scenario_now 1
                  "facebook/react" SampleUpstream.enriched Hout)).
Defined.

(** The two sample weeks, saved and served. *)
Lemma saved_weeks_are_served_witness :
  fetchAndSaveCommitActivity SampleUpstream.small Sample.scenario_now 1
    "facebook/react" SampleUpstream.enriched
  = (ActivitySaved,
     (fetchAndSaveCommitActivity SampleUpstream.small Sample.scenario_now 1
        "facebook/react" SampleUpstream.enriched).2)
  /\ NoDup (week <$> fetchedWeeks SampleUpstream.small "facebook/react")
  /\ Forall wellFormedWeek (fetchedWeeks SampleUpstream.small "facebook/react")
  /\ 1 ∈ Store.id <$> Store.repositories SampleUpstream.enriched
  /\ Schema.fitsInteger 1 = true
  /\ ∃ items byWeek,
       getCommitActivity
         (fetchAndSaveCommitActivity SampleUpstream.small Sample.scenario_now 1
            "facebook/react" SampleUpstream.enriched).2 (Some 1) = Ok items
       ∧ byWeek ≡ₚ fetchedWeeks SampleUpstream.small "facebook/react"
       ∧ StronglySorted (λ a b, week a <= week b) byWeek
       ∧ item_total_commits <$> items = total <$> byWeek.
Proof.
  assert (Hact : fetchAndSaveCommitActivity SampleUpstream.small Sample.scenario_now 1
       "facebook/react" SampleUpstream.enriched
     = (ActivitySaved,
        (fetchAndSaveCommitActivity SampleUpstream.small Sample.scenario_now 1
           "facebook/react" SampleUpstream.enriched).2))
    by (vm_compute; reflexivity).
  assert (Hweeks : NoDup (week <$> fetchedWeeks SampleUpstream.small "facebook/react"))
    by (apply (bool_decide_unpack _); vm_compute; exact I).
  assert (Hformed : Forall wellFormedWeek
                      (fetchedWeeks SampleUpstream.small "facebook/react")).
  { repeat constructor; vm_compute; congruence. }
  assert (Hstored : 1 ∈ Store.id <$> Store.repositories SampleUpstream.enriched)
    by (vm_compute; left).
  split; [exact Hact|]. split; [exact Hweeks|]. split; [exact Hformed|].
  split; [exact Hstored|]. split; [reflexivity|].
  exact (saved_weeks_are_served SampleUpstream.small Sample.scenario_now 1
           "facebook/react" SampleUpstream.enriched _ Hact Hweeks Hformed Hstored
           eq_refl).
Defined.

Lemma saved_satisfied : Schema.satisfied SampleStore.saved.
Proof.
  exact (batchSaveRepositories_satisfied Sample.scenario_now SampleStore.page
           Store.empty empty_satisfied).
Qed.

(** The scenario repository, looked up by its name in the saved page. *)
Lemma search_leads_to_details_witness :
  NoDup (Store.id <$> Store.repositories SampleStore.saved)
  /\ NoDup (Store.full_name <$> Store.repositories SampleStore.saved)
  /\ Schema.integerIds SampleStore.saved
  /\ search SampleStore.saved (Some "facebook/react"%string)
     = Ok (Sync.excluded Sample.scenario_now 1 Sample.scenario_repo, None).
Proof.
  destruct saved_satisfied as (Hids & _ & Hnames & _).
  assert (Hint : Schema.integerIds SampleStore.saved)
    by (repeat constructor).
  split; [exact Hids|]. split; [exact Hnames|]. split; [exact Hint|].
  refine (proj1 (proj1 (search_leads_to_details SampleStore.saved Hids Hnames Hint)
                   (Sync.excluded Sample.scenario_now 1 Sample.scenario_repo) _ _)).
  - vm_compute. left.
  - vm_compute. discriminate.
Defined.

(** The totals of the saved page: two repositories, 1000 stars. *)
Lemma totals_bound_every_repository_witness :
  Schema.positiveCounts SampleStore.saved
  /\ totalRepositories (getStats SampleStore.saved) = 2
  /\ 0 <= totalStars (getStats SampleStore.saved).
Proof.
  destruct saved_satisfied as (_ & _ & _ & Hpos & _).
  split; [exact Hpos|].
  destruct (totals_bound_every_repository SampleStore.saved Hpos) as (Hn & H0 & _).
  split; [exact Hn|exact H0].
Defined.

(** The five tied repositories of the samples, two per page. *)
Lemma following_cursors_lists_everything_witness :
  NoDup (Store.id <$> Store.repositories SampleListing.tied)
  /\ 0 <= effectiveLimit (Some 2)
  /\ ∃ data,
       followCursors 6 SampleListing.tied (Some 2) None None = Some data
       ∧ data.*1 = selected SampleListing.tied None None.
Proof.
  assert (Hnodup : NoDup (Store.id <$> Store.repositories SampleListing.tied))
    by (apply (bool_decide_unpack _); vm_compute; exact I).
  assert (Hlimit : 0 <= effectiveLimit (Some 2)) by (by vm_compute).
  split; [exact Hnodup|]. split; [exact Hlimit|].
  destruct (following_cursors_lists_everything SampleListing.tied (Some 2)
              Hnodup Hlimit) as (data & Hdata & Hsel & _).
  exists data. split; [exact Hdata|exact Hsel].
Defined.

(** A quick sync of the three sample results. *)
Lemma quick_sync_fits_the_list_page_witness :
  (∀ x, x ∈ [SampleCrawl.throttled; SampleCrawl.serving] -> Crawl.honoursLimit x)
  /\ (length (Store.repositories
                (Crawl.store (Crawl.syncQuick
                                [SampleCrawl.throttled; SampleCrawl.serving]
                                Store.empty))) <= 300)%nat.
Proof.
  split; [exact sample_honoursLimit|].
  exact (proj1 (quick_sync_fits_the_list_page
                  [SampleCrawl.throttled; SampleCrawl.serving] sample_honoursLimit)).
Defined.

End EndpointProperties.
(** ** The activity labels of the pages *)

Section PageProperties.

Import GitHub Pages.

Local Open Scope Z_scope.

(** X28. The label of the detail page names the recency term of the health
    score. For a repository that is neither archived nor disabled, the
    health score computed with a day count exceeds the one computed
    without it by 30 when the detail page labels that count Very Active,
    by 20 for Active, by 10 for Moderate, by nothing for Low Activity and
    Unknown, and falls short by 20 for Inactive: the page and the score use
    the same day limits 7, 30, 90 and 365. *)
Theorem detail_label_names_health_term
    (now : Z) (repo : GitHubRepo) (days : option Z) :
  isArchived repo = false ->
  isDisabled repo = false ->
  Score.calculateSimpleHealthScore now repo days
  = Score.calculateSimpleHealthScore now repo None
    + labelTerm (RepositoryDetail.getActivityLevel days).
Proof.
  intros Harchived Hdisabled.
  unfold Score.calculateSimpleHealthScore, RepositoryDetail.getActivityLevel, byDays.
  rewrite Harchived, Hdisabled. cbn zeta.
  destruct days as [d|]; [|cbn; lia].
  destruct (latestRelease repo) as [rel|];
    [destruct (_ <=? 90)|];
    destruct (hasIssuesEnabled repo && _); destruct (hasDiscussionsEnabled repo);
    destruct (Z.leb_spec d 7); cbn; try lia;
    destruct (Z.leb_spec d 30); cbn; try lia;
    destruct (Z.leb_spec d 90); cbn; try lia;
    destruct (Z.leb_spec d 365), (Z.gtb_spec d 365); cbn; lia.
Qed.

(** The scenario repository, three days after its last push. *)
Lemma detail_label_names_health_term_witness :
  isArchived Sample.scenario_repo = false
  /\ isDisabled Sample.scenario_repo = false
  /\ label (RepositoryDetail.getActivityLevel (Some 3)) = "Very Active"%string
  /\ Score.calculateSimpleHealthScore Sample.scenario_now Sample.scenario_repo (Some 3)
     = Score.calculateSimpleHealthScore Sample.scenario_now Sample.scenario_repo None
       + 30.
Proof.
  split; [reflexivity|]. split; [reflexivity|]. split; [reflexivity|].
  exact (detail_label_names_health_term Sample.scenario_now Sample.scenario_repo
           (Some 3) eq_refl eq_refl).
Defined.

(** X29. The two pages disagree about a repository pushed today. The
    list page and the detail page give a day count the same label and
    colour, except for the count 0: the list page, which tests the count
    for truthiness, shows Unknown where the detail page shows Very
    Active. *)
Theorem pages_disagree_only_on_day_zero (days : option Z) :
  (RepositoryList.getActivityLevel days = RepositoryDetail.getActivityLevel days
   ↔ days ≠ Some 0)
  ∧ label (RepositoryList.getActivityLevel (Some 0)) = "Unknown"%string
  ∧ label (RepositoryDetail.getActivityLevel (Some 0)) = "Very Active"%string.
Proof.
  split; [|done].
  unfold RepositoryList.getActivityLevel, RepositoryDetail.getActivityLevel.
  destruct days as [d|]; [|done].
  destruct (Z.eqb_spec d 0) as [->|Hne].
  - split; [discriminate|done].
  - split; [congruence|done].
Qed.

End PageProperties.
